(** * Seat allocation of the cinema booking system

    A shallow embedding of [seat_allocation.py], of the parts of [models.py]
    it reads, and of [get_booking_seating_map] and [create_seats_for_movie]
    from [main.py], followed by the properties of the allocator.

    Conventions of the embedding:
    - a Python [int] is a [Z]; a Python [float] is an IEEE 754 binary64 value,
      [spec_float] with precision 53 and maximal exponent 1024;
    - a Python [str] is a [string] whose characters are read as the code points
      U+0000..U+00FF; a one-character column such as [Seat.row_letter] is an
      [ascii];
    - a function that can raise returns a [result]; [Raise e] is the exception
      leaving the function;
    - the database session is a record of tables, each a list of rows in
      storage order; a query is a filter over the table. *)

From Stdlib Require Import ZArith QArith Qround SpecFloat String Ascii.
From stdpp Require Import gmap strings list sorting.

Open Scope Z_scope.

(** ** Python primitives *)

Module Py.

Inductive exn : Type :=
| IndexError
| ValueError
| OverflowError
| ZeroDivisionError
| AttributeError.

Inductive result (A : Type) : Type :=
| Ok (a : A)
| Raise (e : exn).
Arguments Ok {A} a.
Arguments Raise {A} e.

Definition bind {A B : Type} (c : result A) (k : A -> result B) : result B :=
  match c with
  | Ok a => k a
  | Raise e => Raise e
  end.

(** [len(l)] *)
Definition len {A : Type} (l : list A) : Z := Z.of_nat (length l).

(** An index of a slice, brought into [0..len]: a negative one counts from
    the end. *)
Definition clamp_index (n : Z) (i : Z) : nat :=
  Z.to_nat (if i <? 0 then Z.max (n + i) 0 else Z.min i n).

(** [l[start:stop]] *)
Definition slice {A : Type} (l : list A) (start stop : Z) : list A :=
  let a := clamp_index (len l) start in
  let b := clamp_index (len l) stop in
  take (b - a)%nat (drop a l).

(** [l[:stop]] *)
Definition slice_to {A : Type} (l : list A) (stop : Z) : list A :=
  slice l 0 stop.

(** [l[start:]] *)
Definition slice_from {A : Type} (l : list A) (start : Z) : list A :=
  drop (clamp_index (len l) start) l.

(** [string.ascii_uppercase] *)
Definition ascii_uppercase : list ascii :=
  list_ascii_of_string "ABCDEFGHIJKLMNOPQRSTUVWXYZ".

(** [l.index(x) if x in l else -1] *)
Fixpoint index_or_minus_one (x : ascii) (l : list ascii) : Z :=
  match l with
  | [] => -1
  | y :: l' =>
      if bool_decide (y = x) then 0
      else
        let r := index_or_minus_one x l' in
        if r =? -1 then -1 else r + 1
  end.

(** *** Floats *)

Definition prec : Z := 53.
Definition emax : Z := 1024.

(** The literal [0.5]. *)
Definition half : spec_float := binary_normalize prec emax 1 (-1) false.

(** [a / b] on two ints: the quotient correctly rounded to binary64;
    [OverflowError] when it is too large for a float. *)
Definition int_truediv (a b : Z) : result spec_float :=
  if b =? 0 then Raise ZeroDivisionError
  else if a =? 0 then Ok (S754_zero (b <? 0))
  else
    let '(q, e, l) :=
      SFdiv_core_binary prec emax (Z.abs a) 0 (Z.abs b) 0 in
    match binary_round_aux prec emax (xorb (a <? 0) (b <? 0)) q e l with
    | S754_infinity _ => Raise OverflowError
    | f => Ok f
    end.

Definition float_sub : spec_float -> spec_float -> spec_float :=
  SFsub prec emax.
Definition float_add : spec_float -> spec_float -> spec_float :=
  SFadd prec emax.

(** [int(x)] on a float: truncation toward zero. *)
Definition int_of_float (x : spec_float) : result Z :=
  match x with
  | S754_zero _ => Ok 0
  | S754_infinity _ => Raise OverflowError
  | S754_nan => Raise ValueError
  | S754_finite s m e =>
      Ok (cond_Zopp s
            (if 0 <=? e then Z.pos m * 2 ^ e else Z.pos m / 2 ^ (- e)))
  end.

(** *** Strings *)

(** [str.isspace] on one character of U+0000..U+00FF. *)
Definition isspace (c : ascii) : bool :=
  let n := N_of_ascii c in
  ((9 <=? n) && (n <=? 13) || (28 <=? n) && (n <=? 32)
   || (n =? 133) || (n =? 160))%N.

Fixpoint lstrip (s : list ascii) : list ascii :=
  match s with
  | c :: s' => if isspace c then lstrip s' else s
  | [] => []
  end.

(** [s.strip()] *)
Definition strip (s : list ascii) : list ascii :=
  reverse (lstrip (reverse (lstrip s))).

(** [str.upper] on one character. Of U+0080..U+00FF, three characters have
    an upper case that is not one character of that range: U+00B5 and U+00FF,
    whose upper cases are U+039C and U+0178, and U+00DF, whose upper case is
    the two letters SS. They are left as they are, which the parser does not
    see: the pattern takes one letter of A-Z and then digits only, and no
    string that holds one of the three, or one of their upper cases, is of
    that shape. *)
Definition upper_char (c : ascii) : ascii :=
  let n := N_of_ascii c in
  if ((97 <=? n) && (n <=? 122)
      || (224 <=? n) && (n <=? 254) && negb (n =? 247))%N
  then ascii_of_N (n - 32) else c.

(** [s.upper()] *)
Definition upper (s : list ascii) : list ascii := map upper_char s.

(** The character classes [[A-Z]] and [\d] of [re]. *)
Definition is_AZ (c : ascii) : bool :=
  let n := N_of_ascii c in ((65 <=? n) && (n <=? 90))%N.
Definition is_digit (c : ascii) : bool :=
  let n := N_of_ascii c in ((48 <=? n) && (n <=? 57))%N.

(** The longest prefix of digits, and what follows it: what a greedy [\d*]
    consumes. *)
Fixpoint span_digits (s : list ascii) : list ascii * list ascii :=
  match s with
  | c :: s' =>
      if is_digit c then
        let '(ds, rest) := span_digits s' in (c :: ds, rest)
      else ([], s)
  | [] => ([], [])
  end.

(** [$] of [re] without [MULTILINE]: at the end of the string, or before a
    newline that ends it. *)
Definition at_dollar (rest : list ascii) : bool :=
  match rest with
  | [] => true
  | [c] => (N_of_ascii c =? 10)%N
  | _ => false
  end.

(** [sys.get_int_max_str_digits()] as the interpreter starts: the most
    digits a string may have for [int()] to convert it. *)
Definition int_max_str_digits : Z := 4300.

(** The value of a string of decimal digits. *)
Definition decimal_value (ds : list ascii) : Z :=
  foldl (fun acc c => 10 * acc + (Z.of_N (N_of_ascii c) - 48)) 0 ds.

(** [int(ds)] on a string of decimal digits, an int without bound:
    [ValueError] when the string has more digits than the interpreter
    converts, leading zeros counted, or none. *)
Definition int_of_digits (ds : list ascii) : result Z :=
  if bool_decide (ds = []) || (len ds >? int_max_str_digits) then
    Raise ValueError
  else Ok (decimal_value ds).

End Py.


Import Py.

#[global] Instance result_bind : MBind result := fun A B k c => bind c k.
#[global] Instance result_ret : MRet result := fun A a => Ok a.

(** [sorted(l, key=key)] and [l.sort(key=key)]: a stable sort. It also stands
    for SQL's [ORDER BY], which leaves the order of equal keys open. *)
Fixpoint insert_by {A : Type} (key : A -> Z) (x : A) (l : list A) : list A :=
  match l with
  | [] => [x]
  | y :: l' =>
      if key x <=? key y then x :: y :: l' else y :: insert_by key x l'
  end.

Definition sort_by {A : Type} (key : A -> Z) (l : list A) : list A :=
  foldr (insert_by key) [] l.

(** ** models.py *)

Module Movie.
Record t : Type := mk {
  id : Z;
  rows : Z;
  seats_per_row : Z
}.
End Movie.

Module Seat.
Record t : Type := mk {
  id : Z;
  movie_id : Z;
  row_letter : ascii;
  seat_number : Z;
  is_booked : bool
}.

(** [seat_label]: the row letter and the seat number, before formatting. *)
Definition seat_label (s : t) : ascii * Z := (row_letter s, seat_number s).
End Seat.

Module Booking.
Record t : Type := mk {
  id : Z;
  movie_id : Z;
  booking_id : string
}.
End Booking.

Module BookingSeat.
Record t : Type := mk {
  id : Z;
  booking_id : Z;
  seat_id : Z
}.
End BookingSeat.

(** The tables a [Session] gives access to. *)
Module Session.
Record t : Type := mk {
  movies : list Movie.t;
  seats : list Seat.t;
  bookings : list Booking.t;
  booking_seats : list BookingSeat.t
}.
End Session.

#[global] Instance seat_eq_dec : EqDecision Seat.t.
Proof. solve_decision. Defined.

(** [db.query(Movie).filter(Movie.id == movie_id).first()] *)
Definition query_movie (db : Session.t) (movie_id : Z) : option Movie.t :=
  List.find (fun m => bool_decide (Movie.id m = movie_id)) (Session.movies db).

(** ** seat_allocation.py *)

Definition get_middle_start_column (seats_per_row num_tickets : Z) : result Z :=
  if num_tickets >=? seats_per_row then Ok 1
  else
    center ← int_truediv (seats_per_row + 1) 2;
    half_tickets ← int_truediv num_tickets 2;
    let start := float_add (float_sub center half_tickets) half in
    i ← int_of_float start;
    Ok (Z.max 1 i).

(** The match of [^([A-Z])(\d+)$] at the start of [s]: the two groups. The
    greedy [\d+] takes every digit that follows the letter; giving one back
    would leave a digit in front of [$]. *)
Definition match_position (s : list ascii) : option (ascii * list ascii) :=
  match s with
  | c :: s' =>
      if is_AZ c then
        match span_digits s' with
        | (d :: ds, rest) => if at_dollar rest then Some (c, d :: ds) else None
        | ([], _) => None
        end
      else None
  | [] => None
  end.

Definition parse_seat_position (position : string)
  : result (option (ascii * Z)) :=
  if bool_decide (position = EmptyString) then Ok None
  else
    let position := upper (strip (list_ascii_of_string position)) in
    match match_position position with
    | None => Ok None
    | Some (row_letter, digits) =>
        col_number ← int_of_digits digits;
        Ok (Some (row_letter, col_number))
    end.

Definition get_available_seats_in_row
    (db : Session.t) (movie_id : Z) (row_letter : ascii) : list Seat.t :=
  sort_by Seat.seat_number
    (filter (fun s => Seat.movie_id s = movie_id
                      /\ Seat.row_letter s = row_letter
                      /\ Seat.is_booked s = false)
       (Session.seats db)).

Definition get_row_letters_for_movie (db : Session.t) (movie_id : Z)
  : list ascii :=
  match query_movie db movie_id with
  | None => []
  | Some movie => slice_to ascii_uppercase (Movie.rows movie)
  end.

(** The test of one start index [i]: the inner loop over [j], which stops at
    the first gap. Every index it reads is below [len(available_numbers)]
    (lemma [consecutive_indices_in_range]), so no read raises. *)
Definition consecutive_at (available_numbers : list Z) (count : Z) (i : nat)
  : bool :=
  forallb
    (fun j =>
       match available_numbers !! (i + j + 1)%nat,
             available_numbers !! (i + j)%nat with
       | Some a, Some b => bool_decide (a - b = 1)
       | _, _ => false
       end)
    (seq 0 (Z.to_nat (count - 1))).

(** One round of the loop over [i]. [best_distance] is [None] for
    [float('inf')], which every int is below. The index [i] is in range
    (lemma [scan_index_in_range]). *)
Definition scan_step (available_numbers : list Z) (count preferred_start : Z)
    (best : nat * option Z) (i : nat) : nat * option Z :=
  if consecutive_at available_numbers count i then
    match available_numbers !! i with
    | Some actual_start =>
        let distance := Z.abs (actual_start - preferred_start) in
        let improves :=
          match snd best with
          | None => true
          | Some best_distance => distance <? best_distance
          end in
        if improves then (i, Some distance) else best
    | None => best
    end
  else best.

Definition find_best_start (available_numbers : list Z)
    (count preferred_start : Z) : nat * option Z :=
  foldl (scan_step available_numbers count preferred_start) (0%nat, None)
    (seq 0 (Z.to_nat (len available_numbers - count + 1))).

(** [{s.seat_number: s for s in available_seats}]: a later seat replaces an
    earlier one with the same number. *)
Definition seat_map (available_seats : list Seat.t) : gmap Z Seat.t :=
  foldl (fun m s => <[Seat.seat_number s := s]> m) ∅ available_seats.

(** [[available_map[n] for n in selected_numbers]]; the numbers are keys of
    the map (lemma [selected_numbers_are_keys]). *)
Definition select_centered_seats (available_seats : list Seat.t)
    (count preferred_start : Z) : list Seat.t :=
  if bool_decide (available_seats = []) || (count <=? 0) then []
  else
    let available_map := seat_map available_seats in
    let available_numbers := sort_by (fun n => n) (elements (dom available_map)) in
    if count >=? len available_numbers then slice_to available_seats count
    else
      let best_start_idx :=
        Z.of_nat (fst (find_best_start available_numbers count preferred_start)) in
      let selected_numbers :=
        slice available_numbers best_start_idx (best_start_idx + count) in
      omap (fun n => available_map !! n) selected_numbers.

(** The loop of [get_default_seats] over the rows still to visit. *)
Fixpoint default_loop (db : Session.t) (movie_id : Z) (movie : Movie.t)
    (row_letters : list ascii) (remaining : Z) (selected_seats : list Seat.t)
  : result (list Seat.t) :=
  match row_letters with
  | [] => Ok selected_seats
  | row_letter :: row_letters' =>
      if remaining <=? 0 then Ok selected_seats
      else
        let available := get_available_seats_in_row db movie_id row_letter in
        if bool_decide (available = []) then
          default_loop db movie_id movie row_letters' remaining selected_seats
        else
          let to_take := Z.min remaining (len available) in
          start_col ← get_middle_start_column (Movie.seats_per_row movie) to_take;
          let selected_from_row :=
            select_centered_seats available to_take start_col in
          default_loop db movie_id movie row_letters'
            (remaining - len selected_from_row)
            (selected_seats ++ selected_from_row)
  end.

Definition get_default_seats (db : Session.t) (movie_id num_tickets : Z)
  : result (list Seat.t) :=
  match query_movie db movie_id with
  | None => Ok []
  | Some movie =>
      default_loop db movie_id movie (get_row_letters_for_movie db movie_id)
        num_tickets []
  end.

(** The loop of [get_seats_from_position] over [rows_to_check]. *)
Fixpoint position_loop (db : Session.t) (movie_id : Z) (movie : Movie.t)
    (start_col : Z) (rows_to_check : list ascii) (is_first_row : bool)
    (remaining : Z) (selected_seats : list Seat.t) : result (list Seat.t) :=
  match rows_to_check with
  | [] => Ok selected_seats
  | row_letter :: rows_to_check' =>
      if remaining <=? 0 then Ok selected_seats
      else
        let available := get_available_seats_in_row db movie_id row_letter in
        if bool_decide (available = []) then
          position_loop db movie_id movie start_col rows_to_check'
            is_first_row remaining selected_seats
        else if is_first_row then
          let seats_to_right :=
            sort_by Seat.seat_number
              (filter (fun s => Seat.seat_number s >= start_col) available) in
          let to_take := Z.min remaining (len seats_to_right) in
          position_loop db movie_id movie start_col rows_to_check' false
            (remaining - to_take)
            (selected_seats ++ slice_to seats_to_right to_take)
        else
          let to_take := Z.min remaining (len available) in
          start_col_centered ←
            get_middle_start_column (Movie.seats_per_row movie) to_take;
          let selected_from_row :=
            select_centered_seats available to_take start_col_centered in
          position_loop db movie_id movie start_col rows_to_check' false
            (remaining - len selected_from_row)
            (selected_seats ++ selected_from_row)
  end.

Definition get_seats_from_position (db : Session.t) (movie_id : Z)
    (start_row : ascii) (start_col num_tickets : Z) : result (list Seat.t) :=
  match query_movie db movie_id with
  | None => Ok []
  | Some movie =>
      let all_rows := slice_to ascii_uppercase (Movie.rows movie) in
      let start_idx := index_or_minus_one start_row all_rows in
      if start_idx =? -1 then Ok []
      else
        let rows_to_check := slice_from all_rows start_idx in
        position_loop db movie_id movie start_col rows_to_check true
          num_tickets []
  end.

(** The [error] entry of the dictionary [allocate_seats] returns: which
    message it is, and the values formatted into it. *)
Inductive error_message : Type :=
| Movie_not_found
| Not_enough_seats (total_available : Z)
| Invalid_seat_position (start_position : string)
| Invalid_row (row_letter : ascii) (last_row : ascii)
| Invalid_column (col_number : Z) (seats_per_row : Z)
| Could_not_allocate (num_tickets : Z).

(** The dictionary [allocate_seats] returns. *)
Record allocation : Type := mk_allocation {
  success : bool;
  seats : list Seat.t;
  error : option error_message
}.

Definition failure (e : error_message) : allocation :=
  {| success := false; seats := []; error := Some e |}.

(** The end of [allocate_seats], once an allocator has returned [seats]. *)
Definition check_allocated (num_tickets : Z) (seats : list Seat.t)
  : allocation :=
  if len seats <? num_tickets then failure (Could_not_allocate num_tickets)
  else {| success := true; seats := seats; error := None |}.

(** [if start_position:] holds of a string that is not empty; [None] and the
    empty string both take the [else] branch. *)
Definition truthy (start_position : option string) : option string :=
  match start_position with
  | None | Some EmptyString => None
  | Some position => Some position
  end.

Definition allocate_seats (db : Session.t) (movie_id num_tickets : Z)
    (start_position : option string) : result allocation :=
  match query_movie db movie_id with
  | None => Ok (failure Movie_not_found)
  | Some movie =>
      let total_available :=
        len (filter (fun s => Seat.movie_id s = movie_id
                              /\ Seat.is_booked s = false)
               (Session.seats db)) in
      if total_available <? num_tickets then
        Ok (failure (Not_enough_seats total_available))
      else
        match truthy start_position with
        | Some position =>
            parsed ← parse_seat_position position;
            match parsed with
            | None => Ok (failure (Invalid_seat_position position))
            | Some (row_letter, col_number) =>
                let row_letters :=
                  slice_to ascii_uppercase (Movie.rows movie) in
                if bool_decide (row_letter ∉ row_letters) then
                  match last row_letters with
                  | Some last_row =>
                      Ok (failure (Invalid_row row_letter last_row))
                  | None => Raise IndexError
                  end
                else if (col_number <? 1)
                        || (col_number >? Movie.seats_per_row movie) then
                  Ok (failure (Invalid_column col_number
                                 (Movie.seats_per_row movie)))
                else
                  seats ← get_seats_from_position db movie_id row_letter
                            col_number num_tickets;
                  Ok (check_allocated num_tickets seats)
            end
        | None =>
            seats ← get_default_seats db movie_id num_tickets;
            Ok (check_allocated num_tickets seats)
        end
  end.

(** ** main.py *)

(** The primary key the database gives to a new row of [seats]: one more than
    the largest in the table. *)
Definition next_seat_id (table : list Seat.t) : Z :=
  1 + foldr Z.max 0 (map Seat.id table).

Definition create_seats_for_movie (db : Session.t) (movie : Movie.t)
  : Session.t :=
  let row_letters := slice_to ascii_uppercase (Movie.rows movie) in
  let added :=
    foldl
      (fun table row_letter =>
         foldl
           (fun table seat_num =>
              table ++ [ {| Seat.id := next_seat_id table;
                            Seat.movie_id := Movie.id movie;
                            Seat.row_letter := row_letter;
                            Seat.seat_number := seat_num;
                            Seat.is_booked := false |} ])
           table (seqZ 1 (Movie.seats_per_row movie)))
      (Session.seats db) row_letters in
  {| Session.movies := Session.movies db;
     Session.seats := added;
     Session.bookings := Session.bookings db;
     Session.booking_seats := Session.booking_seats db |}.

(** One seat of the map a booking is viewed on: the marker is [o] for a seat
    of the viewed booking, [#] for a seat of another booking, [.] for a free
    one. *)
Module MapSeat.
Record t : Type := mk {
  number : Z;
  marker : ascii;
  label : ascii * Z
}.
End MapSeat.

Module MapRow.
Record t : Type := mk {
  letter : ascii;
  seats : list MapSeat.t
}.
End MapRow.

Module BookingMap.
Record t : Type := mk {
  rows : list MapRow.t;
  seats_per_row : Z;
  movie : Movie.t
}.
End BookingMap.

(** The marker of one slot, from the seat found for it, if any. *)
Definition slot_marker (viewed_booking_seat_ids other_booked_seat_ids : gset Z)
    (seat : option Seat.t) : ascii :=
  match seat with
  | Some seat =>
      if bool_decide (Seat.id seat ∈ viewed_booking_seat_ids) then "o"%char
      else if bool_decide (Seat.id seat ∈ other_booked_seat_ids) then "#"%char
      else "."%char
  | None => "."%char
  end.

(** [viewing_booking.movie] is the row of [movies] the booking refers to;
    when there is none it is [None] and reading [movie.id] raises. *)
Definition get_booking_seating_map (db : Session.t) (viewing_booking : Booking.t)
  : result BookingMap.t :=
  match query_movie db (Booking.movie_id viewing_booking) with
  | None => Raise AttributeError
  | Some movie =>
      let all_seats :=
        filter (fun s => Seat.movie_id s = Movie.id movie) (Session.seats db) in
      let viewed_booking_seat_ids : gset Z :=
        list_to_set
          (BookingSeat.seat_id
             <$> filter (fun bs => BookingSeat.booking_id bs
                                   = Booking.id viewing_booking)
                   (Session.booking_seats db)) in
      let all_booked_seats :=
        filter
          (fun bs => Exists (fun s => Seat.id s = BookingSeat.seat_id bs
                                      /\ Seat.movie_id s = Movie.id movie)
                       (Session.seats db))
          (Session.booking_seats db) in
      let other_booked_seat_ids : gset Z :=
        list_to_set
          (BookingSeat.seat_id
             <$> filter (fun bs => BookingSeat.seat_id bs
                                   ∉ viewed_booking_seat_ids)
                   all_booked_seats) in
      let row_letters :=
        sort_by (fun c => - Z.of_N (N_of_ascii c))
          (elements (list_to_set (Seat.row_letter <$> all_seats)
                     : gset ascii)) in
      let seats_per_row := Movie.seats_per_row movie in
      let rows :=
        fmap
          (fun row_letter =>
             {| MapRow.letter := row_letter;
                MapRow.seats :=
                  fmap
                    (fun seat_num =>
                       let seat :=
                         List.find
                           (fun s => bool_decide
                                       (Seat.row_letter s = row_letter
                                        /\ Seat.seat_number s = seat_num))
                           all_seats in
                       {| MapSeat.number := seat_num;
                          MapSeat.marker :=
                            slot_marker viewed_booking_seat_ids
                              other_booked_seat_ids seat;
                          MapSeat.label := (row_letter, seat_num) |})
                    (seqZ 1 seats_per_row) |})
          row_letters in
      Ok {| BookingMap.rows := rows;
            BookingMap.seats_per_row := seats_per_row;
            BookingMap.movie := movie |}
  end.

(** ** Vocabulary of the statements *)

(** In non-decreasing order of [key]. *)
Definition sorted_by {A : Type} (key : A -> Z) (l : list A) : Prop :=
  StronglySorted (fun x y => key x <= key y) l.

(** The centering formula in exact arithmetic:
    [floor((seats_per_row + 1)/2 - count/2 + 0.5)]. *)
Definition exact_start (seats_per_row count : Z) : Z :=
  Qfloor (inject_Z (seats_per_row + 1) / 2 - inject_Z count / 2 + (1 # 2))%Q.

#[global] Instance exn_eq_dec : EqDecision exn.
Proof. solve_decision. Defined.

#[global] Instance result_eq_dec {A : Type} `{EqDecision A} :
  EqDecision (result A).
Proof. solve_decision. Defined.

(** The binary64 computation agrees with the exact quotient on every row
    width 1..50 and every count 0..50: the table that is evaluated. *)
Definition middle_table_ok : bool :=
  forallb
    (fun seats_per_row =>
       forallb
         (fun count =>
            bool_decide (get_middle_start_column seats_per_row count
                         = Ok (Z.max 1 ((seats_per_row - count + 2) / 2))))
         (seqZ 0 51))
    (seqZ 1 50).

(** The shape a seat position has: one letter of A-Z, then one digit or
    more, and nothing else. *)
Definition position_shape (s : list ascii) (row_letter : ascii)
    (digits : list ascii) : Prop :=
  s = row_letter :: digits
  /\ is_AZ row_letter = true
  /\ digits <> []
  /\ Forall (fun c => is_digit c = true) digits.

(** What the parser matches against: the input trimmed and upper-cased. *)
Definition normalized (position : string) : list ascii :=
  upper (strip (list_ascii_of_string position)).

(** A start position with a column of 4301 digits: [A] followed by 4301 times
    the digit 1. *)
Definition long_position : string :=
  String "A" (string_of_list_ascii (replicate 4301 "1"%char)).

(** The step of [get_default_seats] on one row with free seats: what a row
    the allocation overflows into is to give. *)
Definition default_row_step (movie : Movie.t) (available : list Seat.t)
    (remaining : Z) : result (list Seat.t) :=
  let to_take := Z.min remaining (len available) in
  start_col ← get_middle_start_column (Movie.seats_per_row movie) to_take;
  Ok (select_centered_seats available to_take start_col).

(** A venue of two rows of three seats, the back row A sold out and the row
    B free. *)
Definition small_movie : Movie.t :=
  {| Movie.id := 1; Movie.rows := 2; Movie.seats_per_row := 3 |}.

Definition back_row_sold_out : Session.t :=
  {| Session.movies := [small_movie];
     Session.seats :=
       [ Seat.mk 1 1 "A" 1 true; Seat.mk 2 1 "A" 2 true;
         Seat.mk 3 1 "A" 3 true; Seat.mk 4 1 "B" 1 false;
         Seat.mk 5 1 "B" 2 false; Seat.mk 6 1 "B" 3 false ];
     Session.bookings := [];
     Session.booking_seats := [] |}.

(** The numbers at the indices [i], [i+1], ... are [start], [start+1], ...,
    [count] of them. *)
Definition run_from (numbers : list Z) (i : nat) (start count : Z) : Prop :=
  forall j : nat,
    Z.of_nat j < count -> numbers !! (i + j)%nat = Some (start + Z.of_nat j).

(** The seats [start], [start+1], ..., [start+count-1] are all free: a
    contiguous run of [count] seats starting at [start]. *)
Definition free_run (numbers : list Z) (start count : Z) : Prop :=
  forall k, 0 <= k < count -> start + k ∈ numbers.

(** [start] is at least as close to [preferred_start] as [start'] is, and is
    the lower of the two when they are as close. *)
Definition closest_first (preferred_start start start' : Z) : Prop :=
  Z.abs (start - preferred_start) < Z.abs (start' - preferred_start)
  \/ (Z.abs (start - preferred_start) = Z.abs (start' - preferred_start)
      /\ start <= start').

(** What the scan of [select_centered_seats] holds after the start indices
    below [k]. *)
Definition best_after (numbers : list Z) (count preferred_start : Z) (k : nat)
    (best : nat * option Z) : Prop :=
  match snd best with
  | None =>
      fst best = 0%nat
      /\ forall i, (i < k)%nat -> consecutive_at numbers count i = false
  | Some best_distance =>
      (fst best < k)%nat
      /\ consecutive_at numbers count (fst best) = true
      /\ exists v,
          numbers !! fst best = Some v
          /\ best_distance = Z.abs (v - preferred_start)
          /\ forall i v',
              (i < k)%nat -> consecutive_at numbers count i = true ->
              numbers !! i = Some v' ->
              Z.abs (v - preferred_start) < Z.abs (v' - preferred_start)
              \/ (Z.abs (v - preferred_start) = Z.abs (v' - preferred_start)
                  /\ (fst best <= i)%nat)
  end.

(** A row whose free seats alternate with sold ones. *)
Definition alternating_row : list Seat.t :=
  [ Seat.mk 1 1 "A" 1 false; Seat.mk 3 1 "A" 3 false; Seat.mk 5 1 "A" 5 false;
    Seat.mk 7 1 "A" 7 false; Seat.mk 9 1 "A" 9 false ].

(** A row of five seats, all free. *)
Definition free_row : list Seat.t :=
  [ Seat.mk 1 1 "A" 1 false; Seat.mk 2 1 "A" 2 false; Seat.mk 3 1 "A" 3 false;
    Seat.mk 4 1 "A" 4 false; Seat.mk 5 1 "A" 5 false ].

(** The seats [extra] were taken from free seats of the rows [rows], each
    seat once. *)
Definition picked_from (db : Session.t) (movie_id : Z) (rows : list ascii)
    (extra : list Seat.t) : Prop :=
  (forall s, s ∈ extra ->
             Seat.row_letter s ∈ rows
             /\ s ∈ get_available_seats_in_row db movie_id (Seat.row_letter s))
  /\ (NoDup (Session.seats db) -> NoDup rows -> NoDup extra).

(** The configuration of a venue: at most 26 rows of at most 50 seats, as
    the setup form accepts them. *)
Definition valid_config (movie : Movie.t) : Prop :=
  1 <= Movie.rows movie <= 26 /\ 1 <= Movie.seats_per_row movie <= 50.

(** The number of seats of the movie that are not booked. *)
Definition total_available (db : Session.t) (movie_id : Z) : Z :=
  len (filter (fun s => Seat.movie_id s = movie_id /\ Seat.is_booked s = false)
         (Session.seats db)).

(** The place of a row letter in the alphabet, from 0 for A. *)
Definition row_index (row_letter : ascii) : Z :=
  Z.of_N (N_of_ascii row_letter) - 65.

(** The successful result with the seats [seats]. *)
Definition allocated (seats : list Seat.t) : allocation :=
  {| success := true; seats := seats; error := None |}.

(** Every character. *)
Definition all_ascii : list ascii := ascii_of_nat <$> seq 0 256.


(** The number of free seats in the rows [rows]. *)
Definition capacity (db : Session.t) (movie_id : Z) (rows : list ascii) : Z :=
  foldr (fun r acc => len (get_available_seats_in_row db movie_id r) + acc) 0
    rows.

(** The places of a venue: every row letter with every seat number. *)
Definition venue_slots (movie : Movie.t) : list (ascii * Z) :=
  r ← slice_to ascii_uppercase (Movie.rows movie);
  pair r <$> seqZ 1 (Movie.seats_per_row movie).

(** A venue with nothing booked: the movie is in the database with a valid
    configuration, seat ids are a primary key, the movie has one seat for
    each place and no other, and none of them is booked. *)
Definition fresh_venue (db : Session.t) (movie : Movie.t) : Prop :=
  valid_config movie
  /\ query_movie db (Movie.id movie) = Some movie
  /\ NoDup (Seat.id <$> Session.seats db)
  /\ Seat.seat_label
       <$> filter (fun s => Seat.movie_id s = Movie.id movie) (Session.seats db)
     ≡ₚ venue_slots movie
  /\ (forall s, s ∈ Session.seats db -> Seat.movie_id s = Movie.id movie ->
                Seat.is_booked s = false).

(** The venue of two rows of five seats, as [create_seats_for_movie] fills
    it. *)
Definition two_by_five : Movie.t :=
  {| Movie.id := 1; Movie.rows := 2; Movie.seats_per_row := 5 |}.

Definition two_by_five_db : Session.t :=
  create_seats_for_movie
    {| Session.movies := [two_by_five]; Session.seats := [];
       Session.bookings := []; Session.booking_seats := [] |}
    two_by_five.

(** The seat record of a slot: the first seat of the movie, in storage
    order, with that row letter and seat number. *)
Definition slot_seat (db : Session.t) (movie : Movie.t) (row_letter : ascii)
    (seat_num : Z) : option Seat.t :=
  head (filter (fun s => Seat.movie_id s = Movie.id movie
                         /\ Seat.row_letter s = row_letter
                         /\ Seat.seat_number s = seat_num)
          (Session.seats db)).

(** The seat is one of the seats of the booking with primary key
    [booking]. *)
Definition in_booking (db : Session.t) (booking : Z) (s : Seat.t) : Prop :=
  exists bs, bs ∈ Session.booking_seats db
             /\ BookingSeat.booking_id bs = booking
             /\ BookingSeat.seat_id bs = Seat.id s.

(** The seat is one of the seats of a booking other than [booking]. *)
Definition in_other_booking (db : Session.t) (booking : Z) (s : Seat.t)
  : Prop :=
  exists bs, bs ∈ Session.booking_seats db
             /\ BookingSeat.booking_id bs <> booking
             /\ BookingSeat.seat_id bs = Seat.id s.

(** A booking of the two middle seats of row B, viewed while another booking
    holds B1. *)
Definition viewed_booking : Booking.t :=
  {| Booking.id := 1; Booking.movie_id := 1; Booking.booking_id := "GIC0001" |}.

Definition booked_db : Session.t :=
  {| Session.movies := [small_movie];
     Session.seats :=
       [ Seat.mk 1 1 "A" 1 false; Seat.mk 2 1 "A" 2 false;
         Seat.mk 3 1 "A" 3 false; Seat.mk 4 1 "B" 1 true;
         Seat.mk 5 1 "B" 2 true; Seat.mk 6 1 "B" 3 true ];
     Session.bookings :=
       [ viewed_booking;
         {| Booking.id := 2; Booking.movie_id := 1;
            Booking.booking_id := "GIC0002" |} ];
     Session.booking_seats :=
       [ BookingSeat.mk 1 1 5; BookingSeat.mk 2 1 6; BookingSeat.mk 3 2 4 ] |}.

(** What the loops of [create_seats_for_movie] keep true of the table of
    seats: ids are a primary key, the places of the movie's seats are
    [slots], in storage order, and none of the movie's seats is booked. *)
Definition seats_created (movie : Movie.t) (table : list Seat.t)
    (slots : list (ascii * Z)) : Prop :=
  NoDup (Seat.id <$> table)
  /\ Seat.seat_label
       <$> filter (fun s => Seat.movie_id s = Movie.id movie) table
     = slots
  /\ (forall s, s ∈ table -> Seat.movie_id s = Movie.id movie ->
                Seat.is_booked s = false).

(** ** Vocabulary of the further properties *)

(** A venue as the database keeps it, whatever is booked: a valid
    configuration, seat ids a primary key, at most one seat of the movie for a
    row letter and seat number (the unique constraint of [seats]), and every
    seat of the movie in one of the venue's rows. *)
Definition well_formed_venue (db : Session.t) (movie : Movie.t) : Prop :=
  valid_config movie
  /\ query_movie db (Movie.id movie) = Some movie
  /\ NoDup (Seat.id <$> Session.seats db)
  /\ NoDup (Seat.seat_label
              <$> filter (fun s => Seat.movie_id s = Movie.id movie)
                    (Session.seats db))
  /\ (forall s, s ∈ Session.seats db -> Seat.movie_id s = Movie.id movie ->
                Seat.row_letter s ∈ slice_to ascii_uppercase (Movie.rows movie)).

(** ** seat_allocation.py: the seating map of the selection page *)

(** [sorted(l)] by a comparison: a stable sort, for SQL's [ORDER BY] on two
    columns. *)
Fixpoint insert_with {A : Type} (leb : A -> A -> bool) (x : A) (l : list A)
  : list A :=
  match l with
  | [] => [x]
  | y :: l' => if leb x y then x :: y :: l' else y :: insert_with leb x l'
  end.

Definition sort_with {A : Type} (leb : A -> A -> bool) (l : list A) : list A :=
  foldr (insert_with leb) [] l.

(** The order of [ORDER BY Seat.row_letter, Seat.seat_number]. *)
Definition seat_order_leb (a b : Seat.t) : bool :=
  (N_of_ascii (Seat.row_letter a) <? N_of_ascii (Seat.row_letter b))%N
  || (bool_decide (Seat.row_letter a = Seat.row_letter b)
      && (Seat.seat_number a <=? Seat.seat_number b)).

(** One seat of the seating map of the selection page. *)
Module SeatInfo.
Record t : Type := mk {
  id : Z;
  number : Z;
  label : ascii * Z;
  status : string
}.
End SeatInfo.

(** [if key not in d: d[key] = []] and [d[key].append(x)] on a dict, which
    keeps its keys in the order they were added. *)
Fixpoint dict_append {V : Type} (key : ascii) (x : V)
    (d : list (ascii * list V)) : list (ascii * list V) :=
  match d with
  | [] => [(key, [x])]
  | (k, l) :: d' =>
      if bool_decide (k = key) then (k, l ++ [x]) :: d'
      else (k, l) :: dict_append key x d'
  end.

(** The entry of one seat. *)
Definition seat_info (selected_ids : gset Z) (seat : Seat.t) : SeatInfo.t :=
  let status :=
    if bool_decide (Seat.id seat ∈ selected_ids) then "selected"%string
    else if Seat.is_booked seat then "booked"%string
    else "available"%string in
  {| SeatInfo.id := Seat.id seat;
     SeatInfo.number := Seat.seat_number seat;
     SeatInfo.label := Seat.seat_label seat;
     SeatInfo.status := status |}.

Definition get_seating_map (db : Session.t) (movie_id : Z)
    (selected_seat_ids : option (list Z)) : list (ascii * list SeatInfo.t) :=
  let selected_ids : gset Z := list_to_set (default [] selected_seat_ids) in
  let seats :=
    sort_with seat_order_leb
      (filter (fun s => Seat.movie_id s = movie_id) (Session.seats db)) in
  foldl
    (fun seating_map seat =>
       dict_append (Seat.row_letter seat) (seat_info selected_ids seat)
         seating_map)
    [] seats.

(** ** Vocabulary of the seating map *)

(** Row first, then seat number. *)
Definition seat_le (a b : Seat.t) : Prop :=
  row_index (Seat.row_letter a) < row_index (Seat.row_letter b)
  \/ (Seat.row_letter a = Seat.row_letter b
      /\ Seat.seat_number a <= Seat.seat_number b).

(** The same order on the entries of the map, read off their labels. *)
Definition info_le (a b : SeatInfo.t) : Prop :=
  row_index (SeatInfo.label a).1 < row_index (SeatInfo.label b).1
  \/ ((SeatInfo.label a).1 = (SeatInfo.label b).1
      /\ SeatInfo.number a <= SeatInfo.number b).

(** What the dict of [get_seating_map] keeps true while it is filled: keys in
    strictly increasing order, and under each key entries of that row only,
    at least one. *)
Definition grouped_by_row (d : list (ascii * list SeatInfo.t)) : Prop :=
  StronglySorted (fun a b => row_index a < row_index b) (d.*1)
  /\ forall k l, (k, l) ∈ d ->
                 l <> [] /\ forall e, e ∈ l -> (SeatInfo.label e).1 = k.

(** The same venue with its rows of [seats] stored in the opposite order. *)
Definition back_row_sold_out_reversed : Session.t :=
  {| Session.movies := Session.movies back_row_sold_out;
     Session.seats := reverse (Session.seats back_row_sold_out);
     Session.bookings := [];
     Session.booking_seats := [] |}.

(** ** main.py: the routes of a booking *)

(** *** Strings of the routes

    As in the parser, the characters of a string are handled as a list. An
    int has no bound; a conversion between [int] and [str] raises
    [ValueError] beyond [int_max_str_digits] digits. *)

(** The character of the digit [d], for [0 <= d <= 9]. *)
Definition digit_char (d : Z) : ascii := ascii_of_N (Z.to_N (48 + d)).

(** The decimal digits of [n] in front of [acc], for [0 <= n]: the last digit
    first. A number below [2 ^ fuel] has no more than [fuel] digits (lemma
    [digits_of_decimal]). *)
Fixpoint digits_of (fuel : nat) (n : Z) (acc : list ascii) : list ascii :=
  match fuel with
  | O => acc
  | S fuel' =>
      let acc' := digit_char (n mod 10) :: acc in
      if n <? 10 then acc' else digits_of fuel' (n / 10) acc'
  end.

(** The decimal digits of [n], for [0 <= n]. *)
Definition decimal (n : Z) : list ascii :=
  digits_of (S (Z.to_nat (Z.log2 n))) n [].

(** The text of [str(n)]: the sign and the digits. *)
Definition signed_decimal (n : Z) : list ascii :=
  if n <? 0 then "-"%char :: decimal (- n) else decimal n.

(** [str(n)]: [ValueError] when [n] has more digits than the interpreter
    converts. *)
Definition str_of_int (n : Z) : result (list ascii) :=
  if len (decimal (Z.abs n)) >? int_max_str_digits then Raise ValueError
  else Ok (signed_decimal n).

(** The text of [f"{n:04d}"]: at least four characters, the sign first,
    zeros between the sign and the digits. *)
Definition zero_padded (n : Z) : list ascii :=
  let sign := if n <? 0 then ["-"%char] else [] in
  let digits := decimal (Z.abs n) in
  sign ++ replicate (4 - length sign - length digits) "0"%char ++ digits.

(** [f"{n:04d}"]: [ValueError] as for [str(n)]. *)
Definition format_04d (n : Z) : result (list ascii) :=
  if len (decimal (Z.abs n)) >? int_max_str_digits then Raise ValueError
  else Ok (zero_padded n).

(** [s.startswith(prefix)] *)
Fixpoint starts_with (prefix s : list ascii) : bool :=
  match prefix, s with
  | [], _ => true
  | p :: prefix', c :: s' => bool_decide (p = c) && starts_with prefix' s'
  | _ :: _, [] => false
  end.

(** The scan of [s.replace(old, new)] for an [old] that is not empty: from
    left to right, an occurrence of [old] is replaced and the scan goes on
    behind it. [skip] counts the characters of the occurrence found that are
    still to be passed. *)
Fixpoint replace_from (old new : list ascii) (skip : nat) (s : list ascii)
  : list ascii :=
  match s with
  | [] => []
  | c :: s' =>
      match skip with
      | S skip' => replace_from old new skip' s'
      | O =>
          if starts_with old s then
            new ++ replace_from old new (length old - 1) s'
          else c :: replace_from old new 0 s'
      end
  end.

(** [s.replace(old, new)]; an empty [old] is found before every character and
    at the end. *)
Definition str_replace (old new s : list ascii) : list ascii :=
  match old with
  | [] => new ++ concat ((fun c => c :: new) <$> s)
  | _ :: _ => replace_from old new 0 s
  end.

(** The white space [int()] skips around a number: [\t\n\v\f\r], the space,
    U+0085 and U+00A0. The separators U+001C..U+001F, which [str.strip]
    removes, are not among it. *)
Definition int_space (c : ascii) : bool :=
  let n := N_of_ascii c in
  ((9 <=? n) && (n <=? 13) || (n =? 32) || (n =? 133) || (n =? 160))%N.

(** The digits of an int literal behind a digit: digits, each of which may
    have one underscore in front of it. The digits read, without the
    underscores, and what follows them; [None] for an underscore with no
    digit behind it. *)
Fixpoint int_digits (s : list ascii) : option (list ascii * list ascii) :=
  match s with
  | c :: s' =>
      if is_digit c then
        match int_digits s' with
        | Some (ds, rest) => Some (c :: ds, rest)
        | None => None
        end
      else if bool_decide (c = "_"%char) then
        match s' with
        | d :: s'' =>
            if is_digit d then
              match int_digits s'' with
              | Some (ds, rest) => Some (d :: ds, rest)
              | None => None
              end
            else None
        | [] => None
        end
      else Some ([], s)
  | [] => Some ([], [])
  end.

Fixpoint skip_int_space (s : list ascii) : list ascii :=
  match s with
  | c :: s' => if int_space c then skip_int_space s' else s
  | [] => []
  end.

(** [int(s)]: white space, a sign, the digits, white space; the digits are
    converted as by [int_of_digits], with its limit. *)
Definition int_of_str (s : list ascii) : result Z :=
  let s := skip_int_space s in
  let '(negative, s) :=
    match s with
    | c :: s' =>
        if bool_decide (c = "-"%char) then (true, s')
        else if bool_decide (c = "+"%char) then (false, s')
        else (false, s)
    | [] => (false, s)
    end in
  match s with
  | c :: s' =>
      if is_digit c then
        match int_digits s' with
        | Some (ds, rest) =>
            match skip_int_space rest with
            | [] =>
                n ← int_of_digits (c :: ds);
                Ok (if negative then - n else n)
            | _ :: _ => Raise ValueError
            end
        | None => Raise ValueError
        end
      else Raise ValueError
  | [] => Raise ValueError
  end.

(** [s.split(sep)] for a separator of one character *)
Fixpoint str_split (sep : ascii) (s : list ascii) : list (list ascii) :=
  match s with
  | [] => [[]]
  | c :: s' =>
      if bool_decide (c = sep) then [] :: str_split sep s'
      else
        match str_split sep s' with
        | piece :: pieces => (c :: piece) :: pieces
        | [] => [[c]]
        end
  end.

(** [sep.join(l)] *)
Fixpoint str_join (sep : list ascii) (l : list (list ascii)) : list ascii :=
  match l with
  | [] => []
  | x :: l' =>
      match l' with
      | [] => x
      | _ :: _ => x ++ sep ++ str_join sep l'
      end
  end.

(** *** The routes *)

Definition generate_booking_id (db : Session.t) : result string :=
  let last_booking :=
    head (sort_by (fun b => - Booking.id b) (Session.bookings db)) in
  new_num ←
    match last_booking with
    | Some last_booking =>
        last_num ←
          int_of_str
            (str_replace (list_ascii_of_string "GIC") []
               (list_ascii_of_string (Booking.booking_id last_booking)));
        Ok (last_num + 1)
    | None => Ok 1
    end;
  digits ← format_04d new_num;
  Ok (string_of_list_ascii (list_ascii_of_string "GIC" ++ digits)).

(** The context of the template [book_step2.html], without the request. *)
Module Step2.
Record t : Type := mk {
  movie : Movie.t;
  num_tickets : Z;
  selected_seats : list Seat.t;
  selected_seat_ids : list Z;
  seat_ids : string;
  seating_map : list (ascii * list SeatInfo.t);
  booking_id : string;
  available_count : Z;
  error : option error_message
}.
End Step2.

(** The responses of the routes of a booking; every redirect has the status
    303. *)
Inductive response : Type :=
| RedirectResponse (url : string)
| TemplateResponse (context : Step2.t).

(** [[int(x) for x in pieces if x.strip()]], the comprehension of
    [confirm_booking] that reads the field [seat_ids]. *)
Fixpoint ints_of (pieces : list (list ascii)) : result (list Z) :=
  match pieces with
  | [] => Ok []
  | x :: pieces' =>
      if bool_decide (strip x = []) then ints_of pieces'
      else
        n ← int_of_str x;
        l ← ints_of pieces';
        Ok (n :: l)
  end.

(** [[str(sid) for sid in selected_seat_ids]] *)
Fixpoint strs_of (selected_seat_ids : list Z) : result (list (list ascii)) :=
  match selected_seat_ids with
  | [] => Ok []
  | sid :: selected_seat_ids' =>
      x ← str_of_int sid;
      l ← strs_of selected_seat_ids';
      Ok (x :: l)
  end.

(** [",".join(str(sid) for sid in selected_seat_ids)] *)
Definition joined_ids (selected_seat_ids : list Z) : result string :=
  strs ← strs_of selected_seat_ids;
  Ok (string_of_list_ascii (str_join [","%char] strs)).

Section routes.

(** [get_active_movie] reads the column [is_active], which the record of a
    movie leaves out; the routes take the query as it is. *)
Variable get_active_movie : Session.t -> option Movie.t.

Definition allocate_tickets (num_tickets : Z) (db : Session.t)
  : result response :=
  match get_active_movie db with
  | None => Ok (RedirectResponse "/")
  | Some movie =>
      if num_tickets <? 1 then
        Ok (RedirectResponse "/book?error=invalid_count")
      else
        let available_count :=
          len (filter (fun s => Seat.movie_id s = Movie.id movie
                                /\ Seat.is_booked s = false)
                 (Session.seats db)) in
        if num_tickets >? available_count then
          requested ← str_of_int num_tickets;
          available ← str_of_int available_count;
          Ok (RedirectResponse
                ("/book?error=not_enough&requested="
                 +:+ string_of_list_ascii requested
                 +:+ "&available="
                 +:+ string_of_list_ascii available))
        else
          result ← allocate_seats db (Movie.id movie) num_tickets None;
          if negb (success result) then
            Ok (RedirectResponse "/book?error=allocation_failed")
          else
            let selected_seat_ids := Seat.id <$> seats result in
            if bool_decide (selected_seat_ids = []) then
              Ok (RedirectResponse "/book?error=no_seats_allocated")
            else
              let seating_map :=
                get_seating_map db (Movie.id movie) (Some selected_seat_ids) in
              temp_booking_id ← generate_booking_id db;
              seat_ids ← joined_ids selected_seat_ids;
              Ok (TemplateResponse
                    {| Step2.movie := movie;
                       Step2.num_tickets := num_tickets;
                       Step2.selected_seats := seats result;
                       Step2.selected_seat_ids := selected_seat_ids;
                       Step2.seat_ids := seat_ids;
                       Step2.seating_map := seating_map;
                       Step2.booking_id := temp_booking_id;
                       Step2.available_count := available_count - num_tickets;
                       Step2.error := None |})
  end.

Definition change_seat_position (num_tickets : Z) (start_position : string)
    (db : Session.t) : result response :=
  match get_active_movie db with
  | None => Ok (RedirectResponse "/")
  | Some movie =>
      result ← allocate_seats db (Movie.id movie) num_tickets
                 (Some start_position);
      if negb (success result) then
        default_result ← allocate_seats db (Movie.id movie) num_tickets None;
        let selected_seat_ids :=
          if success default_result then Seat.id <$> seats default_result
          else [] in
        let seating_map :=
          get_seating_map db (Movie.id movie) (Some selected_seat_ids) in
        let available_count :=
          len (filter (fun s => Seat.movie_id s = Movie.id movie
                                /\ Seat.is_booked s = false)
                 (Session.seats db)) in
        seat_ids ← joined_ids selected_seat_ids;
        booking_id ← generate_booking_id db;
        Ok (TemplateResponse
              {| Step2.movie := movie;
                 Step2.num_tickets := num_tickets;
                 Step2.selected_seats := seats default_result;
                 Step2.selected_seat_ids := selected_seat_ids;
                 Step2.seat_ids := seat_ids;
                 Step2.seating_map := seating_map;
                 Step2.booking_id := booking_id;
                 Step2.available_count := available_count - num_tickets;
                 Step2.error := error result |})
      else
        let selected_seat_ids := Seat.id <$> seats result in
        let seating_map :=
          get_seating_map db (Movie.id movie) (Some selected_seat_ids) in
        let available_count :=
          len (filter (fun s => Seat.movie_id s = Movie.id movie
                                /\ Seat.is_booked s = false)
                 (Session.seats db)) in
        seat_ids ← joined_ids selected_seat_ids;
        booking_id ← generate_booking_id db;
        Ok (TemplateResponse
              {| Step2.movie := movie;
                 Step2.num_tickets := num_tickets;
                 Step2.selected_seats := seats result;
                 Step2.selected_seat_ids := selected_seat_ids;
                 Step2.seat_ids := seat_ids;
                 Step2.seating_map := seating_map;
                 Step2.booking_id := booking_id;
                 Step2.available_count := available_count - num_tickets;
                 Step2.error := None |})
  end.

End routes.


(** ** Vocabulary of the routes *)

(** The value of a digit. *)
Definition digit_value (c : ascii) : Z := Z.of_N (N_of_ascii c) - 48.

(** The value of the digits [ds] read behind the value [a]. *)
Definition digits_value (a : Z) (ds : list ascii) : Z :=
  foldl (fun acc c => 10 * acc + digit_value c) a ds.

(** The booking id of the number [n]: [GIC0001] for 1. *)
Definition booking_label (n : Z) : string :=
  string_of_list_ascii (list_ascii_of_string "GIC" ++ zero_padded n).

(** An int that [str] and [int] convert: it has no more than 4300 digits. *)
Definition convertible (n : Z) : Prop := Z.abs n < 10 ^ 4300.

(** The number of every booking, and the number that follows it, are
    convertible. *)
Definition numbers_in_range (db : Session.t) : Prop :=
  forall b n, b ∈ Session.bookings db ->
              Booking.booking_id b = booking_label n ->
              convertible n /\ convertible (n + 1).

(** The booking ids count upward with the primary keys: every booking has
    the id of a number, and a booking stored later that of a larger one. *)
Definition bookings_in_sequence (db : Session.t) : Prop :=
  NoDup (Booking.id <$> Session.bookings db)
  /\ (forall b, b ∈ Session.bookings db ->
                exists n, Booking.booking_id b = booking_label n)
  /\ (forall b1 b2 n1 n2,
         b1 ∈ Session.bookings db -> b2 ∈ Session.bookings db ->
         Booking.booking_id b1 = booking_label n1 ->
         Booking.booking_id b2 = booking_label n2 ->
         Booking.id b1 < Booking.id b2 -> n1 < n2).

(** In the examples the active movie is the movie stored first. *)
Definition first_movie (db : Session.t) : option Movie.t :=
  head (Session.movies db).

(** The int that a text of digits with or without a sign stands for. *)
Definition signed_value (s : list ascii) : Z :=
  match s with
  | c :: ds =>
      if bool_decide (c = "-"%char) then - digits_value 0 ds
      else digits_value 0 s
  | [] => 0
  end.

(** * Properties *)

(** ** The stable sort *)

Section sort_by.
Context {A : Type} (key : A -> Z).

Lemma insert_by_Permutation x l : insert_by key x l ≡ₚ x :: l.
Proof.
  induction l as [|y l IH]; simpl; [done|].
  destruct (key x <=? key y); [done|].
  rewrite IH. apply Permutation_swap.
Qed.

Lemma sort_by_Permutation l : sort_by key l ≡ₚ l.
Proof.
  induction l as [|x l IH]; simpl; [done|].
  rewrite insert_by_Permutation. by f_equiv.
Qed.

Lemma insert_by_sorted x l : sorted_by key l -> sorted_by key (insert_by key x l).
Proof.
  unfold sorted_by. induction 1 as [|y l Hl IH Hy]; simpl.
  - repeat constructor.
  - destruct (key x <=? key y) eqn:E.
    + apply Z.leb_le in E. constructor; [by constructor|].
      constructor; [done|].
      eapply Forall_impl; [exact Hy|]. simpl. intros; lia.
    + apply Z.leb_gt in E. constructor; [done|].
      rewrite insert_by_Permutation. constructor; [lia|done].
Qed.

Lemma sort_by_sorted l : sorted_by key (sort_by key l).
Proof.
  induction l as [|x l IH]; simpl; [constructor|].
  by apply insert_by_sorted.
Qed.

(** Sorting a list that is in order leaves it as it is. *)
Lemma sort_by_id l : sorted_by key l -> sort_by key l = l.
Proof.
  unfold sorted_by. induction 1 as [|x l Hl IH Hx]; simpl; [done|].
  rewrite IH. destruct l as [|y l']; simpl; [done|].
  apply Forall_cons in Hx as [Hxy _].
  by apply Z.leb_le in Hxy as ->.
Qed.

Lemma length_sort_by l : length (sort_by key l) = length l.
Proof. by rewrite sort_by_Permutation. Qed.

Lemma elem_of_sort_by x l : x ∈ sort_by key l <-> x ∈ l.
Proof. by rewrite sort_by_Permutation. Qed.

Lemma NoDup_sort_by l : NoDup l -> NoDup (sort_by key l).
Proof. by rewrite sort_by_Permutation. Qed.

End sort_by.

Lemma StronglySorted_weaken {A : Type} (R S : relation A) (l : list A) :
  (forall x y, R x y -> S x y) -> StronglySorted R l -> StronglySorted S l.
Proof.
  intros HRS. induction 1 as [|x l Hl IH Hx]; constructor; [done|].
  eapply Forall_impl; [exact Hx|]. auto.
Qed.

Lemma StronglySorted_lt_NoDup (l : list Z) : StronglySorted Z.lt l -> NoDup l.
Proof.
  induction 1 as [|x l Hl IH Hx]; constructor; [|done].
  intros Hin. rewrite Forall_forall in Hx. specialize (Hx _ Hin). lia.
Qed.

(** Two lists in strictly increasing order with the same elements are the
    same list. *)
Lemma strictly_sorted_unique (l1 l2 : list Z) :
  StronglySorted Z.lt l1 -> StronglySorted Z.lt l2 ->
  (forall x, x ∈ l1 <-> x ∈ l2) -> l1 = l2.
Proof.
  intros H1 H2 Hiff. apply (StronglySorted_unique Z.le).
  - eapply StronglySorted_weaken; [|exact H1]. intros; lia.
  - eapply StronglySorted_weaken; [|exact H2]. intros; lia.
  - apply NoDup_Permutation; [| |done]; by apply StronglySorted_lt_NoDup.
Qed.

(** ** The centering column *)

Lemma exact_start_div seats_per_row count :
  exact_start seats_per_row count = (seats_per_row - count + 2) / 2.
Proof.
  unfold exact_start.
  assert (Heq : (inject_Z (seats_per_row + 1) / 2 - inject_Z count / 2 + (1 # 2)
                 == ((seats_per_row - count + 2) # 2))%Q).
  { unfold Qeq, Qdiv, Qminus, Qplus, Qmult, Qopp, Qinv, inject_Z. cbn. lia. }
  rewrite (Qfloor_comp _ _ Heq). reflexivity.
Qed.

Lemma middle_table : middle_table_ok = true.
Proof. vm_compute. reflexivity. Qed.

(** On a venue's row widths the floats of [get_middle_start_column] are exact,
    and it never raises. *)
Lemma get_middle_start_column_exact seats_per_row count :
  1 <= seats_per_row <= 50 -> 0 <= count ->
  get_middle_start_column seats_per_row count
  = Ok (Z.max 1 ((seats_per_row - count + 2) / 2)).
Proof.
  intros Hs Hc. destruct (decide (count >= seats_per_row)) as [Hge|Hlt].
  - unfold get_middle_start_column.
    destruct (Z.geb_spec count seats_per_row) as [_|?]; [|lia].
    assert ((seats_per_row - count + 2) / 2 <= 1)
      by (apply Z.div_le_upper_bound; lia).
    f_equal. lia.
  - pose proof middle_table as Ht. unfold middle_table_ok in Ht.
    rewrite forallb_forall in Ht.
    assert (Hin1 : In seats_per_row (seqZ 1 50))
      by (apply list_elem_of_In, elem_of_seqZ; lia).
    specialize (Ht _ Hin1). rewrite forallb_forall in Ht.
    assert (Hin2 : In count (seqZ 0 51))
      by (apply list_elem_of_In, elem_of_seqZ; lia).
    specialize (Ht _ Hin2). by apply bool_decide_eq_true in Ht.
Qed.

(** C4: on every row width of a venue (1..50) and every count, the preferred
    start column is [max(1, floor((seats_per_row + 1)/2 - count/2 + 0.5))]
    taken in exact arithmetic; a row of 10 gives column 5 for 2 seats, 4 for
    3 seats and 4 for 4 seats. *)
Theorem middle_start_column_is_centered :
  (forall seats_per_row count,
      1 <= seats_per_row <= 50 -> 0 <= count ->
      get_middle_start_column seats_per_row count
      = Ok (Z.max 1 (exact_start seats_per_row count)))
  /\ get_middle_start_column 10 2 = Ok 5
  /\ get_middle_start_column 10 3 = Ok 4
  /\ get_middle_start_column 10 4 = Ok 4.
Proof.
  split; [|by vm_compute].
  intros seats_per_row count Hs Hc.
  rewrite exact_start_div. by apply get_middle_start_column_exact.
Qed.

Lemma middle_start_column_is_centered_witness :
  1 <= 10 <= 50 /\ 0 <= 3
  /\ get_middle_start_column 10 3 = Ok (Z.max 1 (exact_start 10 3)).
Proof.
  split; [lia|]. split; [lia|].
  apply (proj1 middle_start_column_is_centered 10 3); lia.
Defined.

(** ** The position parser *)

Lemma span_digits_spec s ds rest :
  span_digits s = (ds, rest) ->
  s = ds ++ rest
  /\ Forall (fun c => is_digit c = true) ds
  /\ match rest with c :: _ => is_digit c = false | [] => True end.
Proof.
  revert ds rest. induction s as [|c s IH]; intros ds rest; simpl.
  - intros [= <- <-]. by repeat split.
  - destruct (is_digit c) eqn:Hc.
    + destruct (span_digits s) as [ds' rest'] eqn:Hs.
      intros [= <- <-]. destruct (IH _ _ eq_refl) as (-> & Hds & Hrest).
      repeat split; [by constructor|done].
    + intros [= <- <-]. by repeat split.
Qed.

Lemma span_digits_all ds :
  Forall (fun c => is_digit c = true) ds -> span_digits ds = (ds, []).
Proof.
  induction 1 as [|c ds Hc _ IH]; simpl; [done|]. by rewrite Hc, IH.
Qed.

Lemma lstrip_head s c : head (lstrip s) = Some c -> isspace c = false.
Proof.
  induction s as [|a s IH]; simpl; [done|].
  destruct (isspace a) eqn:Ha; [done|]. simpl. by intros [= <-].
Qed.

Lemma strip_last s c : last (strip s) = Some c -> isspace c = false.
Proof. unfold strip. rewrite last_reverse. apply lstrip_head. Qed.

Lemma upper_last s : last (upper s) = upper_char <$> last s.
Proof.
  induction s as [|a [|b s] IH]; [done..|].
  change (upper (a :: b :: s)) with (upper_char a :: upper (b :: s)).
  change (upper (b :: s)) with (upper_char b :: upper s) in *.
  exact IH.
Qed.

(** Upper-casing does not produce a newline out of another character. *)
Lemma upper_char_newline c :
  N_of_ascii (upper_char c) = 10%N -> isspace c = true.
Proof.
  destruct c as [[] [] [] [] [] [] [] []]; vm_compute; congruence.
Qed.

(** After trimming, the [$] of the pattern is the end of the string. *)
Lemma normalized_no_final_newline position pre c :
  normalized position = pre ++ [c] -> N_of_ascii c <> 10%N.
Proof.
  unfold normalized. intros Heq Hc.
  assert (Hl : last (upper (strip (list_ascii_of_string position))) = Some c)
    by (rewrite Heq; apply last_snoc).
  rewrite upper_last in Hl.
  destruct (last (strip (list_ascii_of_string position))) as [c'|] eqn:Hl';
    [|done].
  simpl in Hl. injection Hl as <-.
  apply strip_last in Hl'. apply upper_char_newline in Hc. congruence.
Qed.

Lemma match_position_shape position row_letter digits :
  match_position (normalized position) = Some (row_letter, digits)
  <-> position_shape (normalized position) row_letter digits.
Proof.
  unfold position_shape, match_position. split.
  - destruct (normalized position) as [|c s] eqn:Hn; [done|].
    destruct (is_AZ c) eqn:Hc; [|done].
    destruct (span_digits s) as [[|d ds] rest] eqn:Hs; [done|].
    destruct (span_digits_spec _ _ _ Hs) as (-> & Hds & _).
    destruct rest as [|r [|? ?]]; simpl; [|..|done].
    + intros [= <- <-]. by rewrite app_nil_r.
    + destruct (N.eqb_spec (N_of_ascii r) 10) as [Hr|]; [|done].
      exfalso. revert Hr.
      apply (normalized_no_final_newline position (c :: d :: ds)).
      by rewrite Hn.
  - intros (-> & HAZ & Hne & Hds). rewrite HAZ, (span_digits_all _ Hds).
    by destruct digits.
Qed.

Lemma normalized_empty : normalized EmptyString = [].
Proof. reflexivity. Qed.

Lemma int_of_digits_Ok ds n :
  int_of_digits ds = Ok n
  <-> ds <> [] /\ len ds <= int_max_str_digits /\ n = decimal_value ds.
Proof.
  unfold int_of_digits. case_bool_decide as Hnil; simpl.
  { split; [done|]. by intros [? _]. }
  destruct (Z.gtb_spec (len ds) int_max_str_digits) as [Hlong|Hshort].
  - split; [done|]. intros (_ & ? & _). lia.
  - split; [by intros [= <-]|]. by intros (_ & _ & ->).
Qed.

Lemma int_of_digits_Raise ds e :
  int_of_digits ds = Raise e
  <-> e = ValueError /\ (ds = [] \/ int_max_str_digits < len ds).
Proof.
  unfold int_of_digits. case_bool_decide as Hnil; simpl.
  { split; [intros [= <-]; auto|by intros [-> _]]. }
  destruct (Z.gtb_spec (len ds) int_max_str_digits) as [Hlong|Hshort].
  - split; [intros [= <-]; auto|by intros [-> _]].
  - split; [done|]. intros [_ [?|?]]; [done|lia].
Qed.

(** The parser in terms of the match of the pattern. *)
Lemma parse_seat_position_match position :
  parse_seat_position position
  = match match_position (normalized position) with
    | Some (row_letter, digits) =>
        col_number ← int_of_digits digits;
        Ok (Some (row_letter, col_number))
    | None => Ok None
    end.
Proof.
  unfold parse_seat_position. case_bool_decide as He; [by subst|done].
Qed.

(** The parser returns a row and a column for a letter of A-Z followed by
    one digit or more, up to the number of digits [int()] converts. *)
Lemma parse_seat_position_Some position row_letter column :
  parse_seat_position position = Ok (Some (row_letter, column))
  <-> exists digits,
      position_shape (normalized position) row_letter digits
      /\ len digits <= int_max_str_digits
      /\ column = decimal_value digits.
Proof.
  rewrite parse_seat_position_match. split.
  - destruct (match_position (normalized position)) as [[r ds]|] eqn:Hm;
      [|done].
    destruct (int_of_digits ds) as [n|e] eqn:Hn; [|done]. simpl.
    intros [= <- <-]. exists ds.
    apply int_of_digits_Ok in Hn as (_ & Hlen & ->).
    split; [by apply match_position_shape|done].
  - intros (digits & Hshape & Hlen & ->).
    pose proof Hshape as (_ & _ & Hne & _).
    apply match_position_shape in Hshape. rewrite Hshape.
    by rewrite (proj2 (int_of_digits_Ok digits (decimal_value digits))).
Qed.

(** The parser raises for a letter of A-Z followed by more digits than
    [int()] converts, and for nothing else; what it raises is the
    [ValueError] of [int()]. *)
Lemma parse_seat_position_Raise position e :
  parse_seat_position position = Raise e
  <-> e = ValueError
      /\ exists row_letter digits,
          position_shape (normalized position) row_letter digits
          /\ int_max_str_digits < len digits.
Proof.
  rewrite parse_seat_position_match. split.
  - destruct (match_position (normalized position)) as [[r ds]|] eqn:Hm;
      [|done].
    apply match_position_shape in Hm as Hshape.
    pose proof Hshape as (_ & _ & Hne & _).
    destruct (int_of_digits ds) as [n|e'] eqn:Hn; [done|]. simpl.
    intros [= <-]. apply int_of_digits_Raise in Hn as [-> [?|Hlong]]; [done|].
    split; [done|]. by exists r, ds.
  - intros (-> & row_letter & digits & Hshape & Hlong).
    apply match_position_shape in Hshape. rewrite Hshape.
    by rewrite (proj2 (int_of_digits_Raise digits ValueError)) by auto.
Qed.

Lemma parse_seat_position_None position :
  parse_seat_position position = Ok None
  <-> ~ exists row_letter digits,
        position_shape (normalized position) row_letter digits.
Proof.
  rewrite parse_seat_position_match. split.
  - destruct (match_position (normalized position)) as [[r ds]|] eqn:Hm.
    { by destruct (int_of_digits ds). }
    intros _ (row_letter & digits & Hshape).
    apply match_position_shape in Hshape. congruence.
  - intros Hno.
    destruct (match_position (normalized position)) as [[r ds]|] eqn:Hm;
      [|done].
    exfalso. apply Hno. exists r, ds. by apply match_position_shape.
Qed.

(** X12: on an input of characters U+0000..U+00FF the parser returns
    [(row_letter, column)] exactly when the trimmed and upper-cased input is
    one letter of A-Z followed by one to 4300 digits, the column being the
    value of the digits; it raises [ValueError] exactly when the letter is
    followed by more than 4300 digits, and returns [None] exactly when the
    input is of another shape; [a1] gives (A,1) and [H10] gives (H,10), while
    [1A], [AA1], the empty string and [A] give [None]. *)
Theorem parse_seat_position_shape :
  (forall position row_letter column,
      parse_seat_position position = Ok (Some (row_letter, column))
      <-> exists digits,
          position_shape (normalized position) row_letter digits
          /\ len digits <= 4300
          /\ column = decimal_value digits)
  /\ (forall position e,
         parse_seat_position position = Raise e
         <-> e = ValueError
             /\ exists row_letter digits,
                 position_shape (normalized position) row_letter digits
                 /\ 4300 < len digits)
  /\ (forall position,
         parse_seat_position position = Ok None
         <-> ~ exists row_letter digits,
               position_shape (normalized position) row_letter digits)
  /\ parse_seat_position "a1" = Ok (Some ("A"%char, 1))
  /\ parse_seat_position "H10" = Ok (Some ("H"%char, 10))
  /\ parse_seat_position "1A" = Ok None
  /\ parse_seat_position "AA1" = Ok None
  /\ parse_seat_position EmptyString = Ok None
  /\ parse_seat_position "A" = Ok None.
Proof.
  split; [exact parse_seat_position_Some|].
  split; [exact parse_seat_position_Raise|].
  split; [exact parse_seat_position_None|].
  by vm_compute.
Qed.

(** A string that neither starts nor ends with white space is left as it is
    by [strip]. *)
Lemma lstrip_unchanged s :
  (forall c, head s = Some c -> isspace c = false) -> lstrip s = s.
Proof.
  destruct s as [|c s]; [done|]. intros Hc. simpl. by rewrite (Hc c).
Qed.

Lemma strip_unchanged s :
  (forall c, head s = Some c -> isspace c = false) ->
  (forall c, last s = Some c -> isspace c = false) ->
  strip s = s.
Proof.
  intros Hhead Hlast. unfold strip.
  rewrite (lstrip_unchanged s Hhead), lstrip_unchanged, reverse_involutive;
    [done|].
  intros c. rewrite head_reverse. apply Hlast.
Qed.

Lemma last_ones n : last ("A"%char :: replicate (S n) "1"%char) = Some "1"%char.
Proof. induction n as [|n IH]; [done|]. exact IH. Qed.

Lemma upper_ones n : upper (replicate n "1"%char) = replicate n "1"%char.
Proof. induction n as [|n IH]; [done|]. simpl. by rewrite <- IH at 2. Qed.

(** The letter A followed by ones is of the shape of a position, however
    many the ones are. *)
Lemma position_shape_ones n :
  position_shape
    (normalized (String "A" (string_of_list_ascii (replicate (S n) "1"%char))))
    "A"%char (replicate (S n) "1"%char).
Proof.
  assert (Hn : normalized
                 (String "A" (string_of_list_ascii (replicate (S n) "1"%char)))
               = "A"%char :: replicate (S n) "1"%char).
  { unfold normalized.
    change (list_ascii_of_string (String "A" ?s))
      with ("A"%char :: list_ascii_of_string s).
    rewrite list_ascii_of_string_of_list_ascii, strip_unchanged.
    - change (upper ("A"%char :: ?l)) with ("A"%char :: upper l).
      by rewrite upper_ones.
    - by intros c [= <-].
    - intros c. rewrite last_ones. by intros [= <-]. }
  rewrite Hn. split; [done|]. split; [done|]. split; [done|].
  by apply Forall_replicate.
Qed.

(** C6: the parser fails to return on a position of the shape it accepts.
    The position [A] followed by 4301 times the digit 1 is, trimmed and
    upper-cased, one letter of A-Z followed by digits only; the parser neither
    returns a row and a column for it nor [None]: the [ValueError] of [int()]
    leaves it, and leaves [allocate_seats], which calls it on the start
    position of a request. With one digit fewer the parser returns the row
    and the column. *)
Theorem long_column_raises :
  position_shape (normalized long_position) "A"%char
    (replicate 4301 "1"%char)
  /\ parse_seat_position long_position = Raise ValueError
  /\ allocate_seats back_row_sold_out 1 1 (Some long_position)
     = Raise ValueError
  /\ parse_seat_position
       (String "A" (string_of_list_ascii (replicate 4300 "1"%char)))
     = Ok (Some ("A"%char, decimal_value (replicate 4300 "1"%char))).
Proof.
  assert (Hshape : position_shape (normalized long_position) "A"%char
                     (replicate 4301 "1"%char))
    by exact (position_shape_ones 4300).
  assert (Hparse : parse_seat_position long_position = Raise ValueError).
  { apply parse_seat_position_Raise. split; [done|].
    exists "A"%char, (replicate 4301 "1"%char). split; [done|].
    unfold len. by rewrite length_replicate. }
  split; [done|]. split; [done|]. split.
  - unfold allocate_seats.
    change (query_movie back_row_sold_out 1) with (Some small_movie).
    assert (Hfree : (len (filter (fun s => Seat.movie_id s = 1
                                           /\ Seat.is_booked s = false)
                            (Session.seats back_row_sold_out)) <? 1) = false)
      by (vm_compute; reflexivity).
    rewrite Hfree.
    change (truthy (Some long_position)) with (Some long_position).
    cbv beta iota. by rewrite Hparse.
  - apply parse_seat_position_Some. exists (replicate 4300 "1"%char).
    split; [exact (position_shape_ones 4299)|]. split; [|done].
    unfold len. by rewrite length_replicate.
Qed.

(** ** Requests for no ticket *)

Lemma default_loop_nonpositive db movie_id movie row_letters remaining selected :
  remaining <= 0 ->
  default_loop db movie_id movie row_letters remaining selected = Ok selected.
Proof.
  intros Hr. destruct row_letters as [|r rs]; simpl; [done|].
  by destruct (Z.leb_spec remaining 0); [|lia].
Qed.

Lemma len_nonneg {A : Type} (l : list A) : 0 <= len l.
Proof. unfold len. lia. Qed.

(** C10: on an existing venue, a request for zero tickets or fewer with no
    start position succeeds with no seat and no error, however many seats are
    free. *)
Theorem allocate_nonpositive_succeeds db movie_id num_tickets movie :
  query_movie db movie_id = Some movie ->
  num_tickets <= 0 ->
  allocate_seats db movie_id num_tickets None
  = Ok {| success := true; seats := []; error := None |}.
Proof.
  intros Hq Hn. unfold allocate_seats. rewrite Hq.
  match goal with |- context [len ?l <? _] => pose proof (len_nonneg l) end.
  destruct (Z.ltb_spec
              (len (filter (fun s => Seat.movie_id s = movie_id
                                     /\ Seat.is_booked s = false)
                      (Session.seats db))) num_tickets); [lia|].
  simpl. unfold get_default_seats. rewrite Hq.
  rewrite default_loop_nonpositive by done. simpl.
  unfold check_allocated. simpl.
  by destruct (Z.ltb_spec (len (@nil Seat.t)) num_tickets);
    [unfold len in *; simpl in *; lia|].
Qed.

Lemma allocate_nonpositive_succeeds_witness :
  allocate_seats back_row_sold_out 1 (-2) None
  = Ok {| success := true; seats := []; error := None |}.
Proof.
  apply (allocate_nonpositive_succeeds back_row_sold_out 1 (-2) small_movie);
    [reflexivity | lia].
Defined.

(** ** The starting row sold out *)

(** C2 fails on the code: with the back row sold out, a request for one seat
    from A1 is served from row B, the row the allocation overflows into, and
    that row is filled from column 1 rightward (seat B1); the default step on
    row B gives the centered seat B2. *)
Theorem overflow_row_filled_rightward :
  get_seats_from_position back_row_sold_out 1 "A" 1 1
  = Ok [Seat.mk 4 1 "B" 1 false]
  /\ default_row_step small_movie
       (get_available_seats_in_row back_row_sold_out 1 "B") 1
     = Ok [Seat.mk 5 1 "B" 2 false]
  /\ allocate_seats back_row_sold_out 1 1 (Some "A1"%string)
     = Ok {| success := true; seats := [Seat.mk 4 1 "B" 1 false];
             error := None |}.
Proof. by vm_compute. Qed.

(** ** The map from seat numbers to seats *)

Lemma seat_map_acc_lookup (l : list Seat.t) (m : gmap Z Seat.t) (n : Z) :
  foldl (fun m s => <[Seat.seat_number s := s]> m) m l !! n
  = match last (filter (fun s => Seat.seat_number s = n) l) with
    | Some s => Some s
    | None => m !! n
    end.
Proof.
  revert m. induction l as [|s l IH]; intros m; simpl; [done|].
  rewrite IH. rewrite filter_cons. case_decide as Hn.
  - rewrite last_cons.
    destruct (last (filter _ l)); [done|]. subst n. apply lookup_insert_eq.
  - destruct (last (filter _ l)); [done|]. by apply lookup_insert_ne.
Qed.

Lemma seat_map_lookup (l : list Seat.t) (n : Z) :
  seat_map l !! n = last (filter (fun s => Seat.seat_number s = n) l).
Proof.
  unfold seat_map. rewrite seat_map_acc_lookup.
  by destruct (last _).
Qed.

Lemma seat_map_lookup_Some (l : list Seat.t) (n : Z) (s : Seat.t) :
  seat_map l !! n = Some s -> s ∈ l /\ Seat.seat_number s = n.
Proof.
  rewrite seat_map_lookup. intros Hl. apply last_Some_elem_of in Hl.
  apply list_elem_of_filter in Hl. tauto.
Qed.

Lemma seat_map_dom (l : list Seat.t) (n : Z) :
  n ∈ dom (seat_map l) <-> n ∈ Seat.seat_number <$> l.
Proof.
  rewrite elem_of_dom, seat_map_lookup, last_is_Some, list_elem_of_fmap.
  split.
  - intros Hne. destruct (filter _ l) as [|s f] eqn:Hf; [done|].
    assert (Hs : s ∈ filter (fun s => Seat.seat_number s = n) l)
      by (rewrite Hf; left).
    apply list_elem_of_filter in Hs as [? ?]. by exists s.
  - intros (s & -> & Hs) Hf.
    assert (Hin : s ∈ filter (fun s' => Seat.seat_number s'
                                        = Seat.seat_number s) l)
      by (by apply list_elem_of_filter).
    rewrite Hf in Hin. by apply not_elem_of_nil in Hin.
Qed.

Lemma NoDup_fmap_eq {A B : Type} (f : A -> B) (l : list A) (x y : A) :
  NoDup (f <$> l) -> x ∈ l -> y ∈ l -> f x = f y -> x = y.
Proof.
  induction l as [|a l IH]; simpl; [by intros _ ?%not_elem_of_nil|].
  rewrite NoDup_cons, !elem_of_cons, list_elem_of_fmap.
  intros [Ha Hl] [->|Hx] [->|Hy] Hf; [done| | |by apply IH].
  - exfalso. apply Ha. by exists y.
  - exfalso. apply Ha. by exists x.
Qed.

(** With one seat per number, the map gives back each seat of the list. *)
Lemma seat_map_lookup_elem (l : list Seat.t) (s : Seat.t) :
  NoDup (Seat.seat_number <$> l) -> s ∈ l ->
  seat_map l !! Seat.seat_number s = Some s.
Proof.
  intros Hnd Hs.
  destruct (seat_map l !! Seat.seat_number s) as [s'|] eqn:Hl.
  - apply seat_map_lookup_Some in Hl as [Hs' Heq].
    f_equal. by apply (NoDup_fmap_eq Seat.seat_number l).
  - exfalso. apply not_elem_of_dom in Hl. apply Hl, seat_map_dom.
    apply list_elem_of_fmap. by exists s.
Qed.

Lemma sorted_NoDup_strict (l : list Z) :
  sorted_by (fun n => n) l -> NoDup l -> StronglySorted Z.lt l.
Proof.
  unfold sorted_by. induction 1 as [|x l Hl IH Hx]; [constructor|].
  rewrite NoDup_cons. intros [Hnin Hnd]. constructor; [by apply IH|].
  rewrite Forall_forall in Hx |- *. intros y Hy.
  specialize (Hx y Hy). simpl in Hx.
  assert (x <> y) by (intros ->; done). lia.
Qed.

(** [available_numbers] is in strictly increasing order and holds the seat
    numbers of the list. *)
Lemma available_numbers_sorted (l : list Seat.t) :
  StronglySorted Z.lt (sort_by (fun n => n) (elements (dom (seat_map l)))).
Proof.
  apply sorted_NoDup_strict; [apply sort_by_sorted|].
  apply NoDup_sort_by, NoDup_elements.
Qed.

Lemma elem_of_available_numbers (l : list Seat.t) (n : Z) :
  n ∈ sort_by (fun n => n) (elements (dom (seat_map l)))
  <-> n ∈ Seat.seat_number <$> l.
Proof. by rewrite elem_of_sort_by, elem_of_elements, seat_map_dom. Qed.

Lemma available_numbers_ascending (l : list Seat.t) :
  StronglySorted Z.lt (Seat.seat_number <$> l) ->
  sort_by (fun n => n) (elements (dom (seat_map l))) = Seat.seat_number <$> l.
Proof.
  intros Hs. apply strictly_sorted_unique;
    [apply available_numbers_sorted|done|apply elem_of_available_numbers].
Qed.

(** ** Slices *)

Lemma take_to_length {A : Type} (l : list A) (n : nat) :
  take (n `min` length l) l = take n l.
Proof.
  destruct (decide (n <= length l)%nat).
  - by rewrite Nat.min_l.
  - rewrite Nat.min_r by lia. rewrite !take_ge; [done|lia|lia].
Qed.

Lemma slice_nonneg {A : Type} (l : list A) (a c : Z) :
  0 <= a -> 0 <= c ->
  slice l a (a + c) = take (Z.to_nat c) (drop (Z.to_nat a) l).
Proof.
  intros Ha Hc. unfold slice, clamp_index, len.
  destruct (Z.ltb_spec a 0) as [?|_]; [lia|].
  destruct (Z.ltb_spec (a + c) 0) as [?|_]; [lia|].
  destruct (decide (Z.of_nat (length l) <= a)).
  - rewrite !drop_ge by lia. by rewrite !take_nil.
  - replace (Z.to_nat (a `min` Z.of_nat (length l))) with (Z.to_nat a) by lia.
    rewrite <- (take_to_length (drop _ _) (Z.to_nat c)).
    f_equal. rewrite length_drop. lia.
Qed.

Lemma slice_to_nonneg {A : Type} (l : list A) (c : Z) :
  0 <= c -> slice_to l c = take (Z.to_nat c) l.
Proof.
  intros Hc. unfold slice_to.
  change c with (0 + c) at 1. by rewrite slice_nonneg by lia.
Qed.

Lemma slice_from_nonneg {A : Type} (l : list A) (a : Z) :
  0 <= a -> slice_from l a = drop (Z.to_nat a) l.
Proof.
  intros Ha. unfold slice_from, clamp_index, len.
  destruct (Z.ltb_spec a 0) as [?|_]; [lia|].
  destruct (decide (Z.of_nat (length l) <= a)).
  - by rewrite !drop_ge by lia.
  - f_equal. lia.
Qed.

Lemma sublist_take_drop {A : Type} (l : list A) (n m : nat) :
  take n (drop m l) `sublist_of` l.
Proof. trans (drop m l); [apply sublist_take|apply sublist_drop]. Qed.

Lemma elem_of_slice {A : Type} (l : list A) (a b : Z) (x : A) :
  x ∈ slice l a b -> x ∈ l.
Proof.
  unfold slice. intros Hx.
  eapply elem_of_sublist; [exact Hx|apply sublist_take_drop].
Qed.

Lemma NoDup_slice {A : Type} (l : list A) (a b : Z) :
  NoDup l -> NoDup (slice l a b).
Proof.
  intros Hnd. unfold slice.
  by apply (sublist_NoDup _ l); [|apply sublist_take_drop].
Qed.

(** ** The centered-block selector *)

Lemma omap_lookup_fmap (m : gmap Z Seat.t) (l : list Seat.t) :
  (forall s, s ∈ l -> m !! Seat.seat_number s = Some s) ->
  omap (fun n => m !! n) (Seat.seat_number <$> l) = l.
Proof.
  induction l as [|s l IH]; intros Hm; simpl; [done|].
  rewrite (Hm s) by left. f_equal. apply IH. intros s' Hs'. apply Hm. by right.
Qed.

Lemma elem_of_omap_lookup (l : list Seat.t) (ns : list Z) (s : Seat.t) :
  s ∈ omap (fun n => seat_map l !! n) ns ->
  s ∈ l /\ Seat.seat_number s ∈ ns.
Proof.
  rewrite list_elem_of_omap. intros (n & Hn & Hl).
  apply seat_map_lookup_Some in Hl as [? <-]. done.
Qed.

Lemma NoDup_omap_lookup (l : list Seat.t) (ns : list Z) :
  NoDup ns -> NoDup (omap (fun n => seat_map l !! n) ns).
Proof.
  induction 1 as [|n ns Hn Hns IH]; simpl; [constructor|].
  destruct (seat_map l !! n) as [s|] eqn:Hl; [|done].
  constructor; [|done].
  intros Hs. apply elem_of_omap_lookup in Hs as [_ Hs].
  apply seat_map_lookup_Some in Hl as [_ <-]. done.
Qed.

(** The seats selected are seats of the row. *)
Lemma select_centered_seats_elem available count preferred_start s :
  s ∈ select_centered_seats available count preferred_start -> s ∈ available.
Proof.
  unfold select_centered_seats.
  destruct (bool_decide (available = []) || (count <=? 0)) eqn:Hguard;
    [by intros ?%not_elem_of_nil|].
  destruct (_ >=? _).
  - unfold slice_to, slice. intros Hs.
    apply elem_of_take in Hs as (i & Hs & _).
    rewrite lookup_drop in Hs. by eapply list_elem_of_lookup_2.
  - intros Hs. by apply elem_of_omap_lookup in Hs as [? _].
Qed.

(** No seat is selected twice. *)
Lemma select_centered_seats_NoDup available count preferred_start :
  NoDup available ->
  NoDup (select_centered_seats available count preferred_start).
Proof.
  intros Hnd. unfold select_centered_seats.
  destruct (bool_decide (available = []) || (count <=? 0)); [constructor|].
  destruct (_ >=? _).
  - unfold slice_to, slice.
    by apply (sublist_NoDup _ available); [|apply sublist_take_drop].
  - apply NoDup_omap_lookup. unfold slice.
    apply (sublist_NoDup _ (sort_by (fun n => n)
                                 (elements (dom (seat_map available)))));
      [|apply sublist_take_drop].
    apply StronglySorted_lt_NoDup, available_numbers_sorted.
Qed.

(** *** The reads of the selector stay in range *)

Lemma consecutive_indices_in_range (available_numbers : list Z) (count : Z)
    (i j : nat) :
  In i (seq 0 (Z.to_nat (len available_numbers - count + 1))) ->
  In j (seq 0 (Z.to_nat (count - 1))) ->
  is_Some (available_numbers !! (i + j + 1)%nat)
  /\ is_Some (available_numbers !! (i + j)%nat).
Proof.
  intros Hi%in_seq Hj%in_seq. unfold len in Hi.
  split; apply lookup_lt_is_Some_2; lia.
Qed.

Lemma scan_index_in_range (available_numbers : list Z) (count : Z) (i : nat) :
  0 < count ->
  In i (seq 0 (Z.to_nat (len available_numbers - count + 1))) ->
  is_Some (available_numbers !! i).
Proof.
  intros Hc Hi%in_seq. unfold len in Hi. apply lookup_lt_is_Some_2. lia.
Qed.

Lemma selected_numbers_are_keys (available_seats : list Seat.t) (a b n : Z) :
  n ∈ slice (sort_by (fun n => n) (elements (dom (seat_map available_seats))))
        a b ->
  is_Some (seat_map available_seats !! n).
Proof.
  intros Hn%elem_of_slice. apply elem_of_sort_by, elem_of_elements in Hn.
  by apply elem_of_dom.
Qed.

(** *** Runs in a list in strictly increasing order *)

Lemma sorted_lookup_lt (numbers : list Z) (i j : nat) (a b : Z) :
  StronglySorted Z.lt numbers ->
  numbers !! i = Some a -> numbers !! j = Some b -> (i < j)%nat -> a < b.
Proof.
  intros Hs. revert i j. induction Hs as [|x l Hl IH Hx]; intros i j; [done|].
  destruct j as [|j]; [lia|]. destruct i as [|i]; simpl.
  - intros [= ->] Hb _. rewrite Forall_forall in Hx.
    apply Hx. by eapply list_elem_of_lookup_2.
  - intros Ha Hb Hij. apply (IH i j); [done..|lia].
Qed.

Lemma sorted_lookup_le (numbers : list Z) (i j : nat) (a b : Z) :
  StronglySorted Z.lt numbers ->
  numbers !! i = Some a -> numbers !! j = Some b -> (i <= j)%nat -> a <= b.
Proof.
  intros Hs Ha Hb Hij. destruct (decide (i = j)) as [->|Hne].
  - rewrite Ha in Hb. injection Hb as ->. lia.
  - apply Z.lt_le_incl. apply (sorted_lookup_lt numbers i j); [done..|lia].
Qed.

Lemma sorted_lookup_lt_inv (numbers : list Z) (i j : nat) (a b : Z) :
  StronglySorted Z.lt numbers ->
  numbers !! i = Some a -> numbers !! j = Some b -> a < b -> (i < j)%nat.
Proof.
  intros Hs Ha Hb Hab. destruct (decide (i < j)%nat) as [|Hge]; [done|].
  assert (b <= a); [|lia].
  apply (sorted_lookup_le numbers j i); [done..|lia].
Qed.

Lemma consecutive_at_true (numbers : list Z) (count : Z) (i : nat) :
  consecutive_at numbers count i = true
  <-> forall j : nat,
      Z.of_nat j < count - 1 ->
      exists a b, numbers !! (i + j + 1)%nat = Some a
                  /\ numbers !! (i + j)%nat = Some b /\ a - b = 1.
Proof.
  unfold consecutive_at. rewrite forallb_forall. split.
  - intros Hall j Hj.
    assert (Hin : In j (seq 0 (Z.to_nat (count - 1))))
      by (apply in_seq; lia).
    specialize (Hall j Hin).
    destruct (numbers !! (i + j + 1)%nat) as [a|]; [|done].
    destruct (numbers !! (i + j)%nat) as [b|]; [|done].
    apply bool_decide_eq_true in Hall. by exists a, b.
  - intros Hall j Hin. apply in_seq in Hin.
    destruct (Hall j) as (a & b & -> & -> & Hab); [lia|].
    by apply bool_decide_eq_true.
Qed.

Lemma consecutive_at_run (numbers : list Z) (count : Z) (i : nat) (v : Z) :
  numbers !! i = Some v ->
  consecutive_at numbers count i = true <-> run_from numbers i v count.
Proof.
  intros Hv. rewrite consecutive_at_true. unfold run_from. split.
  - intros Hall j. induction j as [|j IH]; intros Hj.
    + by rewrite Nat.add_0_r, Z.add_0_r.
    + destruct (Hall j) as (a & b & Ha & Hb & Hab); [lia|].
      rewrite IH in Hb by lia. injection Hb as <-.
      replace (i + S j)%nat with (i + j + 1)%nat by lia.
      rewrite Ha. f_equal. lia.
  - intros Hrun j Hj. exists (v + Z.of_nat (S j)), (v + Z.of_nat j).
    split; [|split; [|lia]].
    + replace (i + j + 1)%nat with (i + S j)%nat by lia. apply Hrun. lia.
    + apply Hrun. lia.
Qed.

Lemma run_from_free (numbers : list Z) (i : nat) (start count : Z) :
  run_from numbers i start count -> free_run numbers start count.
Proof.
  intros Hrun k Hk. apply (list_elem_of_lookup_2 _ (i + Z.to_nat k)).
  rewrite (Hrun (Z.to_nat k)) by lia. f_equal. lia.
Qed.

Lemma run_from_bound (numbers : list Z) (i : nat) (start count : Z) :
  0 < count -> run_from numbers i start count ->
  (i + Z.to_nat count <= length numbers)%nat.
Proof.
  intros Hc Hrun.
  assert (Hl : numbers !! (i + Z.to_nat (count - 1))%nat
               = Some (start + Z.of_nat (Z.to_nat (count - 1))))
    by (apply Hrun; lia).
  apply lookup_lt_Some in Hl. lia.
Qed.

Lemma run_from_take (numbers : list Z) (i : nat) (start count : Z) :
  run_from numbers i start count ->
  take (Z.to_nat count) (drop i numbers) = seqZ start count.
Proof.
  intros Hrun. apply list_eq. intros j.
  destruct (decide (Z.of_nat j < count)) as [Hj|Hj].
  - rewrite lookup_take_lt by lia. rewrite lookup_drop.
    rewrite lookup_seqZ_lt by done. by apply Hrun.
  - rewrite lookup_take_ge by lia. by rewrite lookup_seqZ_ge by lia.
Qed.

(** In a list in strictly increasing order, seats that are all free and
    consecutive stand next to each other. *)
Lemma free_run_index (numbers : list Z) (start count : Z) :
  StronglySorted Z.lt numbers -> 0 < count ->
  free_run numbers start count ->
  exists i, run_from numbers i start count.
Proof.
  intros Hs Hc Hfree.
  assert (H0 : start ∈ numbers).
  { replace start with (start + 0) by lia. apply Hfree. lia. }
  apply list_elem_of_lookup_1 in H0 as [i Hi]. exists i.
  intros j. induction j as [|j IH]; intros Hj.
  - by rewrite Nat.add_0_r, Z.add_0_r.
  - specialize (IH ltac:(lia)).
    assert (Hnext : start + Z.of_nat (S j) ∈ numbers) by (apply Hfree; lia).
    apply list_elem_of_lookup_1 in Hnext as [m Hm].
    assert (Him : (i + j < m)%nat).
    { apply (sorted_lookup_lt_inv numbers _ _ _ _ Hs IH Hm). lia. }
    destruct (numbers !! (i + S j)%nat) as [w|] eqn:Hw.
    + f_equal.
      assert (start + Z.of_nat j < w).
      { apply (sorted_lookup_lt numbers (i + j) (i + S j)); [done..|lia]. }
      assert (w <= start + Z.of_nat (S j)).
      { apply (sorted_lookup_le numbers (i + S j) m); [done..|lia]. }
      lia.
    + apply lookup_ge_None in Hw. apply lookup_lt_Some in Hm. lia.
Qed.

(** *** The scan for the closest run *)

Lemma find_best_start_invariant (numbers : list Z) (count preferred_start : Z)
    (k : nat) :
  (k <= length numbers)%nat ->
  best_after numbers count preferred_start k
    (foldl (scan_step numbers count preferred_start) (0%nat, None) (seq 0 k)).
Proof.
  induction k as [|k IH]; intros Hk.
  - simpl. split; [done|]. intros i Hi. lia.
  - rewrite seq_S, foldl_snoc. simpl.
    specialize (IH ltac:(lia)).
    destruct (foldl _ _ (seq 0 k)) as [b d]. unfold scan_step.
    destruct (consecutive_at numbers count k) eqn:Hck.
    + destruct (lookup_lt_is_Some_2 numbers k ltac:(lia)) as [vk Hvk].
      rewrite Hvk. unfold best_after in *. simpl in *.
      destruct d as [d|].
      * destruct IH as (Hb & Hcb & v & Hv & -> & Hbest).
        destruct (Z.ltb_spec (Z.abs (vk - preferred_start))
                    (Z.abs (v - preferred_start))) as [Hlt|Hge]; simpl.
        -- split; [lia|]. split; [done|]. exists vk. repeat split; [done|].
           intros i v' Hi Hci Hv'.
           destruct (decide (i = k)) as [->|Hne].
           ++ rewrite Hvk in Hv'. injection Hv' as <-. right. split; lia.
           ++ destruct (Hbest i v' ltac:(lia) Hci Hv'); left; lia.
        -- split; [lia|]. split; [done|]. exists v. repeat split; [done|].
           intros i v' Hi Hci Hv'.
           destruct (decide (i = k)) as [->|Hne].
           ++ rewrite Hvk in Hv'. injection Hv' as <-.
              destruct (decide (Z.abs (v - preferred_start)
                                = Z.abs (vk - preferred_start)));
                [right; split; lia|left; lia].
           ++ apply Hbest; [lia|done..].
      * destruct IH as (-> & Hnone). simpl.
        split; [lia|]. split; [done|]. exists vk. repeat split; [done|].
        intros i v' Hi Hci Hv'.
        destruct (decide (i = k)) as [->|Hne].
        -- rewrite Hvk in Hv'. injection Hv' as <-. right. split; lia.
        -- rewrite Hnone in Hci by lia. done.
    + unfold best_after in *. destruct d as [d|]; simpl in *.
      * destruct IH as (Hb & Hcb & v & Hv & -> & Hbest).
        split; [lia|]. split; [done|]. exists v. repeat split; [done|].
        intros i v' Hi Hci Hv'.
        destruct (decide (i = k)) as [->|Hne]; [congruence|].
        apply Hbest; [lia|done..].
      * destruct IH as (-> & Hnone). split; [done|].
        intros i Hi. destruct (decide (i = k)) as [->|Hne]; [done|].
        apply Hnone. lia.
Qed.

Lemma run_from_head (numbers : list Z) (i : nat) (start count : Z) :
  0 < count -> run_from numbers i start count -> numbers !! i = Some start.
Proof.
  intros Hc Hrun. specialize (Hrun 0%nat ltac:(lia)).
  by rewrite Nat.add_0_r, Z.add_0_r in Hrun.
Qed.

(** On a row with one seat per number, listed in increasing order, the
    selector returns the seats at [best_start_idx] and after. *)
Lemma select_centered_seats_ascending available count preferred_start :
  StronglySorted Z.lt (Seat.seat_number <$> available) ->
  0 < count < len available ->
  select_centered_seats available count preferred_start
  = take (Z.to_nat count)
      (drop (fst (find_best_start (Seat.seat_number <$> available) count
                    preferred_start)) available).
Proof.
  intros Hs [Hc Hlen]. unfold select_centered_seats.
  assert (Hne : available <> []).
  { intros ->. unfold len in Hlen. simpl in Hlen. lia. }
  rewrite bool_decide_eq_false_2 by done.
  destruct (Z.leb_spec count 0) as [?|_]; [lia|]. simpl.
  rewrite (available_numbers_ascending _ Hs).
  assert (Hl : len (Seat.seat_number <$> available) = len available)
    by (unfold len; by rewrite length_fmap).
  rewrite Hl. destruct (Z.geb_spec count (len available)) as [?|_]; [lia|].
  rewrite slice_nonneg by lia. rewrite Nat2Z.id.
  rewrite <- fmap_drop, <- fmap_take. apply omap_lookup_fmap.
  intros s Hin. apply seat_map_lookup_elem.
  - by apply StronglySorted_lt_NoDup.
  - eapply elem_of_sublist; [exact Hin|apply sublist_take_drop].
Qed.

(** C1: on a row whose free seats are listed by increasing number, and for a
    count above zero and below the number of free seats, the selector returns
    [count] seats of the row; when [count] consecutive seats are free
    somewhere, the seats returned are consecutive and no free run starts
    closer to [preferred_start], nor as close and lower; when no such run
    exists, they are the first [count] free seats. With the seats 1, 3, 5, 7,
    9 free and two seats asked for, the seats 1 and 3 are returned. *)
Theorem select_centered_seats_closest_run :
  (forall available count preferred_start,
      StronglySorted Z.lt (Seat.seat_number <$> available) ->
      0 < count < len available ->
      let numbers := Seat.seat_number <$> available in
      let selected :=
        select_centered_seats available count preferred_start in
      selected `sublist_of` available
      /\ len selected = count
      /\ ((exists start, free_run numbers start count) ->
          exists start,
            Seat.seat_number <$> selected = seqZ start count
            /\ forall start',
                free_run numbers start' count ->
                closest_first preferred_start start start')
      /\ ((~ exists start, free_run numbers start count) ->
          selected = take (Z.to_nat count) available))
  /\ (forall preferred_start,
         Seat.seat_number
           <$> select_centered_seats alternating_row 2 preferred_start
         = [1; 3]).
Proof.
  split; [|done].
  intros available count preferred_start Hs [Hc Hlen] numbers selected.
  subst selected.
  rewrite (select_centered_seats_ascending _ _ _ Hs) by done.
  fold numbers.
  assert (Hl : len numbers = len available)
    by (unfold len, numbers; by rewrite length_fmap).
  pose proof (find_best_start_invariant numbers count preferred_start
                (Z.to_nat (len numbers - count + 1))) as Hinv.
  fold (find_best_start numbers count preferred_start) in Hinv.
  specialize (Hinv ltac:(unfold len in *; lia)).
  unfold best_after in Hinv.
  destruct (find_best_start numbers count preferred_start) as [b d].
  simpl in *.
  assert (Hb : (b + Z.to_nat count <= length available)%nat).
  { unfold len in *. destruct d as [d|]; [destruct Hinv as [? _]; lia|].
    destruct Hinv as [-> _]. lia. }
  split; [apply sublist_take_drop|].
  split; [unfold len; rewrite length_take, length_drop; lia|].
  destruct d as [d|].
  - destruct Hinv as (Hbk & Hcb & v & Hv & _ & Hbest).
    assert (Hrun : run_from numbers b v count)
      by (by apply (consecutive_at_run numbers count b v Hv)).
    split.
    + intros _. exists v. split.
      * rewrite fmap_take, fmap_drop. by apply run_from_take.
      * intros start' Hfree.
        destruct (free_run_index numbers start' count Hs Hc Hfree)
          as [i Hi].
        pose proof (run_from_head _ _ _ _ Hc Hi) as Hstart.
        pose proof (run_from_bound _ _ _ _ Hc Hi) as Hbound.
        assert (Hci : consecutive_at numbers count i = true)
          by (by apply (consecutive_at_run numbers count i start' Hstart)).
        unfold closest_first.
        destruct (Hbest i start') as [?|[? Hle]];
          [unfold len in *; lia|done..|by left|].
        right. split; [done|].
        by apply (sorted_lookup_le numbers b i).
    + intros Hno. exfalso. apply Hno. exists v. by eapply run_from_free.
  - destruct Hinv as (-> & Hnone). split.
    + intros [start Hfree]. exfalso.
      destruct (free_run_index numbers start count Hs Hc Hfree) as [i Hi].
      pose proof (run_from_head _ _ _ _ Hc Hi) as Hstart.
      pose proof (run_from_bound _ _ _ _ Hc Hi) as Hbound.
      apply (consecutive_at_run numbers count i start Hstart) in Hi.
      rewrite Hnone in Hi; [done|unfold len in *; lia].
    + by intros _.
Qed.

Lemma select_centered_seats_closest_run_witness :
  (StronglySorted Z.lt (Seat.seat_number <$> free_row)
   /\ 0 < 2 < len free_row)
  /\ len (select_centered_seats free_row 2 2) = 2.
Proof.
  assert (Hs : StronglySorted Z.lt (Seat.seat_number <$> free_row))
    by (repeat constructor).
  assert (Hc : 0 < 2 < len free_row) by (by vm_compute).
  split; [done|].
  exact (proj1 (proj2 (proj1 select_centered_seats_closest_run free_row 2 2
                         Hs Hc))).
Defined.

(** ** Rows *)

Lemma NoDup_ascii_uppercase : NoDup ascii_uppercase.
Proof. apply (bool_decide_unpack _). by vm_compute. Qed.

Lemma NoDup_row_letters (rows : Z) : NoDup (slice_to ascii_uppercase rows).
Proof. apply NoDup_slice, NoDup_ascii_uppercase. Qed.

Lemma index_or_minus_one_spec (x : ascii) (l : list ascii) :
  (index_or_minus_one x l = -1 /\ (x ∉ l))
  \/ (0 <= index_or_minus_one x l
      /\ l !! Z.to_nat (index_or_minus_one x l) = Some x).
Proof.
  induction l as [|y l IH]; simpl.
  - left. split; [done|]. apply not_elem_of_nil.
  - case_bool_decide as Hy.
    + right. subst. by split.
    + destruct IH as [[-> Hnin]|[Hge Hl]].
      * left. split; [done|]. rewrite not_elem_of_cons. by split.
      * right. destruct (Z.eqb_spec (index_or_minus_one x l) (-1)); [lia|].
        split; [lia|].
        replace (Z.to_nat (index_or_minus_one x l + 1))
          with (S (Z.to_nat (index_or_minus_one x l))) by lia.
        done.
Qed.

(** [rows_to_check] starts with the starting row, which does not come again. *)
Lemma rows_to_check_spec (start_row : ascii) (all_rows : list ascii) :
  NoDup all_rows -> start_row ∈ all_rows ->
  index_or_minus_one start_row all_rows <> -1
  /\ exists rest,
      slice_from all_rows (index_or_minus_one start_row all_rows)
      = start_row :: rest
      /\ (start_row ∉ rest) /\ NoDup rest.
Proof.
  intros Hnd Hin.
  destruct (index_or_minus_one_spec start_row all_rows)
    as [[_ ?]|[Hge Hl]]; [done|].
  split; [lia|].
  rewrite slice_from_nonneg by done.
  apply (drop_S all_rows start_row) in Hl as Hd. rewrite Hd.
  exists (drop (S (Z.to_nat (index_or_minus_one start_row all_rows))) all_rows).
  split; [done|].
  assert (Hnd' : NoDup (drop (Z.to_nat (index_or_minus_one start_row all_rows))
                          all_rows))
    by (apply (sublist_NoDup _ all_rows); [done|apply sublist_drop]).
  rewrite Hd in Hnd'. by apply NoDup_cons in Hnd'.
Qed.

Lemma elem_of_available (db : Session.t) (movie_id : Z) (row_letter : ascii)
    (s : Seat.t) :
  s ∈ get_available_seats_in_row db movie_id row_letter
  <-> s ∈ Session.seats db
      /\ Seat.movie_id s = movie_id
      /\ Seat.row_letter s = row_letter
      /\ Seat.is_booked s = false.
Proof.
  unfold get_available_seats_in_row.
  rewrite elem_of_sort_by, list_elem_of_filter. tauto.
Qed.

Lemma NoDup_available (db : Session.t) (movie_id : Z) (row_letter : ascii) :
  NoDup (Session.seats db) ->
  NoDup (get_available_seats_in_row db movie_id row_letter).
Proof.
  intros Hnd. unfold get_available_seats_in_row.
  by apply NoDup_sort_by, NoDup_filter.
Qed.

Lemma sorted_available (db : Session.t) (movie_id : Z) (row_letter : ascii) :
  sorted_by Seat.seat_number
    (get_available_seats_in_row db movie_id row_letter).
Proof. apply sort_by_sorted. Qed.

Lemma sorted_by_filter {A : Type} (key : A -> Z) (P : A -> Prop)
    `{forall x, Decision (P x)} (l : list A) :
  sorted_by key l -> sorted_by key (filter P l).
Proof.
  unfold sorted_by. induction 1 as [|x l Hl IH Hx]; [constructor|].
  rewrite filter_cons. case_decide; [|done].
  constructor; [done|].
  rewrite Forall_forall in Hx |- *. intros y Hy.
  apply list_elem_of_filter in Hy as [_ Hy]. by apply Hx.
Qed.

Lemma filter_all {A : Type} (P : A -> Prop) `{forall x, Decision (P x)}
    (l : list A) :
  (forall x, x ∈ l -> P x) -> filter P l = l.
Proof.
  induction l as [|x l IH]; intros Hall; [done|].
  rewrite filter_cons. rewrite decide_True by (apply Hall; left).
  f_equal. apply IH. intros y Hy. apply Hall. by right.
Qed.

Lemma filter_none {A : Type} (P : A -> Prop) `{forall x, Decision (P x)}
    (l : list A) :
  (forall x, x ∈ l -> ~ P x) -> filter P l = [].
Proof.
  induction l as [|x l IH]; intros Hall; [done|].
  rewrite filter_cons. rewrite decide_False by (apply Hall; left).
  apply IH. intros y Hy. apply Hall. by right.
Qed.

(** ** The two allocation loops *)

(** Past its first row with free seats, the loop of [get_seats_from_position]
    is the loop of [get_default_seats]. *)
Lemma default_loop_position_loop db movie_id movie start_col row_letters
    remaining selected :
  default_loop db movie_id movie row_letters remaining selected
  = position_loop db movie_id movie start_col row_letters false remaining
      selected.
Proof.
  revert remaining selected.
  induction row_letters as [|r rs IH]; intros remaining selected; simpl;
    [done|].
  destruct (remaining <=? 0); [done|].
  case_bool_decide; [apply IH|].
  destruct (get_middle_start_column _ _); simpl; [apply IH|done].
Qed.

Lemma picked_from_nil db movie_id rows : picked_from db movie_id rows [].
Proof.
  split; [by intros s ?%not_elem_of_nil|]. intros _ _. constructor.
Qed.

Lemma picked_from_skip db movie_id r rows extra :
  picked_from db movie_id rows extra ->
  picked_from db movie_id (r :: rows) extra.
Proof.
  intros [Hin Hnd]. split.
  - intros s Hs. destruct (Hin s Hs). split; [by right|done].
  - intros Hdb Hrows. apply NoDup_cons in Hrows as [_ ?]. by apply Hnd.
Qed.

(** A chunk taken from the free seats of the row [r], then seats of the
    rows after it. *)
Lemma picked_from_cons db movie_id r rows chunk extra :
  (forall s, s ∈ chunk -> s ∈ get_available_seats_in_row db movie_id r) ->
  (NoDup (Session.seats db) -> NoDup chunk) ->
  picked_from db movie_id rows extra ->
  picked_from db movie_id (r :: rows) (chunk ++ extra).
Proof.
  intros Hchunk Hndc [Hin Hnd]. split.
  - intros s [Hs|Hs]%elem_of_app.
    + specialize (Hchunk s Hs).
      apply elem_of_available in Hchunk as Hrow.
      destruct Hrow as (_ & _ & -> & _). split; [left|done].
    + destruct (Hin s Hs). split; [by right|done].
  - intros Hdb Hrows. apply NoDup_cons in Hrows as [Hr Hrows].
    apply NoDup_app. split; [by apply Hndc|]. split; [|by apply Hnd].
    intros s Hs Hs'. apply Hr.
    specialize (Hchunk s Hs). apply elem_of_available in Hchunk.
    destruct Hchunk as (_ & _ & <- & _). by destruct (Hin s Hs').
Qed.

Lemma position_loop_spec db movie_id movie start_col rows is_first_row
    remaining selected out :
  position_loop db movie_id movie start_col rows is_first_row remaining
    selected = Ok out ->
  exists extra, out = selected ++ extra /\ picked_from db movie_id rows extra.
Proof.
  revert is_first_row remaining selected.
  induction rows as [|r rows IH]; intros is_first_row remaining selected;
    simpl.
  - intros [= <-]. exists []. split; [by rewrite app_nil_r|].
    apply picked_from_nil.
  - destruct (remaining <=? 0).
    { intros [= <-]. exists []. split; [by rewrite app_nil_r|].
      apply picked_from_nil. }
    case_bool_decide as Hav.
    { intros Hloop. destruct (IH _ _ _ Hloop) as (extra & -> & Hp).
      exists extra. split; [done|]. by apply picked_from_skip. }
    destruct is_first_row.
    + intros Hloop. destruct (IH _ _ _ Hloop) as (extra & -> & Hp).
      eexists. split; [by rewrite <- app_assoc|].
      apply picked_from_cons; [| |done].
      * intros s Hs. apply elem_of_slice in Hs.
        apply elem_of_sort_by in Hs.
        by apply list_elem_of_filter in Hs as [_ ?].
      * intros Hdb. apply NoDup_slice, NoDup_sort_by, NoDup_filter.
        by apply NoDup_available.
    + destruct (get_middle_start_column _ _) as [c|e]; simpl; [|done].
      intros Hloop. destruct (IH _ _ _ Hloop) as (extra & -> & Hp).
      eexists. split; [by rewrite <- app_assoc|].
      apply picked_from_cons; [| |done].
      * intros s Hs. by apply select_centered_seats_elem in Hs.
      * intros Hdb. apply select_centered_seats_NoDup.
        by apply NoDup_available.
Qed.

(** On the row widths of a venue the loop never raises. *)
Lemma position_loop_total db movie_id movie start_col rows is_first_row
    remaining selected :
  1 <= Movie.seats_per_row movie <= 50 ->
  exists out,
    position_loop db movie_id movie start_col rows is_first_row remaining
      selected = Ok out.
Proof.
  intros Hspr. revert is_first_row remaining selected.
  induction rows as [|r rows IH]; intros is_first_row remaining selected;
    simpl; [by eexists|].
  destruct (Z.leb_spec remaining 0); [by eexists|].
  case_bool_decide as Hav; [apply IH|].
  destruct is_first_row; [apply IH|].
  rewrite get_middle_start_column_exact; [simpl; apply IH|done|].
  pose proof (len_nonneg (get_available_seats_in_row db movie_id r)). lia.
Qed.

(** ** The starting row of a positional allocation *)

Lemma picked_from_other_row db movie_id rows extra r :
  r ∉ rows -> picked_from db movie_id rows extra ->
  filter (fun s => Seat.row_letter s = r) extra = [].
Proof.
  intros Hr [Hin _]. apply filter_none. intros s Hs Heq.
  apply Hr. rewrite <- Heq. by destruct (Hin s Hs).
Qed.

Lemma position_loop_first_row db movie_id movie start_col r rest remaining out :
  r ∉ rest ->
  position_loop db movie_id movie start_col (r :: rest) true remaining []
  = Ok out ->
  filter (fun s => Seat.row_letter s = r) out
  = take (Z.to_nat (Z.min remaining
                      (len (filter (fun s => Seat.seat_number s >= start_col)
                              (get_available_seats_in_row db movie_id r)))))
      (filter (fun s => Seat.seat_number s >= start_col)
         (get_available_seats_in_row db movie_id r)).
Proof.
  intros Hr. simpl.
  destruct (Z.leb_spec remaining 0) as [Hrem|Hrem].
  { intros [= <-]. by replace (Z.to_nat _) with 0%nat by lia. }
  case_bool_decide as Hav.
  { intros Hloop. apply position_loop_spec in Hloop as (extra & -> & Hp).
    rewrite Hav, filter_nil, take_nil. simpl.
    by apply (picked_from_other_row db movie_id rest). }
  intros Hloop. apply position_loop_spec in Hloop as (extra & -> & Hp).
  simpl. rewrite filter_app.
  rewrite (picked_from_other_row db movie_id rest extra r Hr Hp), app_nil_r.
  rewrite sort_by_id
    by apply sorted_by_filter, sorted_available.
  rewrite slice_to_nonneg
    by (match goal with |- context [len ?l] => pose proof (len_nonneg l) end;
        lia).
  apply filter_all. intros s Hs.
  apply elem_of_take in Hs as (i & Hs & _).
  apply list_elem_of_lookup_2 in Hs.
  apply list_elem_of_filter in Hs as [_ Hs].
  apply elem_of_available in Hs. tauto.
Qed.

(** C7: the seats a positional allocation takes in the starting row are the
    free seats of that row from the start column rightward, by increasing
    number, as many as are asked for and there are; no seat of that row left
    of the start column is taken. On the row widths of a venue the allocation
    returns. *)
Theorem positional_starting_row_rightward db movie_id start_row start_col
    num_tickets :
  (forall seats,
      get_seats_from_position db movie_id start_row start_col num_tickets
      = Ok seats ->
      (forall s, s ∈ seats -> Seat.row_letter s = start_row ->
                 start_col <= Seat.seat_number s)
      /\ (forall movie,
             query_movie db movie_id = Some movie ->
             start_row ∈ slice_to ascii_uppercase (Movie.rows movie) ->
             let seats_to_right :=
               filter (fun s => Seat.seat_number s >= start_col)
                 (get_available_seats_in_row db movie_id start_row) in
             sorted_by Seat.seat_number seats_to_right
             /\ (forall s, s ∈ seats_to_right
                           <-> s ∈ Session.seats db
                               /\ Seat.movie_id s = movie_id
                               /\ Seat.row_letter s = start_row
                               /\ Seat.is_booked s = false
                               /\ start_col <= Seat.seat_number s)
             /\ filter (fun s => Seat.row_letter s = start_row) seats
                = take (Z.to_nat (Z.min num_tickets (len seats_to_right)))
                    seats_to_right))
  /\ (forall movie,
         query_movie db movie_id = Some movie ->
         1 <= Movie.seats_per_row movie <= 50 ->
         exists seats,
           get_seats_from_position db movie_id start_row start_col num_tickets
           = Ok seats).
Proof.
  split.
  - intros seats Hget.
    assert (Hfirst : forall movie,
               query_movie db movie_id = Some movie ->
               start_row ∈ slice_to ascii_uppercase (Movie.rows movie) ->
               filter (fun s => Seat.row_letter s = start_row) seats
               = take (Z.to_nat
                         (Z.min num_tickets
                            (len (filter
                                    (fun s => Seat.seat_number s >= start_col)
                                    (get_available_seats_in_row db movie_id
                                       start_row)))))
                   (filter (fun s => Seat.seat_number s >= start_col)
                      (get_available_seats_in_row db movie_id start_row))).
    { intros movie Hq Hrow. unfold get_seats_from_position in Hget.
      rewrite Hq in Hget.
      destruct (rows_to_check_spec start_row _
                  (NoDup_row_letters (Movie.rows movie)) Hrow)
        as (Hidx & rest & Hrest & Hnin & _).
      destruct (Z.eqb_spec (index_or_minus_one start_row
                              (slice_to ascii_uppercase (Movie.rows movie)))
                  (-1)); [done|].
      rewrite Hrest in Hget.
      by apply (position_loop_first_row db movie_id movie start_col start_row
                  rest). }
    split.
    + intros s Hs Hrow. unfold get_seats_from_position in Hget.
      destruct (query_movie db movie_id) as [movie|] eqn:Hq;
        [|injection Hget as <-; by apply not_elem_of_nil in Hs].
      destruct (index_or_minus_one_spec start_row
                  (slice_to ascii_uppercase (Movie.rows movie)))
        as [[Hidx _]|[Hge Hl]].
      { rewrite Hidx in Hget. simpl in Hget. injection Hget as <-.
        by apply not_elem_of_nil in Hs. }
      apply list_elem_of_lookup_2 in Hl.
      assert (Hin : s ∈ filter (fun s => Seat.row_letter s = start_row) seats)
        by (by apply list_elem_of_filter).
      unfold get_seats_from_position in Hfirst.
      rewrite (Hfirst movie eq_refl Hl) in Hin.
      apply elem_of_take in Hin as (i & Hin & _).
      apply list_elem_of_lookup_2 in Hin.
      apply list_elem_of_filter in Hin as [? _]. lia.
    + intros movie Hq Hrow seats_to_right. subst seats_to_right.
      split; [apply sorted_by_filter, sorted_available|].
      split; [|by apply (Hfirst movie)].
      intros s. rewrite list_elem_of_filter, elem_of_available.
      split; [intros [? (? & ? & ? & ?)]|intros (? & ? & ? & ? & ?)];
        repeat split; try done; lia.
  - intros movie Hq Hspr. unfold get_seats_from_position. rewrite Hq.
    destruct (_ =? -1); [by eexists|].
    by apply position_loop_total.
Qed.

Lemma positional_starting_row_rightward_witness :
  get_seats_from_position back_row_sold_out 1 "B" 2 2
  = Ok [Seat.mk 5 1 "B" 2 false; Seat.mk 6 1 "B" 3 false]
  /\ (forall s,
         s ∈ [Seat.mk 5 1 "B" 2 false; Seat.mk 6 1 "B" 3 false] ->
         Seat.row_letter s = "B"%char -> 2 <= Seat.seat_number s).
Proof.
  split; [reflexivity|].
  exact (proj1 (proj1 (positional_starting_row_rightward back_row_sold_out 1
                         "B" 2 2) _ eq_refl)).
Defined.

(** ** What a successful allocation returns *)

Lemma get_default_seats_picked db movie_id num_tickets out :
  get_default_seats db movie_id num_tickets = Ok out ->
  exists rows, NoDup rows /\ picked_from db movie_id rows out.
Proof.
  unfold get_default_seats, get_row_letters_for_movie.
  destruct (query_movie db movie_id) as [movie|].
  - rewrite (default_loop_position_loop _ _ _ 0).
    intros Hloop. apply position_loop_spec in Hloop as (extra & -> & Hp).
    eexists. split; [apply NoDup_row_letters|done].
  - intros [= <-]. exists []. split; [constructor|apply picked_from_nil].
Qed.

Lemma get_seats_from_position_picked db movie_id start_row start_col
    num_tickets out :
  get_seats_from_position db movie_id start_row start_col num_tickets = Ok out ->
  exists rows, NoDup rows /\ picked_from db movie_id rows out.
Proof.
  unfold get_seats_from_position.
  destruct (query_movie db movie_id) as [movie|];
    [|intros [= <-]; exists []; split; [constructor|apply picked_from_nil]].
  destruct (_ =? -1);
    [intros [= <-]; exists []; split; [constructor|apply picked_from_nil]|].
  intros Hloop. apply position_loop_spec in Hloop as (extra & -> & Hp).
  eexists. split; [|done].
  unfold slice_from.
  apply (sublist_NoDup _ (slice_to ascii_uppercase (Movie.rows movie)));
    [apply NoDup_row_letters|apply sublist_drop].
Qed.

Lemma picked_from_distinct_free db movie_id rows out :
  NoDup (Seat.id <$> Session.seats db) -> NoDup rows ->
  picked_from db movie_id rows out ->
  NoDup (Seat.id <$> out)
  /\ forall s, s ∈ out ->
               s ∈ Session.seats db
               /\ Seat.movie_id s = movie_id
               /\ Seat.is_booked s = false.
Proof.
  intros Hids Hrows [Hin Hnd].
  assert (Hfacts : forall s, s ∈ out ->
                             s ∈ Session.seats db
                             /\ Seat.movie_id s = movie_id
                             /\ Seat.is_booked s = false).
  { intros s Hs. destruct (Hin s Hs) as [_ Hav].
    apply elem_of_available in Hav. tauto. }
  split; [|done].
  apply NoDup_fmap_2_strong.
  - intros x y Hx Hy Heq.
    apply (NoDup_fmap_eq Seat.id (Session.seats db)); [done| | |done].
    + by destruct (Hfacts x Hx).
    + by destruct (Hfacts y Hy).
  - apply Hnd; [|done]. by apply NoDup_fmap_1 in Hids.
Qed.

Lemma check_allocated_success num_tickets out a :
  check_allocated num_tickets out = a -> success a = true ->
  seats a = out /\ num_tickets <= len out.
Proof.
  unfold check_allocated. destruct (Z.ltb_spec (len out) num_tickets).
  - by intros <-.
  - by intros <-.
Qed.

(** C9: with seat ids that are a primary key, a successful allocation, from
    a position or not, returns no seat twice, and every seat it returns is a
    seat of the requested movie that is not booked. *)
Theorem allocated_seats_distinct_free db movie_id num_tickets start_position a :
  NoDup (Seat.id <$> Session.seats db) ->
  allocate_seats db movie_id num_tickets start_position = Ok a ->
  success a = true ->
  NoDup (Seat.id <$> seats a)
  /\ NoDup (seats a)
  /\ forall s, s ∈ seats a ->
               s ∈ Session.seats db
               /\ Seat.movie_id s = movie_id
               /\ Seat.is_booked s = false.
Proof.
  intros Hids Halloc Hsucc.
  assert (Hpicked : exists rows,
             NoDup rows /\ picked_from db movie_id rows (seats a)).
  { unfold allocate_seats in Halloc.
    destruct (query_movie db movie_id) as [movie|];
      [|by injection Halloc as <-].
    destruct (_ <? num_tickets); [by injection Halloc as <-|].
    destruct (truthy start_position) as [position|].
    - destruct (parse_seat_position position)
        as [[[row_letter col_number]|]|e]; simpl in Halloc;
        [|by injection Halloc as <-|done].
      case_bool_decide.
      { destruct (last _); [by injection Halloc as <-|done]. }
      destruct (_ || _); [by injection Halloc as <-|].
      destruct (get_seats_from_position _ _ _ _ _) as [out|] eqn:Hget;
        [|done].
      simpl in Halloc. injection Halloc as Hcheck.
      apply check_allocated_success in Hcheck as [-> _]; [|done].
      by eapply get_seats_from_position_picked.
    - destruct (get_default_seats _ _ _) as [out|] eqn:Hget; [|done].
      simpl in Halloc. injection Halloc as Hcheck.
      apply check_allocated_success in Hcheck as [-> _]; [|done].
      by eapply get_default_seats_picked. }
  destruct Hpicked as (rows & Hrows & Hp).
  destruct (picked_from_distinct_free _ _ _ _ Hids Hrows Hp) as [Hnd Hall].
  split; [done|]. split; [by apply NoDup_fmap_1 in Hnd|done].
Qed.

Lemma allocated_seats_distinct_free_witness :
  NoDup (Seat.id <$> Session.seats back_row_sold_out)
  /\ NoDup (Seat.id <$> [Seat.mk 5 1 "B" 2 false; Seat.mk 6 1 "B" 3 false]).
Proof.
  assert (Hids : NoDup (Seat.id <$> Session.seats back_row_sold_out))
    by (apply (bool_decide_unpack _); by vm_compute).
  split; [done|].
  exact (proj1 (allocated_seats_distinct_free back_row_sold_out 1 2
                  (Some "B2"%string) _ Hids eq_refl eq_refl)).
Defined.

(** ** The order of the checks of [allocate_seats] *)


Lemma elem_of_all_ascii (c : ascii) : In c all_ascii.
Proof.
  apply list_elem_of_In. unfold all_ascii. apply list_elem_of_fmap.
  exists (nat_of_ascii c). split; [by rewrite ascii_nat_embedding|].
  apply elem_of_seq. pose proof (nat_ascii_bounded c). lia.
Qed.






Lemma check_allocated_cases num_tickets out :
  (len out < num_tickets ->
   check_allocated num_tickets out = failure (Could_not_allocate num_tickets))
  /\ (num_tickets <= len out -> check_allocated num_tickets out = allocated out).
Proof.
  unfold check_allocated.
  destruct (Z.ltb_spec (len out) num_tickets); split; intros; try lia; done.
Qed.





(** ** How many seats the default allocation collects *)

Lemma find_best_start_bound (numbers : list Z) (count preferred_start : Z) :
  0 < count <= len numbers ->
  (fst (find_best_start numbers count preferred_start) + Z.to_nat count
   <= length numbers)%nat.
Proof.
  intros [Hc Hlen].
  pose proof (find_best_start_invariant numbers count preferred_start
                (Z.to_nat (len numbers - count + 1))) as Hinv.
  fold (find_best_start numbers count preferred_start) in Hinv.
  specialize (Hinv ltac:(unfold len in *; lia)).
  unfold best_after in Hinv. unfold len in *.
  destruct (find_best_start numbers count preferred_start) as [b [d|]];
    simpl in *.
  - destruct Hinv as [? _]. lia.
  - destruct Hinv as [-> _]. lia.
Qed.

(** From a row with one seat per number the selector returns as many seats
    as it is asked for, whether they are next to each other or not. *)
Lemma select_centered_seats_length available count preferred_start :
  StronglySorted Z.lt (Seat.seat_number <$> available) ->
  0 < count <= len available ->
  len (select_centered_seats available count preferred_start) = count.
Proof.
  intros Hs [Hc Hlen].
  assert (Hl : len (Seat.seat_number <$> available) = len available)
    by (unfold len; by rewrite length_fmap).
  destruct (decide (count = len available)) as [Heq|Hne].
  - unfold select_centered_seats.
    assert (Hnil : available <> []).
    { intros ->. unfold len in *. simpl in *. lia. }
    rewrite bool_decide_eq_false_2 by done.
    destruct (Z.leb_spec count 0) as [?|_]; [lia|]. simpl.
    rewrite (available_numbers_ascending _ Hs), Hl.
    destruct (Z.geb_spec count (len available)) as [_|?]; [|lia].
    rewrite slice_to_nonneg by lia. unfold len in *.
    rewrite take_ge by lia. done.
  - rewrite select_centered_seats_ascending by (done || lia).
    assert (Hb : 0 < count <= len (Seat.seat_number <$> available))
      by (rewrite Hl; lia).
    apply (find_best_start_bound _ _ preferred_start) in Hb.
    rewrite length_fmap in Hb.
    unfold len. rewrite length_take, length_drop. lia.
Qed.

Lemma capacity_nonneg db movie_id rows : 0 <= capacity db movie_id rows.
Proof.
  induction rows as [|r rows IH]; simpl; [done|].
  pose proof (len_nonneg (get_available_seats_in_row db movie_id r)). lia.
Qed.

Lemma len_app {A : Type} (l k : list A) : len (l ++ k) = len l + len k.
Proof. unfold len. rewrite length_app. lia. Qed.

(** With one seat per number in every row, the default loop collects every
    seat asked for, as far as the rows have free seats. *)
Lemma default_loop_count db movie_id movie rows remaining selected :
  1 <= Movie.seats_per_row movie <= 50 ->
  (forall r, r ∈ rows ->
             StronglySorted Z.lt
               (Seat.seat_number <$> get_available_seats_in_row db movie_id r)) ->
  0 <= remaining ->
  exists out,
    default_loop db movie_id movie rows remaining selected = Ok out
    /\ len out = len selected + Z.min remaining (capacity db movie_id rows).
Proof.
  intros Hspr. revert remaining selected.
  induction rows as [|r rows IH]; intros remaining selected Hrows Hrem; simpl.
  - exists selected. split; [done|]. lia.
  - pose proof (capacity_nonneg db movie_id rows) as Hcap.
    pose proof (len_nonneg (get_available_seats_in_row db movie_id r)) as Hav.
    destruct (Z.leb_spec remaining 0).
    { exists selected. split; [done|]. lia. }
    case_bool_decide as Hnil.
    { destruct (IH remaining selected) as (out & -> & Hout);
        [intros; apply Hrows; by right|done|].
      exists out. split; [done|]. rewrite Hout, Hnil. unfold len. simpl. lia. }
    assert (Hpos : 0 < len (get_available_seats_in_row db movie_id r)).
    { destruct (get_available_seats_in_row db movie_id r); [done|].
      unfold len. simpl. lia. }
    rewrite get_middle_start_column_exact by (done || lia). simpl.
    rewrite select_centered_seats_length
      by (first [apply Hrows; left | lia]).
    destruct (IH (remaining
                  - Z.min remaining
                      (len (get_available_seats_in_row db movie_id r)))
                (selected
                 ++ select_centered_seats
                      (get_available_seats_in_row db movie_id r)
                      (Z.min remaining
                         (len (get_available_seats_in_row db movie_id r)))
                      (Z.max 1
                         ((Movie.seats_per_row movie
                           - Z.min remaining
                               (len (get_available_seats_in_row db movie_id r))
                           + 2) / 2))))
      as (out & -> & Hout); [intros; apply Hrows; by right|lia|].
    exists out. split; [done|].
    rewrite Hout, len_app.
    rewrite select_centered_seats_length
      by (first [apply Hrows; left | lia]).
    lia.
Qed.

(** ** A venue with nothing booked *)

Lemma filter_ext_in {A : Type} (P Q : A -> Prop) `{forall x, Decision (P x)}
    `{forall x, Decision (Q x)} (l : list A) :
  (forall x, x ∈ l -> P x <-> Q x) -> filter P l = filter Q l.
Proof.
  induction l as [|x l IH]; intros Hext; [done|].
  rewrite !filter_cons.
  assert (Hx : P x <-> Q x) by (apply Hext; left).
  rewrite IH by (intros y Hy; apply Hext; by right).
  destruct (decide (P x)), (decide (Q x)); tauto.
Qed.

Lemma filter_fmap {A B : Type} (f : A -> B) (P : B -> Prop)
    `{forall y, Decision (P y)} (l : list A) :
  filter P (f <$> l) = f <$> filter (fun x => P (f x)) l.
Proof.
  induction l as [|x l IH]; [done|].
  rewrite fmap_cons, !filter_cons, IH. by destruct (decide (P (f x))).
Qed.

Lemma filter_slots (r : ascii) (rows : list ascii) (cols : list Z) :
  NoDup rows -> r ∈ rows ->
  filter (fun p : ascii * Z => p.1 = r) (x ← rows; pair x <$> cols)
  = pair r <$> cols.
Proof.
  assert (Hother : forall l,
             r ∉ l ->
             filter (fun p : ascii * Z => p.1 = r) (x ← l; pair x <$> cols)
             = []).
  { intros l Hl. apply filter_none. intros [x n] Hin Heq. simpl in Heq.
    apply list_elem_of_bind in Hin as (y & Hy & Hin).
    apply list_elem_of_fmap in Hy as (? & [= -> ->] & _). by subst. }
  induction 1 as [|x rows Hx Hnd IH]; [by intros ?%not_elem_of_nil|].
  rewrite bind_cons, filter_app. intros [->|Hin]%elem_of_cons.
  - rewrite (Hother rows Hx), app_nil_r.
    apply filter_all. by intros p (? & -> & _)%list_elem_of_fmap.
  - rewrite IH by done.
    rewrite filter_none; [done|].
    intros p (? & -> & _)%list_elem_of_fmap Heq. simpl in Heq.
    by subst.
Qed.

Lemma StronglySorted_seq (a k : nat) : StronglySorted lt (seq a k).
Proof.
  revert a. induction k as [|k IH]; intros a; simpl; constructor; [done|].
  apply Forall_forall. intros x Hx. apply elem_of_seq in Hx. lia.
Qed.

Lemma StronglySorted_seqZ (m n : Z) : StronglySorted Z.lt (seqZ m n).
Proof.
  unfold seqZ.
  apply (StronglySorted_fmap _ lt); [|apply StronglySorted_seq].
  intros x y Hxy. lia.
Qed.

Lemma sorted_by_fmap {A : Type} (key : A -> Z) (l : list A) :
  sorted_by key l -> StronglySorted Z.le (key <$> l).
Proof.
  apply (StronglySorted_fmap key (fun x y => key x <= key y) Z.le).
  auto.
Qed.

(** In a venue with nothing booked every row offers the seats
    [1..seats_per_row]. *)
Lemma fresh_row_numbers db movie r :
  fresh_venue db movie ->
  r ∈ slice_to ascii_uppercase (Movie.rows movie) ->
  Seat.seat_number <$> get_available_seats_in_row db (Movie.id movie) r
  = seqZ 1 (Movie.seats_per_row movie).
Proof.
  intros (_ & _ & _ & Hslots & Hfree) Hr.
  apply (StronglySorted_unique Z.le).
  - apply sorted_by_fmap, sorted_available.
  - apply (StronglySorted_weaken Z.lt); [intros; lia|].
    apply StronglySorted_seqZ.
  - unfold get_available_seats_in_row. rewrite sort_by_Permutation.
    rewrite (filter_ext_in _
               (fun s => Seat.row_letter s = r
                         /\ Seat.movie_id s = Movie.id movie)).
    2:{ intros s Hs. split; [tauto|].
        intros [? ?]. repeat split; [done..|]. by apply Hfree. }
    rewrite <- list_filter_filter.
    transitivity
      (snd <$> (Seat.seat_label
                  <$> filter (fun s => Seat.row_letter s = r)
                        (filter (fun s => Seat.movie_id s = Movie.id movie)
                           (Session.seats db)))).
    { rewrite <- list_fmap_compose. done. }
    assert (Hf : forall l,
               Seat.seat_label <$> filter (fun s => Seat.row_letter s = r) l
               = filter (fun p : ascii * Z => p.1 = r) (Seat.seat_label <$> l))
      by (intros l; by rewrite filter_fmap).
    rewrite Hf, Hslots. unfold venue_slots.
    rewrite filter_slots by (apply NoDup_row_letters || done).
    rewrite <- list_fmap_compose. by rewrite list_fmap_id.
Qed.

Lemma length_row_letters (rows : Z) :
  0 <= rows <= 26 -> len (slice_to ascii_uppercase rows) = rows.
Proof.
  intros Hrows. rewrite slice_to_nonneg by lia. unfold len.
  rewrite length_take. change (length ascii_uppercase) with 26%nat. lia.
Qed.

Lemma length_slots (rows : list ascii) (cols : list Z) :
  len (x ← rows; pair x <$> cols) = len rows * len cols.
Proof.
  unfold len. induction rows as [|x rows IH]; [done|].
  rewrite bind_cons, length_app, length_fmap. simpl length. lia.
Qed.

Lemma fresh_total_available db movie :
  fresh_venue db movie ->
  total_available db (Movie.id movie)
  = Movie.rows movie * Movie.seats_per_row movie.
Proof.
  intros ([Hrows Hspr] & _ & _ & Hslots & Hfree). unfold total_available.
  rewrite (filter_ext_in _ (fun s => Seat.movie_id s = Movie.id movie)).
  2:{ intros s Hs. split; [tauto|]. intros ?. split; [done|].
      by apply Hfree. }
  unfold len. rewrite <- (length_fmap Seat.seat_label), Hslots.
  fold (len (venue_slots movie)). unfold venue_slots.
  rewrite length_slots, length_row_letters by lia.
  unfold len. rewrite length_seqZ. lia.
Qed.

Lemma fresh_capacity db movie rows :
  fresh_venue db movie ->
  (forall r, r ∈ rows -> r ∈ slice_to ascii_uppercase (Movie.rows movie)) ->
  capacity db (Movie.id movie) rows = len rows * Movie.seats_per_row movie.
Proof.
  intros Hfresh. induction rows as [|r rows IH]; intros Hin; simpl.
  - unfold len. simpl. lia.
  - rewrite IH by (intros; apply Hin; by right).
    assert (Hrow : len (get_available_seats_in_row db (Movie.id movie) r)
                   = Movie.seats_per_row movie).
    { unfold len.
      rewrite <- (length_fmap Seat.seat_number),
        (fresh_row_numbers db movie r Hfresh) by (apply Hin; left).
      rewrite length_seqZ. destruct Hfresh as ([_ ?] & _). lia. }
    rewrite Hrow. unfold len. simpl length. lia.
Qed.

Lemma fresh_default_seats db movie num_tickets :
  fresh_venue db movie ->
  0 <= num_tickets <= Movie.rows movie * Movie.seats_per_row movie ->
  exists out,
    get_default_seats db (Movie.id movie) num_tickets = Ok out
    /\ len out = num_tickets.
Proof.
  intros Hfresh Hn.
  pose proof Hfresh as ([Hrows Hspr] & Hq & _).
  unfold get_default_seats, get_row_letters_for_movie. rewrite Hq.
  destruct (default_loop_count db (Movie.id movie) movie
              (slice_to ascii_uppercase (Movie.rows movie)) num_tickets []
              Hspr) as (out & Hout & Hlen); [|lia|].
  { intros r Hr. rewrite (fresh_row_numbers db movie r Hfresh Hr).
    apply StronglySorted_seqZ. }
  exists out. split; [done|].
  rewrite Hlen, (fresh_capacity db movie _ Hfresh) by done.
  rewrite length_row_letters by lia. unfold len. simpl. lia.
Qed.

Lemma fresh_two_by_five : fresh_venue two_by_five_db two_by_five.
Proof.
  split; [by vm_compute|]. split; [reflexivity|].
  split; [apply (bool_decide_unpack _); by vm_compute|].
  split; [vm_compute; reflexivity|].
  apply (proj1 (Forall_forall
                  (fun s => Seat.movie_id s = Movie.id two_by_five ->
                            Seat.is_booked s = false)
                  (Session.seats two_by_five_db))).
  apply (bool_decide_unpack _). by vm_compute.
Qed.

(** C5: in a venue with nothing booked, a default allocation of
    [num_tickets] seats, for [0 <= num_tickets <= rows * seats_per_row],
    succeeds and returns exactly [num_tickets] seats, no seat twice, each a
    seat of the venue. In the venue of two rows of five seats, three tickets
    get the seats A2, A3 and A4. *)
Theorem default_allocation_on_fresh_venue :
  (forall db movie num_tickets,
      fresh_venue db movie ->
      0 <= num_tickets <= Movie.rows movie * Movie.seats_per_row movie ->
      exists out,
        allocate_seats db (Movie.id movie) num_tickets None
        = Ok (allocated out)
        /\ len out = num_tickets
        /\ NoDup (Seat.id <$> out)
        /\ forall s, s ∈ out ->
                     s ∈ Session.seats db
                     /\ Seat.movie_id s = Movie.id movie
                     /\ Seat.seat_label s ∈ venue_slots movie)
  /\ fresh_venue two_by_five_db two_by_five
  /\ allocate_seats two_by_five_db 1 3 None
     = Ok (allocated [ Seat.mk 2 1 "A" 2 false; Seat.mk 3 1 "A" 3 false;
                       Seat.mk 4 1 "A" 4 false ]).
Proof.
  split; [|split; [apply fresh_two_by_five|by vm_compute]].
  intros db movie num_tickets Hfresh Hn.
  destruct (fresh_default_seats db movie num_tickets Hfresh Hn)
    as (out & Hout & Hlen).
  pose proof Hfresh as (_ & Hq & Hids & Hslots & _).
  exists out. split; [|split; [done|]].
  - unfold allocate_seats. rewrite Hq.
    fold (total_available db (Movie.id movie)).
    rewrite (fresh_total_available db movie Hfresh).
    destruct (Z.ltb_spec (Movie.rows movie * Movie.seats_per_row movie)
                num_tickets); [lia|].
    simpl. rewrite Hout. simpl.
    by rewrite (proj2 (check_allocated_cases num_tickets out)) by lia.
  - destruct (get_default_seats_picked _ _ _ _ Hout) as (rows & Hrows & Hp).
    destruct (picked_from_distinct_free _ _ _ _ Hids Hrows Hp)
      as [Hnd Hall].
    split; [done|]. intros s Hs. destruct (Hall s Hs) as (Hdb & Hmovie & _).
    repeat split; [done..|].
    rewrite <- Hslots. apply list_elem_of_fmap. exists s. split; [done|].
    by apply list_elem_of_filter.
Qed.

Lemma default_allocation_on_fresh_venue_witness :
  (fresh_venue two_by_five_db two_by_five
   /\ 0 <= 7 <= Movie.rows two_by_five * Movie.seats_per_row two_by_five)
  /\ exists out,
      allocate_seats two_by_five_db (Movie.id two_by_five) 7 None
      = Ok (allocated out)
      /\ len out = 7.
Proof.
  assert (Hn : 0 <= 7
               <= Movie.rows two_by_five * Movie.seats_per_row two_by_five)
    by (by vm_compute).
  split; [split; [apply fresh_two_by_five|done]|].
  destruct (proj1 default_allocation_on_fresh_venue two_by_five_db two_by_five
              7 fresh_two_by_five Hn) as (out & Halloc & Hlen & _).
  exists out. exact (conj Halloc Hlen).
Defined.

(** ** The seating map of a booking *)

Lemma find_filter_head {A : Type} (P Q : A -> Prop) `{forall x, Decision (P x)}
    `{forall x, Decision (Q x)} (l : list A) :
  List.find (fun x => bool_decide (P x)) (filter Q l)
  = head (filter (fun x => Q x /\ P x) l).
Proof.
  induction l as [|x l IH]; [done|].
  rewrite !filter_cons.
  destruct (decide (Q x)) as [Hq|Hq]; simpl.
  - destruct (decide (P x)) as [Hp|Hp].
    + rewrite bool_decide_eq_true_2 by done.
      by rewrite decide_True by done.
    + rewrite bool_decide_eq_false_2 by done.
      rewrite decide_False by tauto. done.
  - rewrite decide_False by tauto. done.
Qed.

Lemma slot_seat_Some db movie row_letter seat_num s :
  slot_seat db movie row_letter seat_num = Some s ->
  s ∈ Session.seats db
  /\ Seat.movie_id s = Movie.id movie
  /\ Seat.row_letter s = row_letter
  /\ Seat.seat_number s = seat_num.
Proof.
  unfold slot_seat. intros Hh. apply head_Some_elem_of in Hh.
  apply list_elem_of_filter in Hh. tauto.
Qed.

Lemma slot_seat_None db movie row_letter seat_num :
  slot_seat db movie row_letter seat_num = None
  <-> ~ exists s, s ∈ Session.seats db
                  /\ Seat.movie_id s = Movie.id movie
                  /\ Seat.row_letter s = row_letter
                  /\ Seat.seat_number s = seat_num.
Proof.
  unfold slot_seat. rewrite head_None. split.
  - intros Hnil (s & Hs & Hm). 
    assert (Hin : s ∈ filter (fun s => Seat.movie_id s = Movie.id movie
                                       /\ Seat.row_letter s = row_letter
                                       /\ Seat.seat_number s = seat_num)
                        (Session.seats db))
      by (by apply list_elem_of_filter).
    rewrite Hnil in Hin. by apply not_elem_of_nil in Hin.
  - intros Hno. apply filter_none. intros s Hs Hm. apply Hno. by exists s.
Qed.

Lemma N_of_ascii_inj (a b : ascii) : N_of_ascii a = N_of_ascii b -> a = b.
Proof.
  intros Heq. rewrite <- (ascii_N_embedding a), <- (ascii_N_embedding b).
  by rewrite Heq.
Qed.

(** Sorting distinct letters by decreasing code puts them in strictly
    decreasing order. *)
Lemma sort_descending (l : list ascii) :
  NoDup l ->
  StronglySorted (fun a b => (N_of_ascii b < N_of_ascii a)%N)
    (sort_by (fun c => - Z.of_N (N_of_ascii c)) l).
Proof.
  intros Hnd. apply (NoDup_sort_by (fun c => - Z.of_N (N_of_ascii c))) in Hnd.
  pose proof (sort_by_sorted (fun c => - Z.of_N (N_of_ascii c)) l) as Hs.
  unfold sorted_by in Hs.
  induction Hs as [|x k Hk IH Hx]; [constructor|].
  apply NoDup_cons in Hnd as [Hnin Hnd]. constructor; [by apply IH|].
  rewrite Forall_forall in Hx |- *. intros y Hy. specialize (Hx y Hy).
  simpl in Hx.
  assert (N_of_ascii x <> N_of_ascii y)
    by (intros Heq%N_of_ascii_inj; by subst).
  lia.
Qed.

Lemma elem_of_viewed_ids db booking (s : Seat.t) :
  Seat.id s
  ∈ (list_to_set
       (BookingSeat.seat_id
          <$> filter (fun bs => BookingSeat.booking_id bs = booking)
                (Session.booking_seats db)) : gset Z)
  <-> in_booking db booking s.
Proof.
  rewrite elem_of_list_to_set, list_elem_of_fmap. unfold in_booking. split.
  - intros (bs & Hid & Hbs). apply list_elem_of_filter in Hbs as [? ?].
    by exists bs.
  - intros (bs & Hbs & Hb & Hid). exists bs. split; [done|].
    by apply list_elem_of_filter.
Qed.

Lemma elem_of_other_ids db booking movie (s : Seat.t) :
  s ∈ Session.seats db -> Seat.movie_id s = Movie.id movie ->
  ~ in_booking db booking s ->
  Seat.id s
  ∈ (list_to_set
       (BookingSeat.seat_id
          <$> filter
                (fun bs =>
                   BookingSeat.seat_id bs
                   ∉ (list_to_set
                        (BookingSeat.seat_id
                           <$> filter
                                 (fun bs => BookingSeat.booking_id bs = booking)
                                 (Session.booking_seats db)) : gset Z))
                (filter
                   (fun bs =>
                      Exists (fun s => Seat.id s = BookingSeat.seat_id bs
                                       /\ Seat.movie_id s = Movie.id movie)
                        (Session.seats db))
                   (Session.booking_seats db))) : gset Z)
  <-> in_other_booking db booking s.
Proof.
  intros Hs Hmovie Hnot.
  rewrite elem_of_list_to_set, list_elem_of_fmap. unfold in_other_booking.
  split.
  - intros (bs & Hid & Hbs).
    apply list_elem_of_filter in Hbs as [_ Hbs].
    apply list_elem_of_filter in Hbs as [_ Hbs].
    exists bs. split; [done|]. split; [|done].
    intros Hb. apply Hnot. by exists bs.
  - intros (bs & Hbs & Hb & Hid). exists bs. split; [done|].
    apply list_elem_of_filter. split.
    + rewrite Hid. by rewrite elem_of_viewed_ids.
    + apply list_elem_of_filter. split; [|done].
      apply Exists_exists. exists s. by rewrite Hid.
Qed.

(** C8: the map of a booking lists the rows of the movie's seats by
    decreasing row letter; every row has the slots [1..seats_per_row] in
    order, each labelled with its row letter and number; a slot is marked [o]
    when its seat is in the viewed booking, [#] when it is in another booking
    only, [.] when it is in none, and [.] when no seat record exists for
    the slot. *)
Theorem booking_map_rows_and_markers db viewing_booking movie :
  query_movie db (Booking.movie_id viewing_booking) = Some movie ->
  exists bm,
    get_booking_seating_map db viewing_booking = Ok bm
    /\ StronglySorted (fun a b => (N_of_ascii b < N_of_ascii a)%N)
         (MapRow.letter <$> BookingMap.rows bm)
    /\ (forall c,
           c ∈ MapRow.letter <$> BookingMap.rows bm
           <-> exists s, s ∈ Session.seats db
                         /\ Seat.movie_id s = Movie.id movie
                         /\ Seat.row_letter s = c)
    /\ forall row,
        row ∈ BookingMap.rows bm ->
        MapSeat.number <$> MapRow.seats row
        = seqZ 1 (Movie.seats_per_row movie)
        /\ forall slot,
            slot ∈ MapRow.seats row ->
            MapSeat.label slot = (MapRow.letter row, MapSeat.number slot)
            /\ match slot_seat db movie (MapRow.letter row)
                       (MapSeat.number slot) with
               | None => MapSeat.marker slot = "."%char
               | Some s =>
                   (in_booking db (Booking.id viewing_booking) s ->
                    MapSeat.marker slot = "o"%char)
                   /\ (~ in_booking db (Booking.id viewing_booking) s ->
                       in_other_booking db (Booking.id viewing_booking) s ->
                       MapSeat.marker slot = "#"%char)
                   /\ (~ in_booking db (Booking.id viewing_booking) s ->
                       ~ in_other_booking db (Booking.id viewing_booking) s ->
                       MapSeat.marker slot = "."%char)
               end.
Proof.
  intros Hq. unfold get_booking_seating_map. rewrite Hq.
  eexists. split; [reflexivity|]. cbn [BookingMap.rows].
  split; [|split].
  - rewrite <- list_fmap_compose.
    rewrite (list_fmap_ext _ id) by done. rewrite list_fmap_id.
    apply sort_descending, NoDup_elements.
  - intros c. rewrite <- list_fmap_compose.
    rewrite (list_fmap_ext _ id) by done. rewrite list_fmap_id.
    rewrite elem_of_sort_by, elem_of_elements, elem_of_list_to_set,
      list_elem_of_fmap.
    split.
    + intros (s & -> & Hs). apply list_elem_of_filter in Hs as [? ?].
      by exists s.
    + intros (s & Hs & Hm & <-). exists s. split; [done|].
      by apply list_elem_of_filter.
  - intros row (r & -> & _)%list_elem_of_fmap. cbn [MapRow.seats MapRow.letter].
    split.
    + rewrite <- list_fmap_compose.
      rewrite (list_fmap_ext _ id) by done. by rewrite list_fmap_id.
    + intros slot (n & -> & _)%list_elem_of_fmap.
      cbn [MapSeat.label MapSeat.number MapSeat.marker]. split; [done|].
      rewrite (find_filter_head
                 (fun s => Seat.row_letter s = r /\ Seat.seat_number s = n)
                 (fun s => Seat.movie_id s = Movie.id movie)).
      fold (slot_seat db movie r n).
      destruct (slot_seat db movie r n) as [s|] eqn:Hslot; [|done].
      apply slot_seat_Some in Hslot as (Hs & Hm & _).
      unfold slot_marker.
      pose proof (elem_of_viewed_ids db (Booking.id viewing_booking) s)
        as Hviewed.
      case_bool_decide as Hv.
      * split; [done|]. split; intros Hnot; exfalso; by apply Hnot, Hviewed.
      * assert (Hnot : ~ in_booking db (Booking.id viewing_booking) s)
          by (intros ?; by apply Hv, Hviewed).
        pose proof (elem_of_other_ids db (Booking.id viewing_booking) movie s
                      Hs Hm Hnot) as Hother.
        case_bool_decide as Ho.
        -- split; [done|]. split; [done|].
           intros _ Hno. exfalso. by apply Hno, Hother.
        -- split; [done|]. split; [|done].
           intros _ Hin. exfalso. by apply Ho, Hother.
Qed.

Lemma booking_map_rows_and_markers_witness :
  query_movie booked_db (Booking.movie_id viewed_booking) = Some small_movie
  /\ exists bm,
      get_booking_seating_map booked_db viewed_booking = Ok bm
      /\ StronglySorted (fun a b => (N_of_ascii b < N_of_ascii a)%N)
           (MapRow.letter <$> BookingMap.rows bm).
Proof.
  split; [reflexivity|].
  destruct (booking_map_rows_and_markers booked_db viewed_booking small_movie
              eq_refl) as (bm & Hbm & Hrows & _).
  exists bm. exact (conj Hbm Hrows).
Defined.

(** ** The empty start position *)


(** ** The examples of the specification *)

(** From B3 in the venue of two rows of five seats, four tickets find three
    seats only, and the allocation fails for want of seats to the right. *)
Example allocate_from_B3 :
  get_seats_from_position two_by_five_db 1 "B" 3 4
  = Ok [ Seat.mk 8 1 "B" 3 false; Seat.mk 9 1 "B" 4 false;
         Seat.mk 10 1 "B" 5 false ]
  /\ allocate_seats two_by_five_db 1 4 (Some "B3"%string)
     = Ok (failure (Could_not_allocate 4)).
Proof. by vm_compute. Qed.

(** The map of the booking of B2 and B3, with B1 in another booking: row B
    first, then row A. *)
Example booking_map_of_viewed_booking :
  (fun bm => (fun row => (MapRow.letter row,
                          MapSeat.marker <$> MapRow.seats row))
               <$> BookingMap.rows bm)
    <$> (match get_booking_seating_map booked_db viewed_booking with
         | Ok bm => Some bm
         | Raise _ => None
         end)
  = Some [ ("B"%char, ["#"%char; "o"%char; "o"%char]);
           ("A"%char, ["."%char; "."%char; "."%char]) ].
Proof. by vm_compute. Qed.

(** ** Setting a venue up *)

Lemma next_seat_id_above (table : list Seat.t) (s : Seat.t) :
  s ∈ table -> Seat.id s < next_seat_id table.
Proof.
  unfold next_seat_id. induction table as [|x table IH]; simpl.
  - by intros ?%not_elem_of_nil.
  - intros [->|Hs]%elem_of_cons; [lia|]. specialize (IH Hs). lia.
Qed.

Lemma seats_created_add movie table slots row_letter seat_num :
  seats_created movie table slots ->
  seats_created movie
    (table ++ [ {| Seat.id := next_seat_id table;
                   Seat.movie_id := Movie.id movie;
                   Seat.row_letter := row_letter;
                   Seat.seat_number := seat_num;
                   Seat.is_booked := false |} ])
    (slots ++ [(row_letter, seat_num)]).
Proof.
  intros (Hids & Hslots & Hfree). split; [|split].
  - rewrite fmap_app. apply NoDup_app. split; [done|]. split.
    + intros i (s & -> & Hs)%list_elem_of_fmap Hi.
      apply list_elem_of_singleton in Hi. simpl in Hi.
      apply next_seat_id_above in Hs. lia.
    + apply NoDup_singleton.
  - rewrite filter_app, fmap_app, Hslots. f_equal.
    rewrite filter_cons. simpl. by rewrite decide_True by done.
  - intros s [Hs|Hs]%elem_of_app; [by apply Hfree|].
    apply list_elem_of_singleton in Hs. by subst.
Qed.

Lemma seats_created_row movie row_letter cols table slots :
  seats_created movie table slots ->
  seats_created movie
    (foldl
       (fun table seat_num =>
          table ++ [ {| Seat.id := next_seat_id table;
                        Seat.movie_id := Movie.id movie;
                        Seat.row_letter := row_letter;
                        Seat.seat_number := seat_num;
                        Seat.is_booked := false |} ])
       table cols)
    (slots ++ (pair row_letter <$> cols)).
Proof.
  revert table slots. induction cols as [|n cols IH]; intros table slots Hc.
  - simpl. by rewrite app_nil_r.
  - rewrite fmap_cons, cons_middle, app_assoc. simpl. apply IH.
    by apply seats_created_add.
Qed.

Lemma seats_created_rows movie rows cols table slots :
  seats_created movie table slots ->
  seats_created movie
    (foldl
       (fun table row_letter =>
          foldl
            (fun table seat_num =>
               table ++ [ {| Seat.id := next_seat_id table;
                             Seat.movie_id := Movie.id movie;
                             Seat.row_letter := row_letter;
                             Seat.seat_number := seat_num;
                             Seat.is_booked := false |} ])
            table cols)
       table rows)
    (slots ++ (r ← rows; pair r <$> cols)).
Proof.
  revert table slots. induction rows as [|r rows IH]; intros table slots Hc.
  - simpl. by rewrite app_nil_r.
  - rewrite bind_cons, app_assoc. simpl. apply IH.
    by apply seats_created_row.
Qed.

(** [create_seats_for_movie] on a movie with a valid configuration that has
    no seat yet makes a venue with nothing booked. *)
Lemma create_seats_for_movie_fresh db movie :
  valid_config movie ->
  query_movie db (Movie.id movie) = Some movie ->
  NoDup (Seat.id <$> Session.seats db) ->
  (forall s, s ∈ Session.seats db -> Seat.movie_id s <> Movie.id movie) ->
  fresh_venue (create_seats_for_movie db movie) movie.
Proof.
  intros Hvalid Hq Hids Hnone.
  assert (Hinit : seats_created movie (Session.seats db) []).
  { split; [done|]. split.
    - rewrite filter_none; [done|]. intros s Hs. by apply Hnone.
    - intros s Hs Hm. by destruct (Hnone s Hs). }
  apply (seats_created_rows movie
           (slice_to ascii_uppercase (Movie.rows movie))
           (seqZ 1 (Movie.seats_per_row movie))) in Hinit.
  destruct Hinit as (Hids' & Hslots & Hfree).
  unfold fresh_venue, create_seats_for_movie. simpl.
  split; [done|]. split; [done|]. split; [done|]. split; [|done].
  by rewrite Hslots.
Qed.

(** * Further properties of the allocator *)

(** ** How many seats the selector returns *)

Lemma length_available_numbers (available : list Seat.t) :
  (length (sort_by (fun n => n) (elements (dom (seat_map available))))
   <= length available)%nat.
Proof.
  rewrite <- (length_fmap Seat.seat_number available).
  apply submseteq_length, NoDup_submseteq.
  - apply StronglySorted_lt_NoDup, available_numbers_sorted.
  - intros n Hn. by apply elem_of_available_numbers.
Qed.

Lemma length_omap_lookup (available : list Seat.t) (ns : list Z) :
  (forall n, n ∈ ns -> is_Some (seat_map available !! n)) ->
  length (omap (fun n => seat_map available !! n) ns) = length ns.
Proof.
  induction ns as [|n ns IH]; intros Hall; simpl; [done|].
  destruct (Hall n) as [s ->]; [left|]. simpl. f_equal.
  apply IH. intros m Hm. apply Hall. by right.
Qed.

Lemma select_centered_seats_len available count preferred_start :
  len (select_centered_seats available count preferred_start)
  = Z.max 0 (Z.min count (len available)).
Proof.
  unfold select_centered_seats.
  pose proof (len_nonneg available) as Hav.
  case_bool_decide as Hnil; simpl.
  { subst. unfold len. simpl. lia. }
  destruct (Z.leb_spec count 0) as [Hc|Hc]; simpl.
  { unfold len at 1. simpl. lia. }
  pose proof (length_available_numbers available) as Hnum.
  destruct (Z.geb_spec count
              (len (sort_by (fun n => n) (elements (dom (seat_map available))))))
    as [Hge|Hlt].
  - rewrite slice_to_nonneg by lia. unfold len in *. rewrite length_take. lia.
  - assert (Hb : 0 < count
                 <= len (sort_by (fun n => n)
                           (elements (dom (seat_map available))))) by lia.
    apply (find_best_start_bound _ _ preferred_start) in Hb.
    unfold len at 1. rewrite length_omap_lookup.
    + rewrite slice_nonneg by lia. rewrite Nat2Z.id.
      rewrite length_take, length_drop. unfold len in *. lia.
    + intros n Hn. by eapply selected_numbers_are_keys.
Qed.

(** X5: for a row width of a venue and a count that fits the row, the block
    of [count] seats from the preferred start column lies inside the row,
    with as many seats to its left as to its right, or one more to its
    right. *)
Theorem centered_block_fits seats_per_row count :
  1 <= seats_per_row <= 50 -> 1 <= count <= seats_per_row ->
  exists start,
    get_middle_start_column seats_per_row count = Ok start
    /\ 1 <= start
    /\ start + count - 1 <= seats_per_row
    /\ 0 <= (seats_per_row - (start + count - 1)) - (start - 1) <= 1.
Proof.
  intros Hs Hc. rewrite get_middle_start_column_exact by lia.
  eexists. split; [done|].
  assert (Hd : 0 <= seats_per_row - count) by lia.
  pose proof (Z.div_mod (seats_per_row - count + 2) 2 ltac:(lia)) as Hdiv.
  pose proof (Z.mod_pos_bound (seats_per_row - count + 2) 2 ltac:(lia)).
  lia.
Qed.

Lemma well_formed_row_sorted db movie r :
  well_formed_venue db movie ->
  StronglySorted Z.lt
    (Seat.seat_number <$> get_available_seats_in_row db (Movie.id movie) r).
Proof.
  intros (_ & _ & Hids & Hlabels & _).
  apply sorted_NoDup_strict.
  - unfold sorted_by.
    apply (StronglySorted_fmap Seat.seat_number
             (fun x y => Seat.seat_number x <= Seat.seat_number y)); [done|].
    apply sorted_available.
  - unfold get_available_seats_in_row. rewrite sort_by_Permutation.
    apply NoDup_fmap_2_strong.
    + intros x y Hx Hy Heq.
      apply list_elem_of_filter in Hx as [(Hxm & Hxr & _) Hx].
      apply list_elem_of_filter in Hy as [(Hym & Hyr & _) Hy].
      apply (NoDup_fmap_eq Seat.seat_label
               (filter (fun s => Seat.movie_id s = Movie.id movie)
                  (Session.seats db))); [done| | |].
      * by apply list_elem_of_filter.
      * by apply list_elem_of_filter.
      * unfold Seat.seat_label. congruence.
    + apply NoDup_filter. by apply NoDup_fmap_1 in Hids.
Qed.

Lemma length_by_rows {A : Type} (f : A -> ascii) (rows : list ascii)
    (l : list A) :
  NoDup rows -> (forall x, x ∈ l -> f x ∈ rows) ->
  foldr (fun r acc => len (filter (fun x => f x = r) l) + acc) 0 rows = len l.
Proof.
  intros Hnd. revert l. induction Hnd as [|r rows Hr Hnd IH]; intros l Hin.
  - destruct l as [|x l]; [done|].
    specialize (Hin x ltac:(left)). by apply not_elem_of_nil in Hin.
  - simpl.
    assert (Hrest : foldr (fun r' acc => len (filter (fun x => f x = r') l)
                                         + acc) 0 rows
                    = len (filter (fun x => f x <> r) l)).
    { rewrite <- (IH (filter (fun x => f x <> r) l)).
      - clear -Hr. induction rows as [|r' rows IHr]; [done|]. simpl.
        apply not_elem_of_cons in Hr as [Hne Hr].
        rewrite IHr by done. f_equal. f_equal.
        rewrite list_filter_filter. apply filter_ext_in.
        intros x _. split; [intros ->; by split|tauto].
      - intros x [Hx Hl]%list_elem_of_filter.
        specialize (Hin x Hl). apply elem_of_cons in Hin as [?|?]; done. }
    rewrite Hrest. unfold len.
    rewrite <- (filter_app_complement (fun x => f x = r) l) at 3.
    rewrite length_app. lia.
Qed.

Lemma capacity_total db movie :
  well_formed_venue db movie ->
  capacity db (Movie.id movie) (slice_to ascii_uppercase (Movie.rows movie))
  = total_available db (Movie.id movie).
Proof.
  intros (_ & _ & _ & _ & Hrows). unfold total_available.
  rewrite <- (length_by_rows Seat.row_letter
                (slice_to ascii_uppercase (Movie.rows movie))).
  - unfold capacity. generalize (slice_to ascii_uppercase (Movie.rows movie)).
    intros rows. induction rows as [|r rows IH]; [done|]. simpl.
    rewrite IH. f_equal. unfold get_available_seats_in_row, len.
    rewrite length_sort_by, list_filter_filter. do 2 f_equal.
    apply filter_ext_in. intros s _. tauto.
  - apply NoDup_row_letters.
  - intros s [[Hm _] Hs]%list_elem_of_filter. by apply Hrows.
Qed.

(** X1: on a venue as the database keeps it, whatever is booked, a default
    allocation of no more tickets than seats are free succeeds with exactly
    that many seats (none for a count below zero): the default path never
    fails for want of contiguous seats. *)
Theorem default_allocation_never_fragments db movie num_tickets :
  well_formed_venue db movie ->
  num_tickets <= total_available db (Movie.id movie) ->
  exists out,
    allocate_seats db (Movie.id movie) num_tickets None = Ok (allocated out)
    /\ len out = Z.max 0 num_tickets.
Proof.
  intros Hwf Hn. pose proof Hwf as ([Hrows Hspr] & Hq & _).
  destruct (decide (num_tickets <= 0)) as [Hneg|Hpos].
  { exists []. split; [|unfold len; simpl; lia].
    unfold allocate_seats. rewrite Hq.
    fold (total_available db (Movie.id movie)).
    destruct (Z.ltb_spec (total_available db (Movie.id movie)) num_tickets);
      [lia|]. simpl. unfold get_default_seats. rewrite Hq.
    rewrite default_loop_nonpositive by done. simpl.
    by rewrite (proj2 (check_allocated_cases num_tickets []))
      by (unfold len; simpl; lia). }
  destruct (default_loop_count db (Movie.id movie) movie
              (slice_to ascii_uppercase (Movie.rows movie)) num_tickets []
              Hspr) as (out & Hout & Hlen); [|lia|].
  { intros r _. by apply well_formed_row_sorted. }
  rewrite (capacity_total db movie Hwf) in Hlen.
  assert (Hlen' : len out = num_tickets) by (unfold len in *; simpl in *; lia).
  exists out. split; [|lia].
  unfold allocate_seats. rewrite Hq.
  fold (total_available db (Movie.id movie)).
  destruct (Z.ltb_spec (total_available db (Movie.id movie)) num_tickets);
    [lia|]. simpl. unfold get_default_seats, get_row_letters_for_movie.
  rewrite Hq, Hout. simpl.
  by rewrite (proj2 (check_allocated_cases num_tickets out)) by lia.
Qed.

(** ** Rows are filled back to front *)

Lemma StronglySorted_sublist {A : Type} (R : relation A) (l k : list A) :
  l `sublist_of` k -> StronglySorted R k -> StronglySorted R l.
Proof.
  intros Hsub Hk. revert l Hsub.
  induction Hk as [|x k Hk IH Hx]; intros l Hsub.
  - apply sublist_nil_r in Hsub as ->. constructor.
  - apply sublist_cons_r in Hsub as [Hsub|(l' & -> & Hsub)]; [by apply IH|].
    constructor; [by apply IH|].
    rewrite Forall_forall in Hx |- *. intros y Hy. apply Hx.
    by eapply elem_of_sublist.
Qed.

Lemma row_letters_in_order (rows : Z) :
  StronglySorted (fun a b => row_index a < row_index b)
    (slice_to ascii_uppercase rows).
Proof.
  apply (StronglySorted_sublist _ _ ascii_uppercase).
  - unfold slice_to, slice. apply sublist_take_drop.
  - apply (bool_decide_unpack _). by vm_compute.
Qed.

Lemma StronglySorted_same {A : Type} (R : relation A) (l : list A) :
  (forall x y, x ∈ l -> y ∈ l -> R x y) -> StronglySorted R l.
Proof.
  induction l as [|x l IH]; intros Hall; constructor.
  - apply IH. intros y z Hy Hz. apply Hall; by right.
  - apply Forall_forall. intros y Hy. apply Hall; [left|by right].
Qed.

(** Asked for as many seats as the row has free, the selector returns the
    whole row. *)
Lemma select_centered_seats_all available preferred_start :
  select_centered_seats available (len available) preferred_start = available.
Proof.
  unfold select_centered_seats. case_bool_decide as Hnil; [by subst|].
  assert (0 < len available).
  { destruct available; [done|]. unfold len. simpl. lia. }
  destruct (Z.leb_spec (len available) 0); [lia|]. simpl.
  pose proof (length_available_numbers available) as Hnum.
  destruct (Z.geb_spec (len available)
              (len (sort_by (fun n => n) (elements (dom (seat_map available))))))
    as [_|Hlt]; [|unfold len in *; lia].
  rewrite slice_to_nonneg by lia. unfold len. rewrite Nat2Z.id.
  by rewrite take_ge.
Qed.

Lemma default_loop_fills db movie_id movie rows remaining selected out :
  StronglySorted (fun a b => row_index a < row_index b) rows ->
  default_loop db movie_id movie rows remaining selected = Ok out ->
  exists extra,
    out = selected ++ extra
    /\ picked_from db movie_id rows extra
    /\ (forall s t,
           s ∈ extra ->
           t ∈ get_available_seats_in_row db movie_id (Seat.row_letter t) ->
           Seat.row_letter t ∈ rows ->
           row_index (Seat.row_letter t) < row_index (Seat.row_letter s) ->
           t ∈ extra).
Proof.
  intros Hrows. revert remaining selected.
  induction Hrows as [|r rows Hrows IH Hr]; intros remaining selected; simpl.
  { intros [= <-]. exists []. split; [by rewrite app_nil_r|].
    split; [apply picked_from_nil|]. by intros s t ?%not_elem_of_nil. }
  destruct (Z.leb_spec remaining 0) as [Hrem|Hrem].
  { intros [= <-]. exists []. split; [by rewrite app_nil_r|].
    split; [apply picked_from_nil|]. by intros s t ?%not_elem_of_nil. }
  rewrite Forall_forall in Hr.
  case_bool_decide as Hav.
  { intros Hloop. destruct (IH _ _ Hloop) as (extra & -> & Hp & Hfill).
    exists extra. split; [done|]. split; [by apply picked_from_skip|].
    intros s t Hs Ht [Heq|Hin]%elem_of_cons Hlt.
    - rewrite Heq, Hav in Ht. by apply not_elem_of_nil in Ht.
    - by apply (Hfill s t). }
  destruct (get_middle_start_column _ _) as [c|e]; simpl; [|done].
  intros Hloop.
  pose proof Hloop as Hloop'.
  destruct (IH _ _ Hloop) as (extra & -> & Hp & Hfill).
  eexists. split; [by rewrite <- app_assoc|].
  assert (Hchunk : forall s,
             s ∈ select_centered_seats
                   (get_available_seats_in_row db movie_id r)
                   (Z.min remaining
                      (len (get_available_seats_in_row db movie_id r))) c ->
             s ∈ get_available_seats_in_row db movie_id r)
    by (intros s Hs; by apply select_centered_seats_elem in Hs).
  split.
  { apply picked_from_cons; [done| |done].
    intros Hdb. apply select_centered_seats_NoDup. by apply NoDup_available. }
  intros s t [Hs|Hs]%elem_of_app Ht Hrow Hlt.
  - specialize (Hchunk s Hs). apply elem_of_available in Hchunk.
    destruct Hchunk as (_ & _ & Hsr & _). rewrite Hsr in Hlt.
    apply elem_of_cons in Hrow as [Heq|Hin]; [rewrite Heq in Hlt; lia|].
    specialize (Hr _ Hin). simpl in Hr. lia.
  - apply elem_of_cons in Hrow as [Heq|Hin].
    + apply elem_of_app. left. rewrite Heq in Ht.
      destruct (decide (remaining
                        <= len (get_available_seats_in_row db movie_id r)))
        as [Hle|Hgt].
      * (* nothing was left to take: the later rows gave nothing *)
        exfalso.
        rewrite default_loop_nonpositive in Hloop'.
        2:{ rewrite select_centered_seats_len.
            pose proof (len_nonneg (get_available_seats_in_row db movie_id r)).
            lia. }
        injection Hloop' as Heq'.
        apply (f_equal length) in Heq'. rewrite !length_app in Heq'.
        assert (Hnil : extra = []) by (apply nil_length_inv; lia).
        rewrite Hnil in Hs. by apply not_elem_of_nil in Hs.
      * replace (Z.min remaining
                   (len (get_available_seats_in_row db movie_id r)))
          with (len (get_available_seats_in_row db movie_id r)) by lia.
        by rewrite select_centered_seats_all.
    + apply elem_of_app. right. by apply (Hfill s t).
Qed.

Lemma position_loop_row_order db movie_id movie start_col rows is_first_row
    remaining selected out :
  StronglySorted (fun a b => row_index a < row_index b) rows ->
  position_loop db movie_id movie start_col rows is_first_row remaining
    selected = Ok out ->
  exists extra,
    out = selected ++ extra
    /\ picked_from db movie_id rows extra
    /\ sorted_by (fun s => row_index (Seat.row_letter s)) extra.
Proof.
  intros Hrows. revert is_first_row remaining selected.
  induction Hrows as [|r rows Hrows IH Hr];
    intros is_first_row remaining selected; simpl.
  { intros [= <-]. exists []. split; [by rewrite app_nil_r|].
    split; [apply picked_from_nil|constructor]. }
  destruct (remaining <=? 0).
  { intros [= <-]. exists []. split; [by rewrite app_nil_r|].
    split; [apply picked_from_nil|constructor]. }
  rewrite Forall_forall in Hr.
  assert (Hstep : forall chunk rem' first',
             (forall s, s ∈ chunk ->
                        s ∈ get_available_seats_in_row db movie_id r) ->
             (NoDup (Session.seats db) -> NoDup chunk) ->
             position_loop db movie_id movie start_col rows first' rem'
               (selected ++ chunk) = Ok out ->
             exists extra,
               out = selected ++ extra
               /\ picked_from db movie_id (r :: rows) extra
               /\ sorted_by (fun s => row_index (Seat.row_letter s)) extra).
  { intros chunk rem' first' Hchunk Hnd Hloop.
    destruct (IH _ _ _ Hloop) as (extra & -> & Hp & Hsorted).
    eexists. split; [by rewrite <- app_assoc|].
    split; [by apply picked_from_cons|].
    apply StronglySorted_app_2; [| |done].
    - intros s t Hs Ht. specialize (Hchunk s Hs).
      apply elem_of_available in Hchunk as (_ & _ & -> & _).
      destruct Hp as [Hin _]. destruct (Hin t Ht) as [Hrow _].
      specialize (Hr _ Hrow). simpl in Hr. lia.
    - apply StronglySorted_same. intros s t Hs Ht.
      apply Hchunk, elem_of_available in Hs as (_ & _ & -> & _).
      apply Hchunk, elem_of_available in Ht as (_ & _ & -> & _). lia. }
  case_bool_decide as Hav.
  { intros Hloop. apply (Hstep [] remaining is_first_row).
    - by intros s ?%not_elem_of_nil.
    - intros _. constructor.
    - by rewrite app_nil_r. }
  destruct is_first_row.
  - apply Hstep.
    + intros s Hs. apply elem_of_slice in Hs. apply elem_of_sort_by in Hs.
      by apply list_elem_of_filter in Hs as [_ ?].
    + intros Hdb. apply NoDup_slice, NoDup_sort_by, NoDup_filter.
      by apply NoDup_available.
  - destruct (get_middle_start_column _ _) as [c|e]; simpl; [|done].
    apply Hstep.
    + intros s Hs. by apply select_centered_seats_elem in Hs.
    + intros Hdb. apply select_centered_seats_NoDup.
      by apply NoDup_available.
Qed.

(** X4: the selector returns exactly [min(count, free seats of the row)]
    seats, none when [count] is not positive; each is a seat of the row, and
    none comes twice when the row lists no seat twice. *)
Theorem selector_returns_min_count available count preferred_start :
  len (select_centered_seats available count preferred_start)
  = Z.max 0 (Z.min count (len available))
  /\ (forall s,
         s ∈ select_centered_seats available count preferred_start ->
         s ∈ available)
  /\ (NoDup available ->
      NoDup (select_centered_seats available count preferred_start)).
Proof.
  split; [apply select_centered_seats_len|].
  split; [apply select_centered_seats_elem|apply select_centered_seats_NoDup].
Qed.

(** X2: the default allocation returns its seats row by row from the back
    row toward the screen, and it takes a seat of a row only when every free
    seat of the venue's rows behind that row has been taken. *)
Theorem default_allocation_back_to_front db movie_id movie num_tickets out :
  query_movie db movie_id = Some movie ->
  get_default_seats db movie_id num_tickets = Ok out ->
  sorted_by (fun s => row_index (Seat.row_letter s)) out
  /\ forall s t,
      s ∈ out ->
      t ∈ Session.seats db -> Seat.movie_id t = movie_id ->
      Seat.is_booked t = false ->
      Seat.row_letter t ∈ slice_to ascii_uppercase (Movie.rows movie) ->
      row_index (Seat.row_letter t) < row_index (Seat.row_letter s) ->
      t ∈ out.
Proof.
  intros Hq. unfold get_default_seats, get_row_letters_for_movie.
  rewrite Hq. intros Hloop. split.
  - rewrite (default_loop_position_loop _ _ _ 0) in Hloop.
    apply position_loop_row_order in Hloop as (extra & -> & _ & Hsorted);
      [done|apply row_letters_in_order].
  - apply default_loop_fills in Hloop as (extra & -> & _ & Hfill);
      [|apply row_letters_in_order].
    intros s t Hs Ht Hm Hfree Hrow Hlt. apply (Hfill s t); [done| |done..].
    by apply elem_of_available.
Qed.

Lemma default_allocation_back_to_front_witness :
  get_default_seats two_by_five_db 1 7
  = Ok [ Seat.mk 1 1 "A" 1 false; Seat.mk 2 1 "A" 2 false;
         Seat.mk 3 1 "A" 3 false; Seat.mk 4 1 "A" 4 false;
         Seat.mk 5 1 "A" 5 false; Seat.mk 7 1 "B" 2 false;
         Seat.mk 8 1 "B" 3 false ]
  /\ sorted_by (fun s => row_index (Seat.row_letter s))
       [ Seat.mk 1 1 "A" 1 false; Seat.mk 2 1 "A" 2 false;
         Seat.mk 3 1 "A" 3 false; Seat.mk 4 1 "A" 4 false;
         Seat.mk 5 1 "A" 5 false; Seat.mk 7 1 "B" 2 false;
         Seat.mk 8 1 "B" 3 false ].
Proof.
  assert (Hq : query_movie two_by_five_db 1 = Some two_by_five)
    by (vm_compute; reflexivity).
  assert (Hout : get_default_seats two_by_five_db 1 7
                 = Ok [ Seat.mk 1 1 "A" 1 false; Seat.mk 2 1 "A" 2 false;
                        Seat.mk 3 1 "A" 3 false; Seat.mk 4 1 "A" 4 false;
                        Seat.mk 5 1 "A" 5 false; Seat.mk 7 1 "B" 2 false;
                        Seat.mk 8 1 "B" 3 false ])
    by (vm_compute; reflexivity).
  split; [exact Hout|].
  exact (proj1 (default_allocation_back_to_front _ _ _ _ _ Hq Hout)).
Defined.

(** X3: a positional allocation returns its seats row by row toward the
    screen and never takes a seat of a row behind the starting row. *)
Theorem positional_allocation_toward_screen db movie_id start_row start_col
    num_tickets out :
  get_seats_from_position db movie_id start_row start_col num_tickets
  = Ok out ->
  sorted_by (fun s => row_index (Seat.row_letter s)) out
  /\ forall s, s ∈ out ->
               row_index start_row <= row_index (Seat.row_letter s).
Proof.
  unfold get_seats_from_position.
  destruct (query_movie db movie_id) as [movie|];
    [|intros [= <-]; split; [constructor|by intros s ?%not_elem_of_nil]].
  destruct (index_or_minus_one_spec start_row
              (slice_to ascii_uppercase (Movie.rows movie)))
    as [[-> _]|[Hge Hl]].
  { intros [= <-]. split; [constructor|by intros s ?%not_elem_of_nil]. }
  destruct (Z.eqb_spec (index_or_minus_one start_row
                          (slice_to ascii_uppercase (Movie.rows movie))) (-1));
    [lia|].
  assert (Hsorted : StronglySorted (fun a b => row_index a < row_index b)
                      (slice_from (slice_to ascii_uppercase (Movie.rows movie))
                         (index_or_minus_one start_row
                            (slice_to ascii_uppercase (Movie.rows movie))))).
  { apply (StronglySorted_sublist _ _
             (slice_to ascii_uppercase (Movie.rows movie)));
      [apply sublist_drop|apply row_letters_in_order]. }
  intros Hloop.
  apply position_loop_row_order in Hloop as (extra & -> & [Hin _] & Hs);
    [|done].
  split; [done|]. intros s Hs'. destruct (Hin s Hs') as [Hrow _].
  revert Hrow Hsorted. rewrite slice_from_nonneg by done.
  rewrite (drop_S _ start_row _ Hl).
  intros [->|Hrow]%elem_of_cons Hsorted; [lia|].
  apply StronglySorted_cons in Hsorted as [Hall _].
  rewrite Forall_forall in Hall. specialize (Hall _ Hrow). simpl in Hall. lia.
Qed.

Lemma positional_allocation_toward_screen_witness :
  get_seats_from_position back_row_sold_out 1 "B" 2 2
  = Ok [Seat.mk 5 1 "B" 2 false; Seat.mk 6 1 "B" 3 false]
  /\ forall s,
      s ∈ [Seat.mk 5 1 "B" 2 false; Seat.mk 6 1 "B" 3 false] ->
      row_index "B" <= row_index (Seat.row_letter s).
Proof.
  split; [reflexivity|].
  exact (proj2 (positional_allocation_toward_screen back_row_sold_out 1 "B" 2
                  2 _ eq_refl)).
Defined.

(** ** The centered block on a free row *)

Lemma select_centered_seats_at_preferred available count preferred_start :
  StronglySorted Z.lt (Seat.seat_number <$> available) ->
  0 < count < len available ->
  free_run (Seat.seat_number <$> available) preferred_start count ->
  Seat.seat_number <$> select_centered_seats available count preferred_start
  = seqZ preferred_start count.
Proof.
  intros Hs [Hc Hlen] Hfree.
  rewrite (select_centered_seats_ascending _ _ _ Hs) by done.
  set (numbers := Seat.seat_number <$> available) in *.
  assert (Hl : len numbers = len available)
    by (unfold len, numbers; by rewrite length_fmap).
  pose proof (find_best_start_invariant numbers count preferred_start
                (Z.to_nat (len numbers - count + 1))) as Hinv.
  fold (find_best_start numbers count preferred_start) in Hinv.
  specialize (Hinv ltac:(unfold len in *; lia)).
  unfold best_after in Hinv.
  destruct (free_run_index numbers preferred_start count Hs Hc Hfree)
    as [i Hi].
  pose proof (run_from_head _ _ _ _ Hc Hi) as Hstart.
  pose proof (run_from_bound _ _ _ _ Hc Hi) as Hbound.
  assert (Hci : consecutive_at numbers count i = true)
    by (by apply (consecutive_at_run numbers count i preferred_start Hstart)).
  destruct (find_best_start numbers count preferred_start) as [b [d|]];
    simpl in *.
  - destruct Hinv as (Hbk & Hcb & v & Hv & _ & Hbest).
    assert (v = preferred_start).
    { destruct (Hbest i preferred_start) as [?|[? _]];
        [unfold len in *; lia|done..|lia|lia]. }
    subst v. rewrite fmap_take, fmap_drop. apply run_from_take.
    by apply (consecutive_at_run numbers count b preferred_start Hv).
  - destruct Hinv as [_ Hnone]. rewrite Hnone in Hci; [done|].
    unfold len in *. lia.
Qed.

Lemma labels_of_row (r : ascii) (l : list Seat.t) :
  (forall s, s ∈ l -> Seat.row_letter s = r) ->
  Seat.seat_label <$> l = pair r <$> (Seat.seat_number <$> l).
Proof.
  induction l as [|s l IH]; intros Hall; [done|].
  rewrite !fmap_cons, IH by (intros; apply Hall; by right).
  unfold Seat.seat_label at 1. by rewrite (Hall s) by left.
Qed.

Lemma row_letters_head (rows : Z) :
  1 <= rows ->
  exists rest, slice_to ascii_uppercase rows = "A"%char :: rest.
Proof.
  intros Hrows. rewrite slice_to_nonneg by lia.
  destruct (Z.to_nat rows) as [|k] eqn:Hk; [lia|]. by eexists.
Qed.

(** X6: in a venue with nothing booked, an allocation of at most one row's
    worth of tickets takes the block of row A that starts at the preferred
    start column. *)
Theorem fresh_venue_centered_block db movie num_tickets :
  fresh_venue db movie ->
  1 <= num_tickets <= Movie.seats_per_row movie ->
  exists start out,
    get_middle_start_column (Movie.seats_per_row movie) num_tickets = Ok start
    /\ allocate_seats db (Movie.id movie) num_tickets None = Ok (allocated out)
    /\ Seat.seat_label <$> out = pair "A"%char <$> seqZ start num_tickets.
Proof.
  intros Hfresh Hn. pose proof Hfresh as ([Hrows Hspr] & Hq & _).
  destruct (row_letters_head (Movie.rows movie) ltac:(lia)) as [rest Hrest].
  assert (HA : "A"%char ∈ slice_to ascii_uppercase (Movie.rows movie))
    by (rewrite Hrest; left).
  pose proof (fresh_row_numbers db movie "A" Hfresh HA) as Hnum.
  set (available := get_available_seats_in_row db (Movie.id movie) "A") in *.
  assert (Hlen : len available = Movie.seats_per_row movie).
  { unfold len. rewrite <- (length_fmap Seat.seat_number), Hnum, length_seqZ.
    lia. }
  set (start := Z.max 1 ((Movie.seats_per_row movie - num_tickets + 2) / 2)).
  assert (Hstart : get_middle_start_column (Movie.seats_per_row movie)
                     num_tickets = Ok start)
    by (apply get_middle_start_column_exact; lia).
  assert (Hchunk : Seat.seat_number
                     <$> select_centered_seats available num_tickets start
                   = seqZ start num_tickets).
  { destruct (decide (num_tickets = Movie.seats_per_row movie)) as [Heq|Hne].
    - rewrite Heq, <- Hlen at 1. rewrite select_centered_seats_all, Hnum.
      unfold start. rewrite Heq. by replace (_ - _ + 2) with 2 by lia.
    - apply select_centered_seats_at_preferred.
      + rewrite Hnum. apply StronglySorted_seqZ.
      + lia.
      + intros k Hk. rewrite Hnum. apply elem_of_seqZ.
        pose proof (Z.div_mod (Movie.seats_per_row movie - num_tickets + 2) 2
                      ltac:(lia)).
        pose proof (Z.mod_pos_bound
                      (Movie.seats_per_row movie - num_tickets + 2) 2
                      ltac:(lia)).
        unfold start. lia. }
  exists start, (select_centered_seats available num_tickets start).
  split; [done|]. split.
  - unfold allocate_seats. rewrite Hq.
    fold (total_available db (Movie.id movie)).
    rewrite (fresh_total_available db movie Hfresh).
    destruct (Z.ltb_spec (Movie.rows movie * Movie.seats_per_row movie)
                num_tickets); [nia|].
    simpl. unfold get_default_seats, get_row_letters_for_movie.
    rewrite Hq, Hrest. simpl. fold available.
    destruct (Z.leb_spec num_tickets 0); [lia|].
    rewrite bool_decide_eq_false_2.
    2:{ intros Hnil. rewrite Hnil in Hlen. unfold len in Hlen. simpl in Hlen.
        lia. }
    replace (Z.min num_tickets (len available)) with num_tickets by lia.
    rewrite Hstart. simpl.
    rewrite default_loop_nonpositive
      by (rewrite select_centered_seats_len; lia).
    simpl.
    by rewrite (proj2 (check_allocated_cases num_tickets _))
      by (rewrite select_centered_seats_len; lia).
  - rewrite (labels_of_row "A"), Hchunk; [done|].
    intros s Hs%select_centered_seats_elem.
    apply elem_of_available in Hs. tauto.
Qed.

Lemma fresh_venue_centered_block_witness :
  (fresh_venue two_by_five_db two_by_five
   /\ 1 <= 3 <= Movie.seats_per_row two_by_five)
  /\ exists start out,
      get_middle_start_column (Movie.seats_per_row two_by_five) 3 = Ok start
      /\ allocate_seats two_by_five_db (Movie.id two_by_five) 3 None
         = Ok (allocated out)
      /\ Seat.seat_label <$> out = pair "A"%char <$> seqZ start 3.
Proof.
  assert (Hn : 1 <= 3 <= Movie.seats_per_row two_by_five) by (by vm_compute).
  split; [split; [apply fresh_two_by_five|done]|].
  exact (fresh_venue_centered_block two_by_five_db two_by_five 3
           fresh_two_by_five Hn).
Defined.

(** * The seating map of the selection page *)

Section sort_with.
Context {A : Type} (leb : A -> A -> bool) (R : relation A).
Hypothesis leb_R : forall x y, leb x y = true <-> R x y.
Hypothesis R_total : forall x y, R x y \/ R y x.
Hypothesis R_trans : forall x y z, R x y -> R y z -> R x z.

Lemma insert_with_Permutation x l : insert_with leb x l ≡ₚ x :: l.
Proof.
  induction l as [|y l IH]; simpl; [done|].
  destruct (leb x y); [done|]. rewrite IH. apply Permutation_swap.
Qed.

Lemma sort_with_Permutation l : sort_with leb l ≡ₚ l.
Proof.
  induction l as [|x l IH]; simpl; [done|].
  rewrite insert_with_Permutation. by f_equiv.
Qed.

Lemma insert_with_sorted x l :
  StronglySorted R l -> StronglySorted R (insert_with leb x l).
Proof.
  induction 1 as [|y l Hl IH Hy]; simpl.
  - repeat constructor.
  - destruct (leb x y) eqn:E.
    + apply leb_R in E. constructor; [by constructor|].
      constructor; [done|]. eapply Forall_impl; [exact Hy|]. eauto.
    + constructor; [done|].
      rewrite insert_with_Permutation. constructor; [|done].
      destruct (R_total x y) as [Hxy|Hyx]; [|done].
      apply leb_R in Hxy. congruence.
Qed.

Lemma sort_with_sorted l : StronglySorted R (sort_with leb l).
Proof.
  induction l as [|x l IH]; simpl; [constructor|].
  by apply insert_with_sorted.
Qed.
End sort_with.

Lemma row_index_inj (a b : ascii) : row_index a = row_index b -> a = b.
Proof. unfold row_index. intros H. apply N_of_ascii_inj. lia. Qed.

Lemma seat_order_leb_le (a b : Seat.t) :
  seat_order_leb a b = true <-> seat_le a b.
Proof.
  unfold seat_order_leb, seat_le, row_index.
  rewrite orb_true_iff, andb_true_iff, N.ltb_lt, bool_decide_eq_true,
    Z.leb_le. split; (intros [?|?]; [left; lia|by right]).
Qed.

Lemma seat_le_total (a b : Seat.t) : seat_le a b \/ seat_le b a.
Proof.
  unfold seat_le.
  destruct (decide (Seat.row_letter a = Seat.row_letter b)) as [Heq|Hne].
  - destruct (decide (Seat.seat_number a <= Seat.seat_number b));
      [left|right]; right; split; (done || lia).
  - assert (row_index (Seat.row_letter a) <> row_index (Seat.row_letter b))
      by (by intros ?%row_index_inj).
    destruct (decide (row_index (Seat.row_letter a)
                      < row_index (Seat.row_letter b)));
      [left|right]; left; lia.
Qed.

Lemma seat_le_trans (a b c : Seat.t) : seat_le a b -> seat_le b c -> seat_le a c.
Proof.
  unfold seat_le. intros [?|[Hab ?]] [?|[Hbc ?]].
  - left. lia.
  - left. rewrite <- Hbc. lia.
  - left. rewrite Hab. lia.
  - right. split; [congruence|lia].
Qed.

Lemma sorted_seats db movie_id :
  StronglySorted seat_le
    (sort_with seat_order_leb
       (filter (fun s => Seat.movie_id s = movie_id) (Session.seats db))).
Proof.
  apply sort_with_sorted;
    [apply seat_order_leb_le|apply seat_le_total|apply seat_le_trans].
Qed.

(** Adding a seat whose row is not before any key of the dict puts its entry
    last. *)
Lemma dict_append_last (key : ascii) (x : SeatInfo.t)
    (d : list (ascii * list SeatInfo.t)) :
  (SeatInfo.label x).1 = key ->
  grouped_by_row d ->
  (forall k, k ∈ d.*1 -> row_index k <= row_index key) ->
  concat ((dict_append key x d).*2) = concat (d.*2) ++ [x]
  /\ grouped_by_row (dict_append key x d)
  /\ (forall k, k ∈ (dict_append key x d).*1 -> row_index k <= row_index key).
Proof.
  intros Hx. induction d as [|[k l] d IH]; intros [Hkeys Hent] Hle.
  - simpl. split; [done|]. split.
    + split; [repeat constructor|].
      intros k l [[= -> ->]|?%not_elem_of_nil]%elem_of_cons; [|done].
      split; [done|]. by intros e ->%list_elem_of_singleton.
    + intros k ->%list_elem_of_singleton. lia.
  - simpl in Hkeys. apply StronglySorted_cons in Hkeys as [Hk Hkeys].
    rewrite Forall_forall in Hk. simpl. case_bool_decide as Heq.
    + subst k.
      assert (Hd : d = []).
      { destruct d as [|[k' l'] d']; [done|]. exfalso.
        specialize (Hk k' ltac:(left)). specialize (Hle k' ltac:(right; left)).
        simpl in *. lia. }
      subst d. simpl. rewrite !app_nil_r. split; [done|]. split.
      * split; [repeat constructor|].
        intros k l0 [[= -> ->]|?%not_elem_of_nil]%elem_of_cons; [|done].
        destruct (Hent key l ltac:(left)) as [Hne Hall].
        split; [by destruct l|].
        intros e [He| ->%list_elem_of_singleton]%elem_of_app; [by apply Hall|done].
      * intros k ->%list_elem_of_singleton. lia.
    + destruct IH as (Hconcat & [Hkeys' Hent'] & Hle').
      { split; [done|]. intros k' l' Hin. apply Hent. by right. }
      { intros k' Hk'. apply Hle. by right. }
      rewrite !fmap_cons. cbn [concat snd fst]. rewrite Hconcat, app_assoc.
      split; [done|].
      assert (Hlt : row_index k < row_index key).
      { specialize (Hle k ltac:(left)).
        assert (row_index k <> row_index key) by (by intros ?%row_index_inj).
        lia. }
      split; [split|].
      * simpl. apply StronglySorted_cons. split; [|done].
        apply Forall_forall. intros k' Hk'.
        clear -Hk Hk' Hlt. revert Hk'. induction d as [|[k2 l2] d IHd]; simpl.
        -- intros ->%list_elem_of_singleton. done.
        -- case_bool_decide.
           ++ intros Hin. apply Hk. simpl. done.
           ++ intros [->|Hin]%elem_of_cons; [apply Hk; left|].
              apply IHd; [|done]. intros y Hy. apply Hk. by right.
      * intros k' l' [[= -> ->]|Hin]%elem_of_cons; [apply Hent; left|].
        by apply Hent'.
      * intros k' [->|Hin]%elem_of_cons; [lia|]. by apply Hle'.
Qed.

Lemma seating_map_fold (selected_ids : gset Z) (seats : list Seat.t)
    (d : list (ascii * list SeatInfo.t)) :
  StronglySorted seat_le seats ->
  grouped_by_row d ->
  (forall k s, k ∈ d.*1 -> s ∈ seats ->
               row_index k <= row_index (Seat.row_letter s)) ->
  concat ((foldl (fun seating_map seat =>
                    dict_append (Seat.row_letter seat)
                      (seat_info selected_ids seat) seating_map) d seats).*2)
  = concat (d.*2) ++ (seat_info selected_ids <$> seats)
  /\ grouped_by_row
       (foldl (fun seating_map seat =>
                 dict_append (Seat.row_letter seat)
                   (seat_info selected_ids seat) seating_map) d seats).
Proof.
  intros Hs. revert d. induction Hs as [|s seats Hs IH Hall]; intros d Hd Hle.
  - simpl. by rewrite app_nil_r.
  - simpl.
    destruct (dict_append_last (Seat.row_letter s) (seat_info selected_ids s) d)
      as (Hconcat & Hd' & Hle'); [done|done| |].
    { intros k Hk. apply Hle; [done|left]. }
    destruct (IH (dict_append (Seat.row_letter s) (seat_info selected_ids s) d))
      as [Hc Hg]; [done| |].
    { intros k t Hk Ht. rewrite Forall_forall in Hall.
      specialize (Hall t Ht). specialize (Hle' k Hk).
      destruct Hall as [?|[Heq _]]; [lia|]. rewrite <- Heq. done. }
    split; [|done]. rewrite Hc, Hconcat, <- app_assoc. done.
Qed.

Lemma seating_map_flat db movie_id selected_seat_ids :
  concat ((get_seating_map db movie_id selected_seat_ids).*2)
  = seat_info (list_to_set (default [] selected_seat_ids))
      <$> sort_with seat_order_leb
            (filter (fun s => Seat.movie_id s = movie_id) (Session.seats db))
  /\ grouped_by_row (get_seating_map db movie_id selected_seat_ids).
Proof.
  unfold get_seating_map.
  destruct (seating_map_fold (list_to_set (default [] selected_seat_ids))
              (sort_with seat_order_leb
                 (filter (fun s => Seat.movie_id s = movie_id)
                    (Session.seats db))) [])
    as [Hc Hg].
  - apply sorted_seats.
  - split; [constructor|]. by intros k l ?%not_elem_of_nil.
  - by intros k s ?%not_elem_of_nil.
  - by split.
Qed.

Lemma sublist_concat {A : Type} (l : list A) (ls : list (list A)) :
  l ∈ ls -> l `sublist_of` concat ls.
Proof.
  induction ls as [|l' ls IH]; [by intros ?%not_elem_of_nil|].
  intros [->|Hin]%elem_of_cons; simpl.
  - by apply sublist_inserts_r.
  - apply sublist_inserts_l. by apply IH.
Qed.

Lemma seat_info_le (selected_ids : gset Z) (a b : Seat.t) :
  seat_le a b -> info_le (seat_info selected_ids a) (seat_info selected_ids b).
Proof. done. Qed.

(** X8: the seating map has its row letters in strictly increasing order;
    under a row letter it has entries of that row only, at least one, by
    increasing seat number; and every seat of the movie has exactly one
    entry. *)
Theorem seating_map_lists_each_seat db movie_id selected_seat_ids :
  let seating_map := get_seating_map db movie_id selected_seat_ids in
  StronglySorted (fun a b => row_index a < row_index b) (seating_map.*1)
  /\ (forall row_letter row,
         (row_letter, row) ∈ seating_map ->
         row <> []
         /\ (forall e, e ∈ row -> (SeatInfo.label e).1 = row_letter)
         /\ sorted_by SeatInfo.number row)
  /\ concat (seating_map.*2)
     ≡ₚ seat_info (list_to_set (default [] selected_seat_ids))
          <$> filter (fun s => Seat.movie_id s = movie_id) (Session.seats db).
Proof.
  intros seating_map. subst seating_map.
  destruct (seating_map_flat db movie_id selected_seat_ids) as [Hflat [Hk He]].
  split; [done|]. split.
  - intros k l Hin. destruct (He k l Hin) as [Hne Hrow].
    split; [done|]. split; [done|].
    assert (Hsub : l `sublist_of`
                   concat ((get_seating_map db movie_id selected_seat_ids).*2)).
    { apply sublist_concat. apply list_elem_of_fmap. by exists (k, l). }
    rewrite Hflat in Hsub.
    apply (StronglySorted_sublist info_le) in Hsub.
    2:{ apply (StronglySorted_fmap _ seat_le); [apply seat_info_le|].
        apply sorted_seats. }
    unfold sorted_by. clear -Hsub Hrow.
    induction Hsub as [|e l Hl IH Hall]; [constructor|].
    constructor; [apply IH; intros; apply Hrow; by right|].
    rewrite Forall_forall in Hall |- *. intros e' He'.
    destruct (Hall e' He') as [Hlt|[_ ?]]; [|done].
    rewrite (Hrow e), (Hrow e') in Hlt by (by left || by right). lia.
  - rewrite Hflat. f_equiv. apply sort_with_Permutation.
Qed.

(** X9: with at most one seat of the movie for a row letter and seat number,
    the seating map does not depend on the order in which the seats are
    stored. *)
Theorem seating_map_ignores_storage_order db db' movie_id selected_seat_ids :
  Session.seats db ≡ₚ Session.seats db' ->
  NoDup (Seat.seat_label
           <$> filter (fun s => Seat.movie_id s = movie_id) (Session.seats db)) ->
  get_seating_map db movie_id selected_seat_ids
  = get_seating_map db' movie_id selected_seat_ids.
Proof.
  intros Hperm Hlabels. unfold get_seating_map.
  assert (Hfilter : filter (fun s => Seat.movie_id s = movie_id)
                      (Session.seats db)
                    ≡ₚ filter (fun s => Seat.movie_id s = movie_id)
                         (Session.seats db'))
    by (by rewrite Hperm).
  rewrite (StronglySorted_unique_strong seat_le
             (sort_with seat_order_leb
                (filter (fun s => Seat.movie_id s = movie_id)
                   (Session.seats db)))
             (sort_with seat_order_leb
                (filter (fun s => Seat.movie_id s = movie_id)
                   (Session.seats db')))); [done| |apply sorted_seats..|].
  - intros x y Hx Hy Hxy Hyx.
    apply (NoDup_fmap_eq Seat.seat_label
             (filter (fun s => Seat.movie_id s = movie_id) (Session.seats db)));
      [done| | |].
    + by rewrite sort_with_Permutation in Hx.
    + rewrite sort_with_Permutation in Hy. by rewrite Hfilter.
    + unfold Seat.seat_label. unfold seat_le in *.
      destruct Hxy as [Hlt|[Hr ?]], Hyx as [Hlt'|[Hr' ?]].
      * lia.
      * rewrite Hr' in Hlt. lia.
      * rewrite Hr in Hlt'. lia.
      * f_equal; [done|lia].
  - by rewrite !sort_with_Permutation.
Qed.

Lemma position_loop_at_most db movie_id movie start_col rows is_first_row
    remaining selected out :
  position_loop db movie_id movie start_col rows is_first_row remaining
    selected = Ok out ->
  len out <= len selected + Z.max 0 remaining.
Proof.
  revert is_first_row remaining selected.
  induction rows as [|r rows IH]; intros is_first_row remaining selected;
    simpl.
  - intros [= <-]. lia.
  - destruct (Z.leb_spec remaining 0); [intros [= <-]; lia|].
    case_bool_decide as Hav.
    { intros Hloop. apply IH in Hloop. lia. }
    destruct is_first_row.
    + intros Hloop. apply IH in Hloop. rewrite len_app in Hloop.
      match type of Hloop with
      | context [slice_to ?l ?k] =>
          pose proof (len_nonneg l);
          assert (len (slice_to l k) <= k)
            by (rewrite slice_to_nonneg by lia; unfold len;
                rewrite length_take; lia)
      end.
      lia.
    + destruct (get_middle_start_column _ _) as [c|e]; simpl; [|done].
      intros Hloop. apply IH in Hloop.
      rewrite len_app, select_centered_seats_len in Hloop.
      pose proof (len_nonneg (get_available_seats_in_row db movie_id r)).
      lia.
Qed.

Lemma allocate_seats_success db movie_id num_tickets start_position a :
  allocate_seats db movie_id num_tickets start_position = Ok a ->
  success a = true ->
  num_tickets <= len (seats a) <= Z.max 0 num_tickets
  /\ error a = None
  /\ exists rows, NoDup rows /\ picked_from db movie_id rows (seats a).
Proof.
  unfold allocate_seats.
  destruct (query_movie db movie_id) as [movie|] eqn:Hq;
    [|by intros [= <-]].
  destruct (_ <? num_tickets); [by intros [= <-]|].
  destruct (truthy start_position) as [position|].
  - destruct (parse_seat_position position)
      as [[[row_letter col_number]|]|e]; simpl; [|by intros [= <-]|done].
    case_bool_decide.
    { destruct (last _); [by intros [= <-]|done]. }
    destruct (_ || _); [by intros [= <-]|].
    destruct (get_seats_from_position _ _ _ _ _) as [out|] eqn:Hget; [|done].
    simpl. intros [= Hcheck] Hs.
    pose proof (get_seats_from_position_picked _ _ _ _ _ _ Hget) as Hp.
    unfold check_allocated in Hcheck.
    destruct (Z.ltb_spec (len out) num_tickets); [by subst a|].
    subst a. simpl. split; [|by split].
    split; [done|].
    unfold get_seats_from_position in Hget. rewrite Hq in Hget.
    destruct (_ =? -1); [injection Hget as <-; unfold len; simpl; lia|].
    apply position_loop_at_most in Hget. unfold len in *. simpl in *. lia.
  - destruct (get_default_seats _ _ _) as [out|] eqn:Hget; [|done].
    simpl. intros [= Hcheck] Hs.
    pose proof (get_default_seats_picked _ _ _ _ Hget) as Hp.
    unfold check_allocated in Hcheck.
    destruct (Z.ltb_spec (len out) num_tickets); [by subst a|].
    subst a. simpl. split; [|by split].
    split; [done|].
    unfold get_default_seats in Hget. rewrite Hq in Hget.
    rewrite (default_loop_position_loop _ _ _ 0) in Hget.
    apply position_loop_at_most in Hget. unfold len in *. simpl in *. lia.
Qed.

(** X7: a successful result of [allocate_seats] holds exactly [num_tickets]
    seats (none for a count below zero) and no error; a failed one holds no
    seat and an error. *)
Theorem successful_allocation_is_exact db movie_id num_tickets start_position
    a :
  allocate_seats db movie_id num_tickets start_position = Ok a ->
  (success a = true ->
   len (seats a) = Z.max 0 num_tickets /\ error a = None)
  /\ (success a = false -> seats a = [] /\ error a <> None).
Proof.
  intros Halloc. split.
  - intros Hs.
    destruct (allocate_seats_success _ _ _ _ _ Halloc Hs) as (Hlen & He & _).
    split; [|done]. pose proof (len_nonneg (seats a)). lia.
  - revert Halloc. unfold allocate_seats.
    destruct (query_movie db movie_id) as [movie|];
      [|by intros [= <-]].
    destruct (_ <? num_tickets); [by intros [= <-]|].
    assert (Hcheck : forall out,
               success (check_allocated num_tickets out) = false ->
               seats (check_allocated num_tickets out) = []
               /\ error (check_allocated num_tickets out) <> None).
    { intros out. unfold check_allocated. by destruct (_ <? _). }
    destruct (truthy start_position) as [position|].
    + destruct (parse_seat_position position)
        as [[[row_letter col_number]|]|e]; simpl; [|by intros [= <-]|done].
      case_bool_decide.
      { destruct (last _); [by intros [= <-]|done]. }
      destruct (_ || _); [by intros [= <-]|].
      destruct (get_seats_from_position _ _ _ _ _) as [out|]; [|done].
      simpl. intros [= <-]. apply Hcheck.
    + destruct (get_default_seats _ _ _) as [out|]; [|done].
      simpl. intros [= <-]. apply Hcheck.
Qed.

Lemma seat_info_selected (selected_ids : gset Z) (s : Seat.t) :
  SeatInfo.status (seat_info selected_ids s) = "selected"%string
  <-> Seat.id s ∈ selected_ids.
Proof.
  unfold seat_info. simpl. case_bool_decide; [done|].
  by destruct (Seat.is_booked s).
Qed.

(** X10: given the ids of the seats of a successful allocation, the entries
    the seating map marks [selected] are the allocated seats, [num_tickets]
    of them. *)
Theorem seating_map_marks_allocated_seats db movie_id num_tickets
    start_position a :
  NoDup (Seat.id <$> Session.seats db) ->
  allocate_seats db movie_id num_tickets start_position = Ok a ->
  success a = true ->
  let seating_map :=
    get_seating_map db movie_id (Some (Seat.id <$> seats a)) in
  filter (fun e => SeatInfo.status e = "selected"%string)
    (concat (seating_map.*2))
  ≡ₚ seat_info (list_to_set (Seat.id <$> seats a)) <$> seats a
  /\ len (filter (fun e => SeatInfo.status e = "selected"%string)
            (concat (seating_map.*2)))
     = Z.max 0 num_tickets.
Proof.
  intros Hids Halloc Hs seating_map. subst seating_map.
  destruct (allocate_seats_success _ _ _ _ _ Halloc Hs)
    as (Hlen & _ & rows & Hrows & Hp).
  destruct (picked_from_distinct_free _ _ _ _ Hids Hrows Hp) as [Hnd Hall].
  assert (Hperm : filter (fun e => SeatInfo.status e = "selected"%string)
                    (concat ((get_seating_map db movie_id
                                (Some (Seat.id <$> seats a))).*2))
                  ≡ₚ seat_info (list_to_set (Seat.id <$> seats a))
                       <$> seats a).
  { destruct (seating_map_flat db movie_id (Some (Seat.id <$> seats a)))
      as [-> _].
    rewrite sort_with_Permutation. simpl default.
    rewrite filter_fmap. f_equiv.
    apply NoDup_Permutation.
    - apply NoDup_filter, NoDup_filter. by apply NoDup_fmap_1 in Hids.
    - by apply NoDup_fmap_1 in Hnd.
    - intros s. rewrite list_elem_of_filter, seat_info_selected,
        elem_of_list_to_set, list_elem_of_fmap, list_elem_of_filter.
      split.
      + intros [(t & Hid & Ht) [Hm Hdb]].
        destruct (Hall t Ht) as (Htdb & _).
        by rewrite (NoDup_fmap_eq Seat.id (Session.seats db) s t).
      + intros Hin. destruct (Hall s Hin) as (Hdb & Hm & _).
        split; [by exists s|done]. }
  split; [done|].
  unfold len in *. rewrite Hperm, length_fmap.
  pose proof (Nat2Z.is_nonneg (length (seats a))). lia.
Qed.

Lemma seating_map_marks_allocated_seats_witness :
  NoDup (Seat.id <$> Session.seats back_row_sold_out)
  /\ len (filter (fun e => SeatInfo.status e = "selected"%string)
            (concat
               ((get_seating_map back_row_sold_out 1
                   (Some (Seat.id
                            <$> [Seat.mk 5 1 "B" 2 false;
                                 Seat.mk 6 1 "B" 3 false]))).*2)))
     = Z.max 0 2.
Proof.
  assert (Hids : NoDup (Seat.id <$> Session.seats back_row_sold_out))
    by (apply (bool_decide_unpack _); by vm_compute).
  split; [done|].
  exact (proj2 (seating_map_marks_allocated_seats back_row_sold_out 1 2
                  (Some "B2"%string) _ Hids eq_refl eq_refl)).
Defined.

(** ** Venues with bookings, and setting a venue up *)

Lemma well_formed_back_row_sold_out :
  well_formed_venue back_row_sold_out small_movie.
Proof.
  split; [by vm_compute|]. split; [reflexivity|].
  split; [apply (bool_decide_unpack _); by vm_compute|].
  split; [apply (bool_decide_unpack _); by vm_compute|].
  apply (proj1 (Forall_forall
                  (fun s => Seat.movie_id s = Movie.id small_movie ->
                            Seat.row_letter s
                            ∈ slice_to ascii_uppercase (Movie.rows small_movie))
                  (Session.seats back_row_sold_out))).
  apply (bool_decide_unpack _). by vm_compute.
Qed.

Lemma default_allocation_never_fragments_witness :
  (well_formed_venue back_row_sold_out small_movie
   /\ 3 <= total_available back_row_sold_out (Movie.id small_movie))
  /\ exists out,
      allocate_seats back_row_sold_out (Movie.id small_movie) 3 None
      = Ok (allocated out)
      /\ len out = Z.max 0 3.
Proof.
  assert (Hn : 3 <= total_available back_row_sold_out (Movie.id small_movie))
    by (by vm_compute).
  split; [split; [apply well_formed_back_row_sold_out|done]|].
  exact (default_allocation_never_fragments back_row_sold_out small_movie 3
           well_formed_back_row_sold_out Hn).
Defined.

Lemma centered_block_fits_witness :
  (1 <= 10 <= 50 /\ 1 <= 3 <= 10)
  /\ exists start,
      get_middle_start_column 10 3 = Ok start
      /\ 1 <= start
      /\ start + 3 - 1 <= 10
      /\ 0 <= (10 - (start + 3 - 1)) - (start - 1) <= 1.
Proof.
  assert (Hs : 1 <= 10 <= 50) by lia.
  assert (Hc : 1 <= 3 <= 10) by lia.
  split; [done|]. exact (centered_block_fits 10 3 Hs Hc).
Defined.

Lemma successful_allocation_is_exact_witness :
  allocate_seats back_row_sold_out 1 2 (Some "B2"%string)
  = Ok (allocated [Seat.mk 5 1 "B" 2 false; Seat.mk 6 1 "B" 3 false])
  /\ len (seats (allocated [Seat.mk 5 1 "B" 2 false; Seat.mk 6 1 "B" 3 false]))
     = Z.max 0 2.
Proof.
  split; [reflexivity|].
  exact (proj1 (proj1 (successful_allocation_is_exact back_row_sold_out 1 2
                         (Some "B2"%string) _ eq_refl) eq_refl)).
Defined.

Lemma seating_map_ignores_storage_order_witness :
  (Session.seats back_row_sold_out ≡ₚ Session.seats back_row_sold_out_reversed
   /\ NoDup (Seat.seat_label
               <$> filter (fun s => Seat.movie_id s = 1)
                     (Session.seats back_row_sold_out)))
  /\ get_seating_map back_row_sold_out 1 None
     = get_seating_map back_row_sold_out_reversed 1 None.
Proof.
  assert (Hperm : Session.seats back_row_sold_out
                  ≡ₚ Session.seats back_row_sold_out_reversed)
    by (symmetry; apply reverse_Permutation).
  assert (Hnd : NoDup (Seat.seat_label
                         <$> filter (fun s => Seat.movie_id s = 1)
                               (Session.seats back_row_sold_out)))
    by (apply (bool_decide_unpack _); by vm_compute).
  split; [done|].
  exact (seating_map_ignores_storage_order back_row_sold_out
           back_row_sold_out_reversed 1 None Hperm Hnd).
Defined.

Lemma fresh_venue_well_formed db movie :
  fresh_venue db movie -> well_formed_venue db movie.
Proof.
  intros (Hvalid & Hq & Hids & Hslots & Hfree).
  split; [done|]. split; [done|]. split; [done|]. split.
  - rewrite Hslots. unfold venue_slots.
    generalize (NoDup_row_letters (Movie.rows movie)).
    generalize (slice_to ascii_uppercase (Movie.rows movie)). intros rows.
    induction 1 as [|r rows Hr Hnd IH]; [constructor|].
    rewrite bind_cons. apply NoDup_app. split; [|split; [|done]].
    + apply NoDup_fmap_2; [by intros ?? [= ->]|].
      apply StronglySorted_lt_NoDup, StronglySorted_seqZ.
    + intros p (n & -> & _)%list_elem_of_fmap Hin.
      apply list_elem_of_bind in Hin as (r' & Hp & Hr').
      apply list_elem_of_fmap in Hp as (? & [= -> ->] & _). done.
  - intros s Hs Hm.
    assert (Hin : Seat.seat_label s ∈ venue_slots movie).
    { rewrite <- Hslots. apply list_elem_of_fmap. exists s. split; [done|].
      by apply list_elem_of_filter. }
    apply list_elem_of_bind in Hin as (r & Hp & Hr).
    apply list_elem_of_fmap in Hp as (? & [= -> _] & _). done.
Qed.

Lemma create_seats_keeps_rows movie rows cols table :
  table `prefix_of`
    foldl
      (fun table row_letter =>
         foldl
           (fun table seat_num =>
              table ++ [ {| Seat.id := next_seat_id table;
                            Seat.movie_id := Movie.id movie;
                            Seat.row_letter := row_letter;
                            Seat.seat_number := seat_num;
                            Seat.is_booked := false |} ])
           table cols)
      table rows.
Proof.
  revert table. induction rows as [|r rows IH]; intros table; simpl; [done|].
  etrans; [|apply IH]. clear IH.
  revert table. induction cols as [|n cols IH]; intros table; simpl; [done|].
  etrans; [|apply IH]. by apply prefix_app_r.
Qed.

(** X11: [create_seats_for_movie] on a movie that has no seat yet makes a
    venue with nothing booked, with [rows * seats_per_row] free seats, and
    keeps the seats that were stored before. *)
Theorem create_seats_for_movie_makes_venue db movie :
  valid_config movie ->
  query_movie db (Movie.id movie) = Some movie ->
  NoDup (Seat.id <$> Session.seats db) ->
  (forall s, s ∈ Session.seats db -> Seat.movie_id s <> Movie.id movie) ->
  fresh_venue (create_seats_for_movie db movie) movie
  /\ total_available (create_seats_for_movie db movie) (Movie.id movie)
     = Movie.rows movie * Movie.seats_per_row movie
  /\ Session.seats db `prefix_of` Session.seats (create_seats_for_movie db movie).
Proof.
  intros Hvalid Hq Hids Hnone.
  pose proof (create_seats_for_movie_fresh db movie Hvalid Hq Hids Hnone)
    as Hfresh.
  split; [done|]. split; [by apply fresh_total_available|].
  apply create_seats_keeps_rows.
Qed.

Lemma create_seats_for_movie_makes_venue_witness :
  (valid_config two_by_five
   /\ query_movie
        {| Session.movies := [two_by_five]; Session.seats := [];
           Session.bookings := []; Session.booking_seats := [] |}
        (Movie.id two_by_five) = Some two_by_five)
  /\ total_available two_by_five_db (Movie.id two_by_five)
     = Movie.rows two_by_five * Movie.seats_per_row two_by_five.
Proof.
  assert (Hvalid : valid_config two_by_five) by (by vm_compute).
  split; [split; [done|reflexivity]|].
  refine (proj1 (proj2 (create_seats_for_movie_makes_venue
                          {| Session.movies := [two_by_five];
                             Session.seats := [];
                             Session.bookings := [];
                             Session.booking_seats := [] |}
                          two_by_five Hvalid eq_refl _ _))).
  - constructor.
  - by intros s ?%not_elem_of_nil.
Defined.

(** ** The strings of the routes *)

Lemma digit_char_digit d :
  0 <= d <= 9 ->
  is_digit (digit_char d) = true /\ digit_value (digit_char d) = d.
Proof.
  intros Hd.
  assert (Hcases : d = 0 \/ d = 1 \/ d = 2 \/ d = 3 \/ d = 4 \/ d = 5 \/ d = 6
                   \/ d = 7 \/ d = 8 \/ d = 9) by lia.
  repeat (destruct Hcases as [->|Hcases]; [by vm_compute|]).
  subst d. by vm_compute.
Qed.

Lemma digits_of_step fuel n acc :
  digits_of (S fuel) n acc
  = if n <? 10 then digit_char (n mod 10) :: acc
    else digits_of fuel (n / 10) (digit_char (n mod 10) :: acc).
Proof. done. Qed.

(** With enough fuel, [digits_of] puts the digits of [n] in front of [acc]. *)
Lemma digits_of_decimal fuel n acc :
  0 <= n < 2 ^ Z.of_nat (S fuel) ->
  exists ds,
    digits_of (S fuel) n acc = ds ++ acc
    /\ ds <> []
    /\ Forall (fun c => is_digit c = true) ds
    /\ forall a, digits_value a ds = a * 10 ^ len ds + n.
Proof.
  revert n acc. induction fuel as [|fuel IH]; intros n acc Hn.
  - assert (Hlt : n < 10) by (change (2 ^ Z.of_nat 1) with 2 in Hn; lia).
    simpl. apply Z.ltb_lt in Hlt as Hlt'. rewrite Hlt'.
    exists [digit_char (n mod 10)]. rewrite Z.mod_small by lia.
    destruct (digit_char_digit n) as [Hd Hv]; [lia|].
    split; [done|]. split; [done|]. split; [by repeat constructor|].
    intros a. unfold digits_value, len. simpl. rewrite Hv. lia.
  - rewrite (digits_of_step (S fuel)).
    destruct (Z.ltb_spec n 10) as [Hlt|Hge].
    + exists [digit_char (n mod 10)]. rewrite Z.mod_small by lia.
      destruct (digit_char_digit n) as [Hd Hv]; [lia|].
      split; [done|]. split; [done|]. split; [by repeat constructor|].
      intros a. unfold digits_value, len. simpl. rewrite Hv. lia.
    + assert (Hdiv : 0 <= n / 10 < 2 ^ Z.of_nat (S fuel)).
      { split; [apply Z.div_pos; lia|].
        apply Z.div_lt_upper_bound; [lia|].
        replace (Z.of_nat (S (S fuel))) with (Z.succ (Z.of_nat (S fuel)))
          in Hn by lia.
        rewrite Z.pow_succ_r in Hn by lia.
        assert (0 < 2 ^ Z.of_nat (S fuel)) by (apply Z.pow_pos_nonneg; lia).
        lia. }
      destruct (IH (n / 10) (digit_char (n mod 10) :: acc) Hdiv)
        as (ds & Heq & Hne & Hds & Hval).
      exists (ds ++ [digit_char (n mod 10)]).
      destruct (digit_char_digit (n mod 10)) as [Hd Hv].
      { pose proof (Z.mod_pos_bound n 10). lia. }
      split; [by rewrite Heq, <- app_assoc|].
      split; [by destruct ds|].
      split; [apply Forall_app; split; [done|by repeat constructor]|].
      intros a. unfold digits_value in *. rewrite foldl_app. simpl.
      rewrite Hval, Hv, len_app.
      change (len [digit_char (n mod 10)]) with 1.
      rewrite Z.pow_add_r by (pose proof (len_nonneg ds); lia).
      assert (Hdm : n = 10 * (n / 10) + n mod 10) by (apply Z.div_mod; lia).
      change (10 ^ 1) with 10. lia.
Qed.

Lemma decimal_digits n :
  0 <= n ->
  decimal n <> []
  /\ Forall (fun c => is_digit c = true) (decimal n)
  /\ forall a, digits_value a (decimal n) = a * 10 ^ len (decimal n) + n.
Proof.
  intros Hn. unfold decimal.
  destruct (digits_of_decimal (Z.to_nat (Z.log2 n)) n []) as (ds & -> & H).
  - split; [done|]. rewrite Nat2Z.inj_succ, Z2Nat.id by apply Z.log2_nonneg.
    destruct (decide (n = 0)) as [->|Hpos]; [done|].
    apply Z.log2_spec. lia.
  - by rewrite app_nil_r.
Qed.

(** A number below [10 ^ k] has no more than [k] digits. *)
Lemma digits_of_length fuel n acc k :
  0 <= n < 10 ^ k -> 1 <= k ->
  len (digits_of fuel n acc) <= k + len acc.
Proof.
  revert n acc k. induction fuel as [|fuel IH]; intros n acc k Hn Hk.
  - simpl. lia.
  - rewrite digits_of_step. destruct (Z.ltb_spec n 10) as [Hlt|Hge].
    + unfold len. simpl. lia.
    + assert (Hk2 : 2 <= k).
      { destruct (decide (k = 1)) as [->|]; [|lia].
        change (10 ^ 1) with 10 in Hn. lia. }
      assert (Hpow : 10 ^ k = 10 * 10 ^ (k - 1)).
      { rewrite <- Z.pow_succ_r by lia. f_equal. lia. }
      specialize (IH (n / 10) (digit_char (n mod 10) :: acc) (k - 1)).
      assert (Hdiv : 0 <= n / 10 < 10 ^ (k - 1)).
      { split; [apply Z.div_pos; lia|].
        apply Z.div_lt_upper_bound; lia. }
      specialize (IH Hdiv ltac:(lia)).
      replace (len (digit_char (n mod 10) :: acc)) with (1 + len acc) in IH
        by (unfold len; simpl; lia).
      lia.
Qed.

Lemma decimal_length n k :
  0 <= n < 10 ^ k -> 1 <= k -> len (decimal n) <= k.
Proof.
  intros Hn Hk. unfold decimal.
  pose proof (digits_of_length (S (Z.to_nat (Z.log2 n))) n [] k Hn Hk) as Hl.
  by rewrite Z.add_0_r in Hl.
Qed.

(** An int of no more than 4300 digits is converted. *)
Lemma convertible_digits n :
  convertible n -> (len (decimal (Z.abs n)) >? int_max_str_digits) = false.
Proof.
  intros Hn.
  destruct (Z.gtb_spec (len (decimal (Z.abs n))) int_max_str_digits)
    as [Hlong|]; [|done].
  assert (len (decimal (Z.abs n)) <= 4300); [|unfold int_max_str_digits in *; lia].
  apply decimal_length; [|done]. split; [lia|exact Hn].
Qed.

Lemma str_of_int_convertible n :
  convertible n -> str_of_int n = Ok (signed_decimal n).
Proof. intros Hn. unfold str_of_int. by rewrite convertible_digits. Qed.

Lemma format_04d_convertible n :
  convertible n -> format_04d n = Ok (zero_padded n).
Proof. intros Hn. unfold format_04d. by rewrite convertible_digits. Qed.

(** What [str] returns is the sign and the digits, and they are no more
    than the limit. *)
Lemma str_of_int_Ok n x :
  str_of_int n = Ok x ->
  x = signed_decimal n /\ len (decimal (Z.abs n)) <= int_max_str_digits.
Proof.
  unfold str_of_int.
  destruct (Z.gtb_spec (len (decimal (Z.abs n))) int_max_str_digits);
    [done|]. by intros [= <-].
Qed.

Lemma format_04d_Ok n x :
  format_04d n = Ok x ->
  x = zero_padded n /\ len (decimal (Z.abs n)) <= int_max_str_digits.
Proof.
  unfold format_04d.
  destruct (Z.gtb_spec (len (decimal (Z.abs n))) int_max_str_digits);
    [done|]. by intros [= <-].
Qed.

Lemma digit_class c :
  is_digit c = true ->
  int_space c = false /\ isspace c = false
  /\ c <> "-"%char /\ c <> "+"%char /\ c <> "_"%char /\ c <> ","%char
  /\ c <> "G"%char.
Proof.
  intros Hd.
  assert (Ht : forallb
                 (fun c =>
                    implb (is_digit c)
                      (negb (int_space c) && negb (isspace c)
                       && bool_decide
                            (c <> "-"%char /\ c <> "+"%char /\ c <> "_"%char
                             /\ c <> ","%char /\ c <> "G"%char)))
                 all_ascii = true) by (vm_compute; reflexivity).
  rewrite forallb_forall in Ht. specialize (Ht c (elem_of_all_ascii c)).
  rewrite Hd in Ht. simpl in Ht.
  apply andb_true_iff in Ht as [[H1 H2]%andb_true_iff H3].
  apply negb_true_iff in H1, H2. apply bool_decide_eq_true in H3. tauto.
Qed.

Lemma int_digits_digits ds :
  Forall (fun c => is_digit c = true) ds -> int_digits ds = Some (ds, []).
Proof.
  induction 1 as [|c ds Hc Hds IH]; [done|]. simpl. by rewrite Hc, IH.
Qed.

Lemma decimal_value_digits ds : decimal_value ds = digits_value 0 ds.
Proof. done. Qed.

(** [int()] reads a string of digits, with or without a sign, as its value,
    and raises beyond the limit. *)
Lemma int_of_str_digits ds :
  ds <> [] -> Forall (fun c => is_digit c = true) ds ->
  int_of_str ds
  = (if len ds >? int_max_str_digits then Raise ValueError
     else Ok (digits_value 0 ds))
  /\ int_of_str ("-"%char :: ds)
     = (if len ds >? int_max_str_digits then Raise ValueError
        else Ok (- digits_value 0 ds)).
Proof.
  intros Hne Hds. destruct Hds as [|c ds Hc Hds]; [done|].
  destruct (digit_class c Hc) as (Hsp & _ & Hm & Hp & _).
  assert (Hint : int_of_digits (c :: ds)
                 = if len (c :: ds) >? int_max_str_digits
                   then Raise ValueError
                   else Ok (digits_value 0 (c :: ds))).
  { unfold int_of_digits. by rewrite bool_decide_false. }
  unfold int_of_str. split.
  - simpl skip_int_space. rewrite Hsp.
    rewrite (bool_decide_false (c = "-"%char)) by done.
    rewrite (bool_decide_false (c = "+"%char)) by done.
    rewrite Hc, int_digits_digits by done. simpl skip_int_space.
    cbv iota. rewrite Hint. by destruct (_ >? _).
  - change (skip_int_space ("-"%char :: c :: ds)) with ("-"%char :: c :: ds).
    cbv iota beta.
    rewrite (bool_decide_true ("-"%char = "-"%char)) by done.
    rewrite Hc, int_digits_digits by done. simpl skip_int_space.
    cbv iota. rewrite Hint. by destruct (_ >? _).
Qed.

(** [int(str(n)) == n] *)
Lemma int_of_signed_decimal n :
  len (decimal (Z.abs n)) <= int_max_str_digits ->
  int_of_str (signed_decimal n) = Ok n.
Proof.
  intros Hlen. unfold signed_decimal.
  destruct (Z.ltb_spec n 0) as [Hneg|Hpos].
  - replace (Z.abs n) with (- n) in Hlen by lia.
    destruct (decimal_digits (- n)) as (Hne & Hds & Hval); [lia|].
    rewrite (proj2 (int_of_str_digits _ Hne Hds)).
    destruct (Z.gtb_spec (len (decimal (- n))) int_max_str_digits); [lia|].
    rewrite Hval. f_equal. lia.
  - replace (Z.abs n) with n in Hlen by lia.
    destruct (decimal_digits n) as (Hne & Hds & Hval); [lia|].
    rewrite (proj1 (int_of_str_digits _ Hne Hds)).
    destruct (Z.gtb_spec (len (decimal n)) int_max_str_digits); [lia|].
    rewrite Hval. f_equal.
Qed.

Lemma digits_value_zeros k : digits_value 0 (replicate k "0"%char) = 0.
Proof. induction k as [|k IH]; [done|]. unfold digits_value in *. by simpl. Qed.

Lemma padded_digits k n :
  0 <= n ->
  replicate k "0"%char ++ decimal n <> []
  /\ Forall (fun c => is_digit c = true) (replicate k "0"%char ++ decimal n)
  /\ digits_value 0 (replicate k "0"%char ++ decimal n) = n.
Proof.
  intros Hn. destruct (decimal_digits n) as (Hne & Hds & Hval); [done|].
  split; [by destruct k, (decimal n)|]. split.
  - apply Forall_app. split; [|done]. by apply Forall_replicate.
  - unfold digits_value in *. rewrite foldl_app.
    fold (digits_value 0 (replicate k "0"%char)).
    by rewrite digits_value_zeros, Hval.
Qed.

(** The text of [f"{n:04d}"] stands for [n], whatever [n] is. *)
Lemma signed_value_zero_padded n : signed_value (zero_padded n) = n.
Proof.
  unfold zero_padded. destruct (Z.ltb_spec n 0) as [Hneg|Hpos].
  - match goal with
    | |- context [replicate ?k _] =>
        destruct (padded_digits k (Z.abs n)) as (_ & _ & Hval); [lia|]
    end.
    change (["-"%char] ++ ?l) with ("-"%char :: l).
    unfold signed_value. rewrite bool_decide_true by done. rewrite Hval. lia.
  - match goal with
    | |- context [replicate ?k _] =>
        destruct (padded_digits k (Z.abs n)) as (Hne & Hds & Hval); [lia|]
    end.
    change ([] ++ ?l) with l.
    destruct (replicate _ _ ++ decimal (Z.abs n)) as [|c ds] eqn:Hl; [done|].
    unfold signed_value. apply Forall_cons in Hds as [Hc _].
    destruct (digit_class c Hc) as (_ & _ & Hm & _).
    rewrite bool_decide_false by done. rewrite Hval. lia.
Qed.

(** [int(f"{n:04d}") == n] *)
Lemma int_of_zero_padded n :
  len (decimal (Z.abs n)) <= int_max_str_digits ->
  int_of_str (zero_padded n) = Ok n.
Proof.
  intros Hlen. unfold zero_padded.
  assert (Hpad : forall k,
             (k <= 4 - length (decimal (Z.abs n)))%nat ->
             len (replicate k "0"%char ++ decimal (Z.abs n))
             <= int_max_str_digits).
  { intros k Hk. rewrite len_app. unfold len in *.
    rewrite length_replicate. unfold int_max_str_digits in *. lia. }
  destruct (Z.ltb_spec n 0) as [Hneg|Hpos].
  - match goal with
    | |- context [replicate ?k _] =>
        destruct (padded_digits k (Z.abs n)) as (Hne & Hds & Hval); [lia|];
        specialize (Hpad k ltac:(simpl; lia))
    end.
    change (["-"%char] ++ ?l) with ("-"%char :: l).
    rewrite (proj2 (int_of_str_digits _ Hne Hds)).
    destruct (Z.gtb_spec (len (replicate (4 - length ["-"%char]
                                           - length (decimal (Z.abs n)))
                                 "0"%char ++ decimal (Z.abs n)))
                int_max_str_digits); [lia|].
    rewrite Hval. f_equal. lia.
  - match goal with
    | |- context [replicate ?k _] =>
        destruct (padded_digits k (Z.abs n)) as (Hne & Hds & Hval); [lia|];
        specialize (Hpad k ltac:(simpl; lia))
    end.
    change ([] ++ ?l) with l.
    rewrite (proj1 (int_of_str_digits _ Hne Hds)).
    destruct (Z.gtb_spec (len (replicate (4 - length (@nil ascii)
                                           - length (decimal (Z.abs n)))
                                 "0"%char ++ decimal (Z.abs n)))
                int_max_str_digits); [lia|].
    rewrite Hval. f_equal. lia.
Qed.

Lemma zero_padded_chars n c :
  c ∈ zero_padded n -> is_digit c = true \/ c = "-"%char.
Proof.
  unfold zero_padded. intros Hc.
  apply elem_of_app in Hc as [Hc|Hc].
  { destruct (n <? 0); [|by apply not_elem_of_nil in Hc].
    apply list_elem_of_singleton in Hc. by right. }
  left. revert c Hc. apply Forall_forall.
  match goal with
  | |- context [replicate ?k _] =>
      by destruct (padded_digits k (Z.abs n)) as (_ & Hds & _); [lia|]
  end.
Qed.

Lemma replace_from_absent c old new s :
  c ∉ s -> replace_from (c :: old) new 0 s = s.
Proof.
  induction s as [|a s IH]; [done|]. intros [Ha Hs]%not_elem_of_cons.
  simpl. rewrite (bool_decide_false (c = a)) by done. simpl.
  f_equal. by apply IH.
Qed.

Lemma str_replace_GIC s :
  "G"%char ∉ s ->
  str_replace (list_ascii_of_string "GIC") []
    (list_ascii_of_string "GIC" ++ s) = s.
Proof. intros Hs. simpl. by apply replace_from_absent. Qed.

Lemma booking_label_chars n :
  list_ascii_of_string (booking_label n)
  = list_ascii_of_string "GIC" ++ zero_padded n.
Proof. apply list_ascii_of_string_of_list_ascii. Qed.

Lemma booking_label_digits n :
  str_replace (list_ascii_of_string "GIC") []
    (list_ascii_of_string (booking_label n)) = zero_padded n.
Proof.
  rewrite booking_label_chars, str_replace_GIC; [done|].
  by intros [Hd|Heq]%zero_padded_chars.
Qed.

Lemma booking_label_inj n m : booking_label n = booking_label m -> n = m.
Proof.
  intros Heq. pose proof (booking_label_digits n) as Hn.
  rewrite Heq, booking_label_digits in Hn.
  by rewrite <- (signed_value_zero_padded n), <- Hn, signed_value_zero_padded.
Qed.

(** [int()] on the text of [f"{n:04d}"] gives [n] back, or raises for the
    number of its digits. *)
Lemma int_of_zero_padded_cases n :
  int_of_str (zero_padded n) = Ok n
  \/ int_of_str (zero_padded n) = Raise ValueError.
Proof.
  destruct (Z.leb_spec (len (decimal (Z.abs n))) int_max_str_digits)
    as [Hshort|Hlong]; [left; by apply int_of_zero_padded|].
  right. unfold zero_padded. destruct (Z.ltb_spec n 0) as [Hneg|Hpos].
  - match goal with
    | |- context [replicate ?k _] =>
        destruct (padded_digits k (Z.abs n)) as (Hne & Hds & _); [lia|]
    end.
    change (["-"%char] ++ ?l) with ("-"%char :: l).
    rewrite (proj2 (int_of_str_digits _ Hne Hds)).
    destruct (Z.gtb_spec (len (replicate (4 - length ["-"%char]
                                           - length (decimal (Z.abs n)))
                                 "0"%char ++ decimal (Z.abs n)))
                int_max_str_digits) as [|Hle]; [done|].
    rewrite len_app in Hle. pose proof (len_nonneg
      (replicate (4 - length ["-"%char] - length (decimal (Z.abs n)))
         "0"%char)). lia.
  - match goal with
    | |- context [replicate ?k _] =>
        destruct (padded_digits k (Z.abs n)) as (Hne & Hds & _); [lia|]
    end.
    change ([] ++ ?l) with l.
    rewrite (proj1 (int_of_str_digits _ Hne Hds)).
    destruct (Z.gtb_spec (len (replicate (4 - length (@nil ascii)
                                           - length (decimal (Z.abs n)))
                                 "0"%char ++ decimal (Z.abs n)))
                int_max_str_digits) as [|Hle]; [done|].
    rewrite len_app in Hle. pose proof (len_nonneg
      (replicate (4 - length (@nil ascii) - length (decimal (Z.abs n)))
         "0"%char)). lia.
Qed.

(** ** The booking id *)

(** The row of [ORDER BY Booking.id DESC] that comes first has the largest
    primary key. *)
Lemma last_booking_spec bookings :
  match head (sort_by (fun b => - Booking.id b) bookings) with
  | Some b =>
      b ∈ bookings
      /\ forall b', b' ∈ bookings -> Booking.id b' <= Booking.id b
  | None => bookings = []
  end.
Proof.
  pose proof (sort_by_Permutation (fun b => - Booking.id b) bookings) as Hp.
  pose proof (sort_by_sorted (fun b => - Booking.id b) bookings) as Hs.
  destruct (sort_by _ bookings) as [|b l]; simpl.
  - by apply Permutation_nil_l in Hp.
  - split; [rewrite <- Hp; left|].
    intros b' Hb'. rewrite <- Hp in Hb'.
    apply StronglySorted_inv in Hs as [_ Hall].
    apply elem_of_cons in Hb' as [->|Hb']; [lia|].
    rewrite Forall_forall in Hall. specialize (Hall b' Hb'). simpl in Hall. lia.
Qed.

(** What [generate_booking_id] returns while the booking ids are in
    sequence: the id of a number above those of all bookings; it returns
    when the numbers are in range. *)
Lemma generate_booking_id_above db :
  bookings_in_sequence db ->
  (forall r, generate_booking_id db = Ok r ->
             exists n, r = booking_label n
                       /\ forall b m, b ∈ Session.bookings db ->
                                      Booking.booking_id b = booking_label m ->
                                      m < n)
  /\ (numbers_in_range db -> exists r, generate_booking_id db = Ok r).
Proof.
  intros (Hids & Hlabel & Hseq). unfold generate_booking_id.
  pose proof (last_booking_spec (Session.bookings db)) as Hlast.
  destruct (head _) as [last_booking|].
  - destruct Hlast as [Hin Hmax].
    destruct (Hlabel _ Hin) as [k Hk].
    rewrite Hk, booking_label_digits. split.
    + intros r.
      destruct (int_of_zero_padded_cases k) as [-> | ->]; [|done]. simpl.
      destruct (format_04d (k + 1)) as [digits|] eqn:Hformat; [|done].
      apply format_04d_Ok in Hformat as [-> _]. simpl. intros [= <-].
      exists (k + 1). split; [done|].
      intros b m Hb Hm.
      destruct (decide (Booking.id b = Booking.id last_booking)) as [Heq|Hne].
      * assert (b = last_booking) as ->.
        { eapply (NoDup_fmap_eq Booking.id); eauto. }
        rewrite Hk in Hm. apply booking_label_inj in Hm. lia.
      * specialize (Hmax b Hb).
        assert (m < k); [|lia].
        apply (Hseq b last_booking m k); auto. lia.
    + intros Hrange. destruct (Hrange _ _ Hin Hk) as [Hconv Hnext].
      rewrite int_of_zero_padded
        by (apply convertible_digits in Hconv;
            destruct (Z.gtb_spec (len (decimal (Z.abs k))) int_max_str_digits);
            [done|lia]).
      simpl. rewrite (format_04d_convertible _ Hnext). simpl. eauto.
  - split.
    + intros r. simpl. intros [= <-]. exists 1. split; [done|].
      intros b m Hb. rewrite Hlast in Hb. by apply not_elem_of_nil in Hb.
    + intros _. simpl. eauto.
Qed.

(** ** The seat ids of the form *)

Lemma str_split_piece sep x : sep ∉ x -> str_split sep x = [x].
Proof.
  induction x as [|c x IH]; [done|]. intros [Hc Hx]%not_elem_of_cons.
  simpl. rewrite (bool_decide_false (c = sep)) by done. by rewrite IH.
Qed.

Lemma str_split_app sep x rest :
  sep ∉ x -> str_split sep (x ++ sep :: rest) = x :: str_split sep rest.
Proof.
  induction x as [|c x IH]; simpl.
  - intros _. by rewrite (bool_decide_true (sep = sep)).
  - intros [Hc Hx]%not_elem_of_cons.
    rewrite (bool_decide_false (c = sep)) by done. by rewrite IH.
Qed.

(** [sep.join(l).split(sep) == l] for pieces without [sep], at least one. *)
Lemma str_split_join sep l :
  l <> [] -> Forall (fun x => sep ∉ x) l ->
  str_split sep (str_join [sep] l) = l.
Proof.
  induction l as [|x l IH]; [done|]. intros _ [Hx Hl]%Forall_cons.
  destruct l as [|y l].
  - simpl. by apply str_split_piece.
  - change (str_join [sep] (x :: y :: l))
      with (x ++ sep :: str_join [sep] (y :: l)).
    rewrite str_split_app by done. f_equal. by apply IH.
Qed.

Lemma lstrip_keeps s c : c ∈ s -> isspace c = false -> c ∈ lstrip s.
Proof.
  induction s as [|a s IH]; [done|]. intros Hc Hsp. simpl.
  destruct (isspace a) eqn:Ha; [|done].
  apply IH; [|done]. apply elem_of_cons in Hc as [->|Hc]; [congruence|done].
Qed.

(** [strip] removes white space only. *)
Lemma strip_keeps s c : c ∈ s -> isspace c = false -> c ∈ strip s.
Proof.
  intros Hc Hsp. unfold strip. rewrite elem_of_reverse.
  apply lstrip_keeps; [|done]. rewrite elem_of_reverse.
  by apply lstrip_keeps.
Qed.

Lemma lstrip_all_space s : Forall (fun c => isspace c = true) s -> lstrip s = [].
Proof. induction 1 as [|c s Hc Hs IH]; [done|]. simpl. by rewrite Hc. Qed.

(** A string is blank exactly when it has white space only. *)
Lemma strip_blank s : strip s = [] <-> Forall (fun c => isspace c = true) s.
Proof.
  split.
  - intros Hs. apply Forall_forall. intros c Hc.
    destruct (isspace c) eqn:Hsp; [done|].
    pose proof (strip_keeps s c Hc Hsp) as Hin. rewrite Hs in Hin.
    by apply not_elem_of_nil in Hin.
  - intros Hs. unfold strip. by rewrite (lstrip_all_space s Hs).
Qed.

Lemma signed_decimal_chars n :
  exists c ds,
    (signed_decimal n = c :: ds \/ signed_decimal n = "-"%char :: c :: ds)
    /\ Forall (fun c => is_digit c = true) (c :: ds).
Proof.
  unfold signed_decimal. destruct (Z.ltb_spec n 0) as [Hneg|Hpos].
  - destruct (decimal_digits (- n)) as (Hne & Hds & _); [lia|].
    destruct (decimal (- n)) as [|c ds]; [done|]. exists c, ds. auto.
  - destruct (decimal_digits n) as (Hne & Hds & _); [lia|].
    destruct (decimal n) as [|c ds]; [done|]. exists c, ds. auto.
Qed.

Lemma signed_decimal_piece n :
  strip (signed_decimal n) <> [] /\ ","%char ∉ signed_decimal n.
Proof.
  destruct (signed_decimal_chars n) as (c & ds & Hs & Hds).
  assert (Hc : is_digit c = true) by (by apply Forall_cons in Hds as [? _]).
  assert (Hin : c ∈ signed_decimal n) by (destruct Hs as [-> | ->]; set_solver).
  destruct (digit_class c Hc) as (_ & Hsp & _).
  split.
  - intros Hnil. pose proof (strip_keeps _ c Hin Hsp) as Hk.
    rewrite Hnil in Hk. by apply not_elem_of_nil in Hk.
  - assert (Hno : ","%char ∉ c :: ds).
    { intros Hcomma. rewrite Forall_forall in Hds.
      specialize (Hds _ Hcomma). done. }
    destruct Hs as [-> | ->]; [done|].
    by intros [?|?]%elem_of_cons.
Qed.

(** The texts of the ids, when [str] converts them all. *)
Lemma strs_of_Ok ids strs :
  strs_of ids = Ok strs
  <-> strs = signed_decimal <$> ids
      /\ Forall (fun n => len (decimal (Z.abs n)) <= int_max_str_digits) ids.
Proof.
  revert strs. induction ids as [|n ids IH]; intros strs; simpl.
  - split; [by intros [= <-]|by intros [-> _]].
  - unfold str_of_int.
    destruct (Z.gtb_spec (len (decimal (Z.abs n))) int_max_str_digits)
      as [Hlong|Hshort]; simpl.
    { split; [done|]. intros [_ [? _]%Forall_cons]. lia. }
    destruct (strs_of ids) as [l|e] eqn:Hl; simpl.
    + destruct (proj1 (IH l) eq_refl) as [-> Hall]. split.
      * intros [= <-]. split; [done|]. by constructor.
      * by intros [-> _].
    + split; [done|]. intros [-> [_ Hall]%Forall_cons].
      by pose proof (proj2 (IH _) (conj eq_refl Hall)).
Qed.

(** The comprehension of [confirm_booking] reads the ids that [str]
    wrote. *)
Lemma ints_of_strs ids :
  Forall (fun n => len (decimal (Z.abs n)) <= int_max_str_digits) ids ->
  ints_of (signed_decimal <$> ids) = Ok ids.
Proof.
  induction 1 as [|n ids Hn Hids IH]; [done|]. rewrite fmap_cons. simpl.
  rewrite bool_decide_false by apply signed_decimal_piece.
  by rewrite int_of_signed_decimal, IH.
Qed.

(** The field that [joined_ids] writes is split into the texts of the ids
    and read back as the ids. *)
Lemma joined_ids_read ids text :
  ids <> [] -> joined_ids ids = Ok text ->
  ints_of (str_split ","%char (list_ascii_of_string text)) = Ok ids.
Proof.
  intros Hne. unfold joined_ids.
  destruct (strs_of ids) as [strs|] eqn:Hstrs; [|done]. simpl.
  intros [= <-]. apply strs_of_Ok in Hstrs as [-> Hall].
  rewrite list_ascii_of_string_of_list_ascii, str_split_join.
  - by apply ints_of_strs.
  - by destruct ids.
  - apply Forall_fmap, Forall_forall. intros n _. apply signed_decimal_piece.
Qed.

(** A form field that is blank holds no id. *)
Lemma ints_of_blank s :
  strip s = [] -> ints_of (str_split ","%char s) = Ok [].
Proof.
  intros Hs. rewrite str_split_piece.
  - simpl. by rewrite bool_decide_true.
  - apply strip_blank in Hs. rewrite Forall_forall in Hs.
    intros Hc. by specialize (Hs _ Hc).
Qed.


(** While the booking ids are in sequence and their numbers in range,
    [generate_booking_id] returns the id of a number above those of all
    bookings. *)
Lemma generate_booking_id_next db :
  bookings_in_sequence db -> numbers_in_range db ->
  exists n,
    generate_booking_id db = Ok (booking_label n)
    /\ forall b m, b ∈ Session.bookings db ->
                   Booking.booking_id b = booking_label m -> m < n.
Proof.
  intros Hseq Hrange.
  destruct (generate_booking_id_above db Hseq) as [Hsome Hgen].
  destruct (Hgen Hrange) as [r Hr].
  destruct (Hsome r Hr) as (n & -> & Habove). eauto.
Qed.

(** ** [generate_booking_id] *)

(** X13: [generate_booking_id] counts upward from the booking stored last,
    for every number that [int] and the format convert, also beyond four
    digits and below zero: with the last booking the one of the number [n],
    it returns the id of [n + 1]; with no booking it returns [GIC0001]. *)
Theorem generate_booking_id_counts_up db :
  NoDup (Booking.id <$> Session.bookings db) ->
  (Session.bookings db = [] -> generate_booking_id db = Ok "GIC0001"%string)
  /\ forall b n,
      b ∈ Session.bookings db ->
      (forall b', b' ∈ Session.bookings db -> Booking.id b' <= Booking.id b) ->
      Booking.booking_id b = booking_label n ->
      convertible n -> convertible (n + 1) ->
      generate_booking_id db = Ok (booking_label (n + 1)).
Proof.
  intros Hids. split.
  - intros Hnil. unfold generate_booking_id. by rewrite Hnil.
  - intros b n Hb Hmax Hn Hconv Hnext. unfold generate_booking_id.
    pose proof (last_booking_spec (Session.bookings db)) as Hlast.
    destruct (head _) as [last_booking|].
    + destruct Hlast as [Hin Hmax'].
      assert (last_booking = b) as ->.
      { apply (NoDup_fmap_eq Booking.id (Session.bookings db)); [done..|].
        specialize (Hmax _ Hin). specialize (Hmax' _ Hb). lia. }
      rewrite Hn, booking_label_digits.
      rewrite int_of_zero_padded
        by (apply convertible_digits in Hconv;
            destruct (Z.gtb_spec (len (decimal (Z.abs n))) int_max_str_digits);
            [done|lia]).
      simpl. by rewrite (format_04d_convertible _ Hnext).
    + rewrite Hlast in Hb. by apply not_elem_of_nil in Hb.
Qed.

(** X14: while the booking ids are in sequence and their numbers in range,
    [generate_booking_id] returns an id that no booking has, the id of a
    number above those of all bookings. *)
Theorem generate_booking_id_is_new db :
  bookings_in_sequence db ->
  numbers_in_range db ->
  exists n,
    generate_booking_id db = Ok (booking_label n)
    /\ (booking_label n ∉ Booking.booking_id <$> Session.bookings db)
    /\ forall b m, b ∈ Session.bookings db ->
                   Booking.booking_id b = booking_label m -> m < n.
Proof.
  intros Hseq Hrange.
  destruct (generate_booking_id_next db Hseq Hrange) as (n & Hgen & Habove).
  exists n. split; [done|]. split; [|done].
  intros (b & Hlabel & Hb)%list_elem_of_fmap.
  specialize (Habove b n Hb (eq_sym Hlabel)). lia.
Qed.

(** ** [allocate_tickets] *)

(** On a venue as the database keeps it, the default allocation finds every
    count of seats up to the number of free seats. *)
Lemma default_allocation_found db movie num_tickets :
  well_formed_venue db movie ->
  1 <= num_tickets <= total_available db (Movie.id movie) ->
  exists out,
    allocate_seats db (Movie.id movie) num_tickets None = Ok (allocated out)
    /\ len out = num_tickets.
Proof.
  intros Hwf Hn. pose proof Hwf as ([Hrows Hspr] & Hq & _).
  destruct (default_loop_count db (Movie.id movie) movie
              (slice_to ascii_uppercase (Movie.rows movie)) num_tickets []
              Hspr) as (out & Hout & Hlen); [|lia|].
  { intros r _. by apply well_formed_row_sorted. }
  rewrite (capacity_total db movie Hwf) in Hlen.
  assert (Hlen' : len out = num_tickets) by (unfold len in *; simpl in *; lia).
  exists out. split; [|done].
  unfold allocate_seats. rewrite Hq.
  fold (total_available db (Movie.id movie)).
  destruct (Z.ltb_spec (total_available db (Movie.id movie)) num_tickets);
    [lia|]. simpl. unfold get_default_seats, get_row_letters_for_movie.
  rewrite Hq, Hout. simpl.
  by rewrite (proj2 (check_allocated_cases num_tickets out)) by lia.
Qed.

(** The seats of an allocation are seats of the database. *)
Lemma picked_from_seats db movie_id rows out :
  picked_from db movie_id rows out ->
  forall s, s ∈ out -> s ∈ Session.seats db.
Proof.
  intros [Hin _] s Hs. destruct (Hin s Hs) as [_ Hav].
  apply elem_of_available in Hav. tauto.
Qed.

(** Ids that [str] converts are joined to a field. *)
Lemma joined_ids_convertible ids :
  Forall convertible ids ->
  joined_ids ids
  = Ok (string_of_list_ascii (str_join [","%char] (signed_decimal <$> ids))).
Proof.
  intros Hall. unfold joined_ids.
  assert (Hstrs : strs_of ids = Ok (signed_decimal <$> ids)).
  { apply strs_of_Ok. split; [done|].
    eapply Forall_impl; [exact Hall|]. intros n Hn. simpl in Hn.
    apply convertible_digits in Hn.
    destruct (Z.gtb_spec (len (decimal (Z.abs n))) int_max_str_digits);
      [done|lia]. }
  by rewrite Hstrs.
Qed.

(** X15: on a venue as the database keeps it, with the booking ids in
    sequence and the numbers of the bookings and the ids of the seats in
    range, [allocate_tickets] shows the selection page for every count from
    one to the number of free seats: the page selects exactly that many seats
    and proposes an id that no booking has; the redirects [allocation_failed]
    and [no_seats_allocated] are not sent. *)
Theorem allocate_tickets_shows_selection get_active_movie num_tickets db movie :
  well_formed_venue db movie ->
  bookings_in_sequence db ->
  numbers_in_range db ->
  (forall s, s ∈ Session.seats db -> convertible (Seat.id s)) ->
  get_active_movie db = Some movie ->
  1 <= num_tickets <= total_available db (Movie.id movie) ->
  exists context,
    allocate_tickets get_active_movie num_tickets db
    = Ok (TemplateResponse context)
    /\ len (Step2.selected_seats context) = num_tickets
    /\ Step2.selected_seat_ids context
       = Seat.id <$> Step2.selected_seats context
    /\ Step2.available_count context
       = total_available db (Movie.id movie) - num_tickets
    /\ (Step2.booking_id context ∉ Booking.booking_id <$> Session.bookings db)
    /\ Step2.error context = None.
Proof.
  intros Hwf Hseq Hrange Hseats Hmovie Hn.
  destruct (default_allocation_found db movie num_tickets Hwf Hn)
    as (out & Halloc & Hlen).
  destruct (generate_booking_id_next db Hseq Hrange) as (n & Hgen & Habove).
  destruct (allocate_seats_success _ _ _ _ _ Halloc eq_refl)
    as (_ & _ & rows & _ & Hpicked).
  assert (Hjoined : Forall convertible (Seat.id <$> out)).
  { apply Forall_fmap, Forall_forall. intros s Hs. simpl.
    apply Hseats. by apply (picked_from_seats db (Movie.id movie) rows out). }
  unfold allocate_tickets. rewrite Hmovie.
  destruct (Z.ltb_spec num_tickets 1); [lia|].
  fold (total_available db (Movie.id movie)).
  destruct (Z.gtb_spec num_tickets (total_available db (Movie.id movie)));
    [lia|].
  rewrite Halloc. simpl. rewrite bool_decide_false.
  - rewrite Hgen. simpl. rewrite (joined_ids_convertible _ Hjoined). simpl.
    eexists. split; [done|]. simpl.
    split; [done|]. split; [done|]. split; [done|]. split; [|done].
    intros (b & Hlabel & Hb)%list_elem_of_fmap.
    specialize (Habove b n Hb (eq_sym Hlabel)). lia.
  - intros Hnil%fmap_nil_inv. rewrite Hnil in Hlen. unfold len in Hlen.
    simpl in Hlen. lia.
Qed.

(** ** [change_seat_position] *)

(** X16: when the position asked for is refused, [change_seat_position]
    shows the page of [allocate_tickets] again, with the seats of the default
    allocation and the same booking id, and with the error of the
    allocator. *)
Theorem change_seat_position_falls_back get_active_movie num_tickets
    start_position db context result :
  allocate_tickets get_active_movie num_tickets db
  = Ok (TemplateResponse context) ->
  allocate_seats db (Movie.id (Step2.movie context)) num_tickets
    (Some start_position) = Ok result ->
  success result = false ->
  change_seat_position get_active_movie num_tickets start_position db
  = Ok (TemplateResponse
          {| Step2.movie := Step2.movie context;
             Step2.num_tickets := Step2.num_tickets context;
             Step2.selected_seats := Step2.selected_seats context;
             Step2.selected_seat_ids := Step2.selected_seat_ids context;
             Step2.seat_ids := Step2.seat_ids context;
             Step2.seating_map := Step2.seating_map context;
             Step2.booking_id := Step2.booking_id context;
             Step2.available_count := Step2.available_count context;
             Step2.error := error result |}).
Proof.
  unfold allocate_tickets, change_seat_position.
  destruct (get_active_movie db) as [movie|] eqn:Hmovie; [|done].
  destruct (num_tickets <? 1); [done|].
  destruct (num_tickets >? _).
  { destruct (str_of_int num_tickets); [|done]. simpl.
    by destruct (str_of_int _). }
  destruct (allocate_seats db (Movie.id movie) num_tickets None)
    as [default_result|] eqn:Hdefault; [|done]. simpl.
  destruct (success default_result) eqn:Hsuccess; [|done]. simpl.
  case_bool_decide as Hne; [done|].
  destruct (generate_booking_id db) as [booking_id|] eqn:Hid; [|done].
  simpl.
  destruct (joined_ids (Seat.id <$> seats default_result)) as [text|] eqn:Htext;
    [|done].
  simpl. intros [= <-]. simpl. intros Hresult Hrefused.
  rewrite Hresult. simpl. by rewrite Hrefused.
Qed.

(** ** The field of the seat ids *)

(** X17: the field [seat_ids] that the selection page carries, written by
    [allocate_tickets] from ids that [str] converts, is read back by the
    comprehension of [confirm_booking] as the ids it was written from: the
    field is not blank, and the comprehension gives the ids, in order. *)
Theorem seat_ids_field_round_trip selected_seat_ids :
  selected_seat_ids <> [] ->
  Forall convertible selected_seat_ids ->
  exists seat_ids,
    joined_ids selected_seat_ids = Ok seat_ids
    /\ strip (list_ascii_of_string seat_ids) <> []
    /\ ints_of (str_split ","%char (list_ascii_of_string seat_ids))
       = Ok selected_seat_ids.
Proof.
  intros Hne Hall. eexists. split; [by apply joined_ids_convertible|].
  pose proof (joined_ids_read selected_seat_ids _ Hne
                (joined_ids_convertible _ Hall)) as Hids.
  split; [|done]. intros Hblank.
  rewrite (ints_of_blank _ Hblank) in Hids. by injection Hids as <-.
Qed.

(** ** The routes on a venue with two bookings *)

(** An int below a million is convertible. *)
Lemma convertible_small n : Z.abs n < 1000000 -> convertible n.
Proof.
  intros Hn. unfold convertible.
  assert (H : 10 ^ 6 < 10 ^ 4300) by (apply Z.pow_lt_mono_r; lia).
  apply (Z.lt_trans _ (10 ^ 6)); [exact Hn|exact H].
Qed.

(** Booking ids that are the ids of the primary keys are in sequence. *)
Lemma numbered_in_sequence db :
  NoDup (Booking.id <$> Session.bookings db) ->
  (forall b, b ∈ Session.bookings db ->
             Booking.booking_id b = booking_label (Booking.id b)) ->
  bookings_in_sequence db.
Proof.
  intros Hids Hlabel. split; [done|]. split.
  - intros b Hb. exists (Booking.id b). auto.
  - intros b1 b2 n1 n2 H1 H2 E1 E2 Hlt.
    rewrite (Hlabel b1 H1) in E1. rewrite (Hlabel b2 H2) in E2.
    apply booking_label_inj in E1, E2. lia.
Qed.

(** Booking ids that are the ids of small primary keys are in range. *)
Lemma numbered_in_range db :
  (forall b, b ∈ Session.bookings db ->
             Booking.booking_id b = booking_label (Booking.id b)
             /\ 0 <= Booking.id b < 999999) ->
  numbers_in_range db.
Proof.
  intros Hlabel b n Hb Hn. destruct (Hlabel b Hb) as [E Hsmall].
  rewrite E in Hn. apply booking_label_inj in Hn. subst n.
  split; apply convertible_small; lia.
Qed.

Lemma booked_db_in_sequence : bookings_in_sequence booked_db.
Proof.
  apply numbered_in_sequence.
  - apply (bool_decide_unpack _). by vm_compute.
  - apply (proj1 (Forall_forall
                    (fun b => Booking.booking_id b
                              = booking_label (Booking.id b))
                    (Session.bookings booked_db))).
    apply (bool_decide_unpack _). by vm_compute.
Qed.

Lemma booked_db_in_range : numbers_in_range booked_db.
Proof.
  apply numbered_in_range.
  apply (proj1 (Forall_forall
                  (fun b => Booking.booking_id b
                            = booking_label (Booking.id b)
                            /\ 0 <= Booking.id b < 999999)
                  (Session.bookings booked_db))).
  apply (bool_decide_unpack _). by vm_compute.
Qed.

Lemma booked_db_seat_ids s :
  s ∈ Session.seats booked_db -> convertible (Seat.id s).
Proof.
  intros Hs. apply convertible_small. revert s Hs.
  apply (proj1 (Forall_forall (fun s => Z.abs (Seat.id s) < 1000000)
                  (Session.seats booked_db))).
  apply (bool_decide_unpack _). by vm_compute.
Qed.

Lemma booked_db_well_formed : well_formed_venue booked_db small_movie.
Proof.
  split; [by vm_compute|]. split; [reflexivity|].
  split; [apply (bool_decide_unpack _); by vm_compute|].
  split; [apply (bool_decide_unpack _); by vm_compute|].
  apply (proj1 (Forall_forall
                  (fun s => Seat.movie_id s = Movie.id small_movie ->
                            Seat.row_letter s
                            ∈ slice_to ascii_uppercase (Movie.rows small_movie))
                  (Session.seats booked_db))).
  apply (bool_decide_unpack _). by vm_compute.
Qed.

Lemma seat_ids_field_round_trip_witness :
  ([7; 12; 104] <> ([] : list Z) /\ Forall convertible [7; 12; 104])
  /\ exists seat_ids,
      joined_ids [7; 12; 104] = Ok seat_ids
      /\ strip (list_ascii_of_string seat_ids) <> []
      /\ ints_of (str_split ","%char (list_ascii_of_string seat_ids))
         = Ok [7; 12; 104].
Proof.
  assert (Hne : [7; 12; 104] <> ([] : list Z)) by discriminate.
  assert (Hall : Forall convertible [7; 12; 104])
    by (repeat constructor; apply convertible_small; lia).
  split; [exact (conj Hne Hall)|].
  exact (seat_ids_field_round_trip [7; 12; 104] Hne Hall).
Defined.

Lemma generate_booking_id_counts_up_witness :
  (NoDup (Booking.id <$> Session.bookings booked_db)
   /\ convertible 2 /\ convertible (2 + 1))
  /\ generate_booking_id booked_db = Ok (booking_label (2 + 1)).
Proof.
  assert (Hids : NoDup (Booking.id <$> Session.bookings booked_db))
    by exact (proj1 booked_db_in_sequence).
  assert (H2 : convertible 2) by (apply convertible_small; lia).
  assert (H3 : convertible (2 + 1)) by (apply convertible_small; lia).
  split; [exact (conj Hids (conj H2 H3))|].
  refine (proj2 (generate_booking_id_counts_up booked_db Hids)
            {| Booking.id := 2; Booking.movie_id := 1;
               Booking.booking_id := "GIC0002" |} 2 _ _ eq_refl H2 H3).
  - apply list_elem_of_further, list_elem_of_here.
  - apply (proj1 (Forall_forall (fun b' => Booking.id b' <= 2)
                    (Session.bookings booked_db))).
    apply (bool_decide_unpack _). vm_compute. reflexivity.
Defined.

Lemma generate_booking_id_is_new_witness :
  (bookings_in_sequence booked_db /\ numbers_in_range booked_db)
  /\ exists n,
      generate_booking_id booked_db = Ok (booking_label n)
      /\ (booking_label n ∉ Booking.booking_id <$> Session.bookings booked_db)
      /\ forall b m, b ∈ Session.bookings booked_db ->
                     Booking.booking_id b = booking_label m -> m < n.
Proof.
  split; [exact (conj booked_db_in_sequence booked_db_in_range)|].
  exact (generate_booking_id_is_new booked_db booked_db_in_sequence
           booked_db_in_range).
Defined.

Lemma allocate_tickets_shows_selection_witness :
  (well_formed_venue booked_db small_movie
   /\ bookings_in_sequence booked_db
   /\ numbers_in_range booked_db
   /\ (forall s, s ∈ Session.seats booked_db -> convertible (Seat.id s))
   /\ first_movie booked_db = Some small_movie
   /\ 1 <= 2 <= total_available booked_db (Movie.id small_movie))
  /\ exists context,
      allocate_tickets first_movie 2 booked_db = Ok (TemplateResponse context)
      /\ len (Step2.selected_seats context) = 2
      /\ Step2.selected_seat_ids context
         = Seat.id <$> Step2.selected_seats context
      /\ Step2.available_count context
         = total_available booked_db (Movie.id small_movie) - 2
      /\ (Step2.booking_id context
          ∉ Booking.booking_id <$> Session.bookings booked_db)
      /\ Step2.error context = None.
Proof.
  assert (Hn : 1 <= 2 <= total_available booked_db (Movie.id small_movie))
    by (by vm_compute).
  split;
    [exact (conj booked_db_well_formed
              (conj booked_db_in_sequence
                 (conj booked_db_in_range
                    (conj booked_db_seat_ids (conj eq_refl Hn)))))|].
  exact (allocate_tickets_shows_selection first_movie 2 booked_db small_movie
           booked_db_well_formed booked_db_in_sequence booked_db_in_range
           booked_db_seat_ids eq_refl Hn).
Defined.

Lemma change_seat_position_falls_back_witness :
  exists context result,
    allocate_tickets first_movie 2 booked_db = Ok (TemplateResponse context)
    /\ allocate_seats booked_db (Movie.id (Step2.movie context)) 2
         (Some "Z9"%string) = Ok result
    /\ success result = false
    /\ change_seat_position first_movie 2 "Z9" booked_db
       = Ok (TemplateResponse
               {| Step2.movie := Step2.movie context;
                  Step2.num_tickets := Step2.num_tickets context;
                  Step2.selected_seats := Step2.selected_seats context;
                  Step2.selected_seat_ids := Step2.selected_seat_ids context;
                  Step2.seat_ids := Step2.seat_ids context;
                  Step2.seating_map := Step2.seating_map context;
                  Step2.booking_id := Step2.booking_id context;
                  Step2.available_count := Step2.available_count context;
                  Step2.error := error result |}).
Proof.
  eexists _, _. split; [vm_compute; reflexivity|].
  split; [vm_compute; reflexivity|]. split; [reflexivity|].
  refine (change_seat_position_falls_back first_movie 2 "Z9" booked_db _ _
            _ _ _);
    [vm_compute; reflexivity|vm_compute; reflexivity|reflexivity].
Defined.
